(** * An in-memory social-network store (MemStorage) and its tweet routes

    A shallow embedding of [server/storage.ts] (class [MemStorage]) and of
    the tweet-creation handler of [server/routes.ts], with the record types
    of [shared/schema.ts].

    Modelling conventions
    - A JavaScript [Map<string, V>] iterates in insertion order, [set] on a
      present key keeps the key's position, and [Array.from(m.values())]
      followed by [find]/[filter] depends on that order.  It is embedded as
      an association list, oldest binding first ([JsMap]).
    - A [Date] is its time value in milliseconds ([Z]); a column that
      drizzle infers as [T | null] is an [option].
    - [randomUUID()] and [new Date()] are inputs of the embedded method:
      the identifier and the clock readings it draws are its last
      arguments.
    - A method that mutates the store or throws lives in the monad [M]
      (store passing, with the thrown [Error] as a left result); a method
      that only reads is a function of the store. *)

From Stdlib Require Import List String Ascii ZArith Lia Bool.
From Stdlib Require Import Sorted Permutation.
Import ListNotations.
Local Open Scope Z_scope.

Notation "a =s b" := (String.eqb a b) (at level 70, no associativity).

(** ** JavaScript [Map<string, V>] *)

Module JsMap.

Definition t (V : Type) : Type := list (string * V).

Section Ops.
Context {V : Type}.

Definition empty : t V := [].

Fixpoint get (k : string) (m : t V) : option V :=
      match m with
      | [] => None
      | (k', v) :: m' => if k' =s k then Some v else get k m'
      end.

Definition has (k : string) (m : t V) : bool :=
      match get k m with Some _ => true | None => false end.

    (** [set] overwrites in place, or appends a new binding at the end. *)
Fixpoint set (k : string) (v : V) (m : t V) : t V :=
      match m with
      | [] => [(k, v)]
      | (k', v') :: m' =>
          if k' =s k then (k, v) :: m' else (k', v') :: set k v m'
      end.

Definition delete (k : string) (m : t V) : t V :=
      filter (fun kv => negb (fst kv =s k)) m.

Definition keys (m : t V) : list string := map fst m.
Definition values (m : t V) : list V := map snd m.
End Ops.

End JsMap.

(** ** Records of [shared/schema.ts] *)

Module User.
Record t : Type := mk {
    id : string;
    username : string;
    email : string;
    password : string;
    displayName : string;
    avatar : option string;
    bio : option string;
    isVerified : option bool;
    isPrivate : option bool;
    followerCount : option Z;
    followingCount : option Z;
    tweetCount : option Z;
    createdAt : option Z;
    updatedAt : option Z;
    deletedAt : option Z
  }.

  (** [{ ...u, followerCount: n }] *)
Definition with_followerCount (u : t) (n : Z) : t :=
    mk (id u) (username u) (email u) (password u) (displayName u) (avatar u)
       (bio u) (isVerified u) (isPrivate u) (Some n) (followingCount u)
       (tweetCount u) (createdAt u) (updatedAt u) (deletedAt u).

  (** [{ ...u, followingCount: n }] *)
Definition with_followingCount (u : t) (n : Z) : t :=
    mk (id u) (username u) (email u) (password u) (displayName u) (avatar u)
       (bio u) (isVerified u) (isPrivate u) (followerCount u) (Some n)
       (tweetCount u) (createdAt u) (updatedAt u) (deletedAt u).

  (** The same record with another credential hash (used to compare two
      stores that differ in one user's password only). *)
Definition with_password (u : t) (p : string) : t :=
    mk (id u) (username u) (email u) p (displayName u) (avatar u)
       (bio u) (isVerified u) (isPrivate u) (followerCount u)
       (followingCount u) (tweetCount u) (createdAt u) (updatedAt u)
       (deletedAt u).
End User.

Module InsertUser.
Record t : Type := mk {
    username : string;
    email : string;
    password : string;
    displayName : string
  }.
End InsertUser.

Module Tweet.
Record t : Type := mk {
    id : string;
    content : string;
    authorId : string;
    parentTweetId : option string;
    isRetweet : option bool;
    originalTweetId : option string;
    mediaUrls : option (list string);
    hashtags : option (list string);
    createdAt : option Z;
    updatedAt : option Z;
    deletedAt : option Z
  }.

  (** [{ ...tw, content: c }] *)
Definition with_content (tw : t) (c : string) : t :=
    mk (id tw) c (authorId tw) (parentTweetId tw) (isRetweet tw)
       (originalTweetId tw) (mediaUrls tw) (hashtags tw) (createdAt tw)
       (updatedAt tw) (deletedAt tw).
End Tweet.

Module InsertTweet.
Record t : Type := mk { content : string }.
End InsertTweet.

Module Mention.
Record t : Type := mk {
    id : string;
    tweetId : string;
    userId : string;
    createdAt : option Z
  }.
End Mention.

Module Follow.
Record t : Type := mk {
    id : string;
    followerId : string;
    followingId : string;
    createdAt : option Z
  }.
End Follow.

(** ['like' | 'retweet' | 'bookmark'] *)
Inductive EngagementType : Type := like | retweet | bookmark.

Definition EngagementType_eqb (a b : EngagementType) : bool :=
  match a, b with
  | like, like | retweet, retweet | bookmark, bookmark => true
  | _, _ => false
  end.

Definition EngagementType_name (ty : EngagementType) : string :=
  match ty with
  | like => "like"
  | retweet => "retweet"
  | bookmark => "bookmark"
  end.

Module TweetEngagement.
Record t : Type := mk {
    id : string;
    tweetId : string;
    userId : string;
    type : EngagementType;
    createdAt : option Z
  }.
End TweetEngagement.

Module TweetStats.
Record t : Type := mk {
    tweetId : string;
    replyCount : option Z;
    retweetCount : option Z;
    likeCount : option Z;
    bookmarkCount : option Z;
    impressionCount : option Z;
    updatedAt : option Z
  }.

Definition with_likeCount (st : t) (n : Z) : t :=
    mk (tweetId st) (replyCount st) (retweetCount st) (Some n)
       (bookmarkCount st) (impressionCount st) (updatedAt st).
Definition with_retweetCount (st : t) (n : Z) : t :=
    mk (tweetId st) (replyCount st) (Some n) (likeCount st)
       (bookmarkCount st) (impressionCount st) (updatedAt st).
Definition with_bookmarkCount (st : t) (n : Z) : t :=
    mk (tweetId st) (replyCount st) (retweetCount st) (likeCount st)
       (Some n) (impressionCount st) (updatedAt st).
Definition with_updatedAt (st : t) (d : Z) : t :=
    mk (tweetId st) (replyCount st) (retweetCount st) (likeCount st)
       (bookmarkCount st) (impressionCount st) (Some d).
End TweetStats.

(** [interface TweetWithAuthor extends Tweet]: the tweet's own fields (the
    spread [...tweet]) are kept together in [tweet]. *)
Module TweetWithAuthor.
Record t : Type := mk {
    tweet : Tweet.t;
    author : User.t;
    mentions : list string
  }.
Definition id (x : t) : string := Tweet.id (tweet x).
Definition authorId (x : t) : string := Tweet.authorId (tweet x).
Definition content (x : t) : string := Tweet.content (tweet x).
Definition createdAt (x : t) : option Z := Tweet.createdAt (tweet x).
End TweetWithAuthor.

(** [interface UserProfile extends User]: the user's own fields (the spread
    [...user]) are kept together in [user]; the two flags are optional. *)
Module UserProfile.
Record t : Type := mk {
    user : User.t;
    isFollowing : option bool;
    isFollowedBy : option bool
  }.
End UserProfile.

(** ** The store *)

Record MemStorage : Type := mkStorage {
  users : JsMap.t User.t;
  tweets : JsMap.t Tweet.t;
  mentions : JsMap.t Mention.t;
  follows : JsMap.t Follow.t;
  engagements : JsMap.t TweetEngagement.t;
  tweetStats : JsMap.t TweetStats.t
}.

(** [new MemStorage()], and the store after [reset()]. *)
Definition newMemStorage : MemStorage :=
  mkStorage JsMap.empty JsMap.empty JsMap.empty JsMap.empty JsMap.empty
            JsMap.empty.

Definition set_users (f : JsMap.t User.t -> JsMap.t User.t)
    (s : MemStorage) : MemStorage :=
  mkStorage (f (users s)) (tweets s) (mentions s) (follows s)
            (engagements s) (tweetStats s).
Definition set_tweets (f : JsMap.t Tweet.t -> JsMap.t Tweet.t)
    (s : MemStorage) : MemStorage :=
  mkStorage (users s) (f (tweets s)) (mentions s) (follows s)
            (engagements s) (tweetStats s).
Definition set_mentions (f : JsMap.t Mention.t -> JsMap.t Mention.t)
    (s : MemStorage) : MemStorage :=
  mkStorage (users s) (tweets s) (f (mentions s)) (follows s)
            (engagements s) (tweetStats s).
Definition set_follows (f : JsMap.t Follow.t -> JsMap.t Follow.t)
    (s : MemStorage) : MemStorage :=
  mkStorage (users s) (tweets s) (mentions s) (f (follows s))
            (engagements s) (tweetStats s).
Definition set_engagements
    (f : JsMap.t TweetEngagement.t -> JsMap.t TweetEngagement.t)
    (s : MemStorage) : MemStorage :=
  mkStorage (users s) (tweets s) (mentions s) (follows s)
            (f (engagements s)) (tweetStats s).
Definition set_tweetStats
    (f : JsMap.t TweetStats.t -> JsMap.t TweetStats.t)
    (s : MemStorage) : MemStorage :=
  mkStorage (users s) (tweets s) (mentions s) (follows s)
            (engagements s) (f (tweetStats s)).

(** ** Store-passing monad with thrown errors *)

(** [new Error(message)] *)
Inductive Error : Type := mkError (message : string).

Definition M (A : Type) : Type := MemStorage -> (Error + A) * MemStorage.

Definition ret {A} (a : A) : M A := fun s => (inr a, s).
Definition bind {A B} (m : M A) (k : A -> M B) : M B :=
  fun s =>
    match m s with
    | (inl e, s') => (inl e, s')
    | (inr a, s') => k a s'
    end.
Definition throw {A} (e : Error) : M A := fun s => (inl e, s).
Definition this : M MemStorage := fun s => (inr s, s).
Definition modify (f : MemStorage -> MemStorage) : M unit :=
  fun s => (inr tt, f s).

Notation "x <- m ;; k" := (bind m (fun x => k))
  (at level 61, m at next level, right associativity).
Notation "m ;; k" := (bind m (fun _ => k))
  (at level 61, right associativity).

(** [if (x) { body }] for a possibly-undefined object [x]. *)
Definition when_defined {A} (x : option A) (body : A -> M unit) : M unit :=
  match x with
  | Some a => body a
  | None => ret tt
  end.

(** [x || 0] for a nullable number. *)
Definition or0 (x : option Z) : Z :=
  match x with
  | Some n => n
  | None => 0
  end.

(** [for (const x of l) body(x)] and [l.forEach(body)] *)
Fixpoint forEach {A} (l : list A) (body : A -> M unit) : M unit :=
  match l with
  | [] => ret tt
  | x :: l' => body x ;; forEach l' body
  end.

(** ** Array helpers *)

(** [l.findIndex(p)]: the index of the first match, or [-1]. *)
Fixpoint findIndex_from {A} (p : A -> bool) (l : list A) (i : Z) : Z :=
  match l with
  | [] => -1
  | x :: l' => if p x then i else findIndex_from p l' (i + 1)
  end.
Definition findIndex {A} (p : A -> bool) (l : list A) : Z :=
  findIndex_from p l 0.

(** [l.filter((x, index) => p(x, index))] *)
Fixpoint filter_index_from {A} (p : A -> Z -> bool) (l : list A) (i : Z)
    : list A :=
  match l with
  | [] => []
  | x :: l' =>
      if p x i then x :: filter_index_from p l' (i + 1)
      else filter_index_from p l' (i + 1)
  end.
Definition filter_index {A} (p : A -> Z -> bool) (l : list A) : list A :=
  filter_index_from p l 0.

(** [l.sort(cmp)]: the sort is stable; [cmp a b <= 0] keeps [a] before
    [b].  Stable insertion from the right. *)
Fixpoint sort_insert {A} (cmp : A -> A -> Z) (x : A) (l : list A) : list A :=
  match l with
  | [] => [x]
  | y :: l' =>
      if cmp x y <=? 0 then x :: y :: l' else y :: sort_insert cmp x l'
  end.
Definition js_sort {A} (cmp : A -> A -> Z) (l : list A) : list A :=
  fold_right (sort_insert cmp) [] l.

(** ** The mention regex [/@(\w+)/g] *)

(** [\w] without the unicode flag: [A-Za-z0-9_]. *)
Definition is_word (c : ascii) : bool :=
  let n := nat_of_ascii c in
  ((48 <=? n) && (n <=? 57) || (65 <=? n) && (n <=? 90)
   || (97 <=? n) && (n <=? 122) || (n =? 95))%nat.

Definition is_at (c : ascii) : bool := (nat_of_ascii c =? 64)%nat.

(** The greedy [\w+] read at the start of [s] (empty when it fails). *)
Fixpoint word_prefix (s : string) : string :=
  match s with
  | EmptyString => EmptyString
  | String c r => if is_word c then String c (word_prefix r) else EmptyString
  end.

(** Successive [mentionRegex.exec(content)] until [null], collecting
    [match[1]].  [skip] is the distance from the scanning position to the
    regex's [lastIndex], the end of the previous match. *)
Fixpoint exec_all (s : string) (skip : nat) : list string :=
  match s with
  | EmptyString => []
  | String c rest =>
      match skip with
      | S k => exec_all rest k
      | O =>
          if is_at c then
            match word_prefix rest with
            | EmptyString => exec_all rest 0
            | w => w :: exec_all rest (String.length w)
            end
          else exec_all rest 0
      end
  end.

Definition extractMentionsFromContent (content : string) : list string :=
  exec_all content 0.

(** ** MemStorage: users *)

Definition getUser (s : MemStorage) (id : string) : option User.t :=
  JsMap.get id (users s).

Definition getUserByUsername (s : MemStorage) (username : string)
    : option User.t :=
  find (fun user => User.username user =s username) (JsMap.values (users s)).

Definition getUserByEmail (s : MemStorage) (email : string)
    : option User.t :=
  find (fun user => User.email user =s email) (JsMap.values (users s)).

Definition getUserByEmailOrUsername (s : MemStorage) (emailOrUsername : string)
    : option User.t :=
  find (fun user => (User.email user =s emailOrUsername)
                    || (User.username user =s emailOrUsername))
       (JsMap.values (users s)).

Definition default_avatar : string :=
  "https://images.unsplash.com/photo-1472099645785-5658abf4ff4e?ixlib=rb-4.0.3&auto=format&fit=crop&w=100&h=100".

Definition createUser (insertUser : InsertUser.t) (id : string)
    (created updated : Z) : M User.t :=
  let user :=
    User.mk id (InsertUser.username insertUser) (InsertUser.email insertUser)
      (InsertUser.password insertUser) (InsertUser.displayName insertUser)
      (Some default_avatar) None (Some false) (Some false)
      (Some 0) (Some 0) (Some 0) (Some created) (Some updated) None in
  modify (set_users (JsMap.set id user)) ;;
  ret user.

(** ** MemStorage: tweets *)

Definition createTweet (tweetData : InsertTweet.t) (authorId : string)
    (id : string) (created updated : Z) : M Tweet.t :=
  let tweet :=
    Tweet.mk id (InsertTweet.content tweetData) authorId None (Some false)
      None None None (Some created) (Some updated) None in
  modify (set_tweets (JsMap.set id tweet)) ;;
  ret tweet.

Definition getTweetById (s : MemStorage) (id : string) : option Tweet.t :=
  JsMap.get id (tweets s).

Definition updateTweet (id : string) (tweetData : InsertTweet.t)
    : M Tweet.t :=
  s <- this ;;
  match JsMap.get id (tweets s) with
  | None => throw (mkError "Tweet not found")
  | Some existingTweet =>
      let updatedTweet :=
        Tweet.with_content existingTweet (InsertTweet.content tweetData) in
      modify (set_tweets (JsMap.set id updatedTweet)) ;;
      ret updatedTweet
  end.

Definition deleteTweet (id : string) : M unit :=
  s <- this ;;
  let deleted := JsMap.has id (tweets s) in
  modify (set_tweets (JsMap.delete id)) ;;
  if negb deleted then throw (mkError "Tweet not found")
  else
    s <- this ;;
    let mentionsToDelete :=
      filter (fun mention => Mention.tweetId mention =s id)
             (JsMap.values (mentions s)) in
    forEach mentionsToDelete
      (fun mention => modify (set_mentions (JsMap.delete (Mention.id mention)))).

(** [new Date(x.createdAt || 0).getTime()] *)
Definition createdTime (x : TweetWithAuthor.t) : Z :=
  or0 (TweetWithAuthor.createdAt x).

(** [(a, b) => time(b) - time(a)] *)
Definition byCreatedAtDesc (a b : TweetWithAuthor.t) : Z :=
  createdTime b - createdTime a.

Definition getAllTweets (s : MemStorage) : list TweetWithAuthor.t :=
  let tweets := JsMap.values (tweets s) in
  let tweetsWithAuthors :=
    fold_left
      (fun acc tweet =>
         match getUser s (Tweet.authorId tweet) with
         | Some author =>
             let mentions :=
               extractMentionsFromContent (Tweet.content tweet) in
             acc ++ [TweetWithAuthor.mk tweet author mentions]
         | None => acc
         end)
      tweets [] in
  js_sort byCreatedAtDesc tweetsWithAuthors.

Definition getUserTweets (s : MemStorage) (userId : string)
    : list TweetWithAuthor.t :=
  filter (fun tweet => TweetWithAuthor.authorId tweet =s userId)
         (getAllTweets s).

(** [mentionedUser?.id === userId] for the first stored user called
    [mention]. *)
Definition mentionResolvesTo (s : MemStorage) (userId mention : string)
    : bool :=
  match find (fun u => User.username u =s mention) (JsMap.values (users s)) with
  | Some mentionedUser => User.id mentionedUser =s userId
  | None => false
  end.

Definition getUserTimeline (s : MemStorage) (userId : string)
    : list TweetWithAuthor.t :=
  let allTweets := getAllTweets s in
  let userTweets :=
    filter (fun tweet => TweetWithAuthor.authorId tweet =s userId) allTweets in
  let mentionTweets :=
    filter (fun tweet =>
              existsb (mentionResolvesTo s userId)
                      (TweetWithAuthor.mentions tweet))
           allTweets in
  let timeline := userTweets ++ mentionTweets in
  let uniqueTweets :=
    filter_index
      (fun tweet index =>
         index =? findIndex
                    (fun t => TweetWithAuthor.id t =s TweetWithAuthor.id tweet)
                    timeline)
      timeline in
  js_sort byCreatedAtDesc uniqueTweets.

(** ** MemStorage: mentions *)

Definition createMention (tweetId userId : string) (id : string) (now : Z)
    : M Mention.t :=
  let mention := Mention.mk id tweetId userId (Some now) in
  modify (set_mentions (JsMap.set id mention)) ;;
  ret mention.

Definition getTweetMentions (s : MemStorage) (tweetId : string)
    : list User.t :=
  let tweetMentions :=
    filter (fun mention => Mention.tweetId mention =s tweetId)
           (JsMap.values (mentions s)) in
  fold_left
    (fun users mention =>
       match getUser s (Mention.userId mention) with
       | Some user => users ++ [user]
       | None => users
       end)
    tweetMentions [].

(** ** MemStorage: the social graph *)

Definition isFollowing (s : MemStorage) (followerId followingId : string)
    : bool :=
  existsb (fun f => (Follow.followerId f =s followerId)
                    && (Follow.followingId f =s followingId))
          (JsMap.values (follows s)).

(** A non-empty string is truthy. *)
Definition truthy (x : string) : bool := negb (x =s EmptyString).

Definition getUserProfile (s : MemStorage) (userId : string)
    (viewerId : option string) : option UserProfile.t :=
  match getUser s userId with
  | None => None
  | Some user =>
      let profile := UserProfile.mk user None None in
      match viewerId with
      | Some viewerId =>
          if truthy viewerId && negb (viewerId =s userId) then
            Some (UserProfile.mk user
                    (Some (isFollowing s viewerId userId))
                    (Some (isFollowing s userId viewerId)))
          else Some profile
      | None => Some profile
      end
  end.

Definition followUser (followerId followingId : string) (id : string)
    (now : Z) : M Follow.t :=
  if followerId =s followingId then
    throw (mkError "Cannot follow yourself")
  else
    s <- this ;;
    let existingFollow :=
      find (fun f => (Follow.followerId f =s followerId)
                     && (Follow.followingId f =s followingId))
           (JsMap.values (follows s)) in
    match existingFollow with
    | Some _ => throw (mkError "Already following this user")
    | None =>
        let follow := Follow.mk id followerId followingId (Some now) in
        modify (set_follows (JsMap.set id follow)) ;;
        s <- this ;;
        let follower := JsMap.get followerId (users s) in
        let following := JsMap.get followingId (users s) in
        when_defined follower (fun follower =>
          modify (set_users (JsMap.set followerId
            (User.with_followingCount follower
               (or0 (User.followingCount follower) + 1))))) ;;
        when_defined following (fun following =>
          modify (set_users (JsMap.set followingId
            (User.with_followerCount following
               (or0 (User.followerCount following) + 1))))) ;;
        ret follow
    end.

Definition unfollowUser (followerId followingId : string) : M unit :=
  s <- this ;;
  let follow :=
    find (fun f => (Follow.followerId f =s followerId)
                   && (Follow.followingId f =s followingId))
         (JsMap.values (follows s)) in
  match follow with
  | None => throw (mkError "Not following this user")
  | Some follow =>
      modify (set_follows (JsMap.delete (Follow.id follow))) ;;
      s <- this ;;
      let follower := JsMap.get followerId (users s) in
      let following := JsMap.get followingId (users s) in
      when_defined follower (fun follower =>
        modify (set_users (JsMap.set followerId
          (User.with_followingCount follower
             (Z.max 0 (or0 (User.followingCount follower) - 1)))))) ;;
      when_defined following (fun following =>
        modify (set_users (JsMap.set followingId
          (User.with_followerCount following
             (Z.max 0 (or0 (User.followerCount following) - 1))))))
  end.

Definition getUserFollowers (s : MemStorage) (userId : string)
    : list UserProfile.t :=
  let userFollows :=
    filter (fun f => Follow.followingId f =s userId)
           (JsMap.values (follows s)) in
  fold_left
    (fun followers follow =>
       match getUserProfile s (Follow.followerId follow) None with
       | Some follower => followers ++ [follower]
       | None => followers
       end)
    userFollows [].

Definition getUserFollowing (s : MemStorage) (userId : string)
    : list UserProfile.t :=
  let userFollows :=
    filter (fun f => Follow.followerId f =s userId)
           (JsMap.values (follows s)) in
  fold_left
    (fun following follow =>
       match getUserProfile s (Follow.followingId follow) None with
       | Some user => following ++ [user]
       | None => following
       end)
    userFollows [].

(** ** MemStorage: engagements *)

Definition sameEngagement (userId tweetId : string) (type : EngagementType)
    (e : TweetEngagement.t) : bool :=
  (TweetEngagement.userId e =s userId)
  && (TweetEngagement.tweetId e =s tweetId)
  && EngagementType_eqb (TweetEngagement.type e) type.

(** The stats object is updated in place and then stored again under the
    same key; only the store holds it, so this is a functional update of
    the row.  [created] is the clock reading kept in a lazily created row
    until [now] overwrites it. *)
Definition updateTweetStatsForEngagement (tweetId : string)
    (type : EngagementType) (delta : Z) (created now : Z) : M unit :=
  s <- this ;;
  let stats :=
    match JsMap.get tweetId (tweetStats s) with
    | Some stats => stats
    | None =>
        TweetStats.mk tweetId (Some 0) (Some 0) (Some 0) (Some 0) (Some 0)
                      (Some created)
    end in
  let stats :=
    match type with
    | like =>
        TweetStats.with_likeCount stats
          (Z.max 0 (or0 (TweetStats.likeCount stats) + delta))
    | retweet =>
        TweetStats.with_retweetCount stats
          (Z.max 0 (or0 (TweetStats.retweetCount stats) + delta))
    | bookmark =>
        TweetStats.with_bookmarkCount stats
          (Z.max 0 (or0 (TweetStats.bookmarkCount stats) + delta))
    end in
  let stats := TweetStats.with_updatedAt stats now in
  modify (set_tweetStats (JsMap.set tweetId stats)).

Definition engageWithTweet (userId tweetId : string) (type : EngagementType)
    (id : string) (now statsCreated statsNow : Z) : M TweetEngagement.t :=
  s <- this ;;
  let existingEngagement :=
    find (sameEngagement userId tweetId type)
         (JsMap.values (engagements s)) in
  match existingEngagement with
  | Some _ =>
      throw (mkError ("Already " ++ EngagementType_name type
                      ++ "d this tweet"))
  | None =>
      let engagement :=
        TweetEngagement.mk id tweetId userId type (Some now) in
      modify (set_engagements (JsMap.set id engagement)) ;;
      updateTweetStatsForEngagement tweetId type 1 statsCreated statsNow ;;
      ret engagement
  end.

Definition removeEngagement (userId tweetId : string) (type : EngagementType)
    (statsCreated statsNow : Z) : M unit :=
  s <- this ;;
  let engagement :=
    find (sameEngagement userId tweetId type)
         (JsMap.values (engagements s)) in
  match engagement with
  | None =>
      throw (mkError ("No " ++ EngagementType_name type
                      ++ " found for this tweet"))
  | Some engagement =>
      modify (set_engagements (JsMap.delete (TweetEngagement.id engagement))) ;;
      updateTweetStatsForEngagement tweetId type (-1) statsCreated statsNow
  end.

Definition getTweetStats (s : MemStorage) (tweetId : string)
    : option TweetStats.t :=
  JsMap.get tweetId (tweetStats s).

Definition getUserEngagement (s : MemStorage) (userId tweetId : string)
    : list TweetEngagement.t :=
  filter (fun e => (TweetEngagement.userId e =s userId)
                   && (TweetEngagement.tweetId e =s tweetId))
         (JsMap.values (engagements s)).

(** ** [POST /api/tweets] of [server/routes.ts] *)

Inductive Response : Type :=
| Created (tweet : Tweet.t) (author : option User.t) (mentions : list string)
| BadRequest (message : string).

(** [insertTweetSchema.parse(req.body)] on a body whose [content] is the
    given string: 1 to 280 characters, or it throws. *)
Definition insertTweetSchema_parse (content : string) : M InsertTweet.t :=
  if (String.length content <? 1)%nat then
    throw (mkError "Tweet content is required")
  else if (280 <? String.length content)%nat then
    throw (mkError "Tweet must be 280 characters or less")
  else ret (InsertTweet.mk content).

(** The [while ((match = mentionRegex.exec(content)) !== null)] loop over
    the captured tokens; the mention created for the [k]-th token, if any,
    draws the identifier [uuid k] at clock reading [date k]. *)
Fixpoint createMentions (tweetId : string) (tokens : list string) (k : nat)
    (uuid : nat -> string) (date : nat -> Z) : M unit :=
  match tokens with
  | [] => ret tt
  | token :: rest =>
      s <- this ;;
      when_defined (getUserByUsername s token) (fun mentionedUser =>
        createMention tweetId (User.id mentionedUser) (uuid k) (date k) ;;
        ret tt) ;;
      createMentions tweetId rest (S k) uuid date
  end.

Definition postTweets_try (content : string) (reqUserId : string)
    (id : string) (created updated : Z) (uuid : nat -> string)
    (date : nat -> Z) : M Response :=
  tweetData <- insertTweetSchema_parse content ;;
  tweet <- createTweet tweetData reqUserId id created updated ;;
  createMentions (Tweet.id tweet)
    (exec_all (InsertTweet.content tweetData) 0) 0 uuid date ;;
  s <- this ;;
  let author := getUser s (Tweet.authorId tweet) in
  ret (Created tweet author
         (extractMentionsFromContent (InsertTweet.content tweetData))).

(** The handler with its [catch]: a thrown error becomes a 400 response. *)
Definition postTweets (content : string) (reqUserId : string)
    (id : string) (created updated : Z) (uuid : nat -> string)
    (date : nat -> Z) (s : MemStorage) : Response * MemStorage :=
  match postTweets_try content reqUserId id created updated uuid date s with
  | (inr response, s') => (response, s')
  | (inl (mkError message), s') =>
      (BadRequest (if truthy message then message
                   else "Failed to create tweet"), s')
  end.

(** ** Method calls and the stores they reach *)

Inductive Op : Type :=
| OpReset
| OpCreateUser (insertUser : InsertUser.t) (id : string) (created updated : Z)
| OpCreateTweet (tweetData : InsertTweet.t) (authorId : string) (id : string)
    (created updated : Z)
| OpUpdateTweet (id : string) (tweetData : InsertTweet.t)
| OpDeleteTweet (id : string)
| OpCreateMention (tweetId userId : string) (id : string) (now : Z)
| OpFollowUser (followerId followingId : string) (id : string) (now : Z)
| OpUnfollowUser (followerId followingId : string)
| OpEngageWithTweet (userId tweetId : string) (type : EngagementType)
    (id : string) (now statsCreated statsNow : Z)
| OpRemoveEngagement (userId tweetId : string) (type : EngagementType)
    (statsCreated statsNow : Z).

(** The store a call leaves behind, whether it returned or threw. *)
Definition exec (op : Op) (s : MemStorage) : MemStorage :=
  match op with
  | OpReset => newMemStorage
  | OpCreateUser u id c d => snd (createUser u id c d s)
  | OpCreateTweet t a id c d => snd (createTweet t a id c d s)
  | OpUpdateTweet id t => snd (updateTweet id t s)
  | OpDeleteTweet id => snd (deleteTweet id s)
  | OpCreateMention t u id n => snd (createMention t u id n s)
  | OpFollowUser a b id n => snd (followUser a b id n s)
  | OpUnfollowUser a b => snd (unfollowUser a b s)
  | OpEngageWithTweet u t ty id n c d =>
      snd (engageWithTweet u t ty id n c d s)
  | OpRemoveEngagement u t ty c d => snd (removeEngagement u t ty c d s)
  end.

Definition execs (ops : list Op) (s : MemStorage) : MemStorage :=
  fold_left (fun s op => exec op s) ops s.

(** [randomUUID()] never returns a key already in the map it is used for. *)
Definition fresh (op : Op) (s : MemStorage) : bool :=
  match op with
  | OpCreateUser _ id _ _ => negb (JsMap.has id (users s))
  | OpCreateTweet _ _ id _ _ => negb (JsMap.has id (tweets s))
  | OpCreateMention _ _ id _ => negb (JsMap.has id (mentions s))
  | OpFollowUser _ _ id _ => negb (JsMap.has id (follows s))
  | OpEngageWithTweet _ _ _ id _ _ _ => negb (JsMap.has id (engagements s))
  | _ => true
  end.

Inductive reachable : MemStorage -> Prop :=
| reachable_new : reachable newMemStorage
| reachable_step (s : MemStorage) (op : Op) :
    reachable s -> fresh op s = true -> reachable (exec op s).

(** ** Store invariants *)

(** Every binding is stored under its own identifier, once. *)
Definition keyed {V} (idOf : V -> string) (m : JsMap.t V) : Prop :=
  NoDup (JsMap.keys m) /\ Forall (fun kv => idOf (snd kv) = fst kv) m.

Definition counter_ok (c : option Z) : Prop := exists n, c = Some n /\ 0 <= n.

Definition user_counters_ok (u : User.t) : Prop :=
  counter_ok (User.followerCount u) /\ counter_ok (User.followingCount u).

Definition stats_counters_ok (st : TweetStats.t) : Prop :=
  counter_ok (TweetStats.retweetCount st)
  /\ counter_ok (TweetStats.likeCount st)
  /\ counter_ok (TweetStats.bookmarkCount st).

Definition sameEdge (f g : Follow.t) : Prop :=
  Follow.followerId f = Follow.followerId g
  /\ Follow.followingId f = Follow.followingId g.

Record wf (s : MemStorage) : Prop := mk_wf {
  wf_users : keyed User.id (users s);
  wf_tweets : keyed Tweet.id (tweets s);
  wf_mentions : keyed Mention.id (mentions s);
  wf_follows : keyed Follow.id (follows s);
  wf_user_counters : Forall user_counters_ok (JsMap.values (users s));
  wf_stats_counters : Forall stats_counters_ok (JsMap.values (tweetStats s));
  wf_no_self_follow :
    Forall (fun f => Follow.followerId f <> Follow.followingId f)
           (JsMap.values (follows s));
  wf_one_edge :
    forall f g, In f (JsMap.values (follows s)) ->
                In g (JsMap.values (follows s)) -> sameEdge f g -> f = g
}.

(** Usernames are unique among the stored users (the register route checks
    this before [createUser]; the store does not). *)
Definition unique_usernames (s : MemStorage) : Prop :=
  forall u v, In u (JsMap.values (users s)) -> In v (JsMap.values (users s)) ->
              User.username u = User.username v -> u = v.

(** ** Auxiliary definitions used in the statements *)

(** The cascade of [deleteTweet] on the mention map. *)
Definition deleteAll (l : list Mention.t) (m : JsMap.t Mention.t)
    : JsMap.t Mention.t :=
  fold_left (fun m x => JsMap.delete (Mention.id x) m) l m.

(** The user map after the counter updates of [followUser a b] and of
    [unfollowUser a b]: both users are read before either is written. *)
Definition usersAfterFollow (a b : string) (us : JsMap.t User.t)
    : JsMap.t User.t :=
  let us1 :=
    match JsMap.get a us with
    | Some u =>
        JsMap.set a
          (User.with_followingCount u (or0 (User.followingCount u) + 1)) us
    | None => us
    end in
  match JsMap.get b us with
  | Some u =>
      JsMap.set b
        (User.with_followerCount u (or0 (User.followerCount u) + 1)) us1
  | None => us1
  end.

Definition usersAfterUnfollow (a b : string) (us : JsMap.t User.t)
    : JsMap.t User.t :=
  let us1 :=
    match JsMap.get a us with
    | Some u =>
        JsMap.set a
          (User.with_followingCount u
             (Z.max 0 (or0 (User.followingCount u) - 1))) us
    | None => us
    end in
  match JsMap.get b us with
  | Some u =>
      JsMap.set b
        (User.with_followerCount u
           (Z.max 0 (or0 (User.followerCount u) - 1))) us1
  | None => us1
  end.

(** The edge test of [followUser], [unfollowUser] and [isFollowing]. *)
Definition isEdge (a b : string) (f : Follow.t) : bool :=
  (Follow.followerId f =s a) && (Follow.followingId f =s b).

(** The stats row after [updateTweetStatsForEngagement]. *)
Definition bumpStats (type : EngagementType) (delta now : Z)
    (stats : TweetStats.t) : TweetStats.t :=
  TweetStats.with_updatedAt
    match type with
    | like =>
        TweetStats.with_likeCount stats
          (Z.max 0 (or0 (TweetStats.likeCount stats) + delta))
    | retweet =>
        TweetStats.with_retweetCount stats
          (Z.max 0 (or0 (TweetStats.retweetCount stats) + delta))
    | bookmark =>
        TweetStats.with_bookmarkCount stats
          (Z.max 0 (or0 (TweetStats.bookmarkCount stats) + delta))
    end now.

Definition zeroStats (tweetId : string) (created : Z) : TweetStats.t :=
  TweetStats.mk tweetId (Some 0) (Some 0) (Some 0) (Some 0) (Some 0)
                (Some created).

Definition statsAfter (tweetId : string) (type : EngagementType)
    (delta created now : Z) (m : JsMap.t TweetStats.t) : JsMap.t TweetStats.t :=
  JsMap.set tweetId
    (bumpStats type delta now
       match JsMap.get tweetId m with
       | Some stats => stats
       | None => zeroStats tweetId created
       end) m.

(** The counter of a stats row that belongs to an engagement type. *)
Definition counterOf (type : EngagementType) (stats : TweetStats.t)
    : option Z :=
  match type with
  | like => TweetStats.likeCount stats
  | retweet => TweetStats.retweetCount stats
  | bookmark => TweetStats.bookmarkCount stats
  end.

(** A follow edge from [a] to [b] is stored. *)
Definition hasEdge (s : MemStorage) (a b : string) : Prop :=
  exists f, In f (JsMap.values (follows s))
            /\ Follow.followerId f = a /\ Follow.followingId f = b.

(** The messages of the errors the store throws. *)
Definition SelfFollowError : Error := mkError "Cannot follow yourself".
Definition DuplicateFollowError : Error := mkError "Already following this user".
Definition NotFollowingError : Error := mkError "Not following this user".
Definition TweetNotFoundError : Error := mkError "Tweet not found".
Definition DuplicateEngagementError (type : EngagementType) : Error :=
  mkError ("Already " ++ EngagementType_name type ++ "d this tweet").

(** A record for the triple (user, tweet, type) is stored. *)
Definition hasEngagement (s : MemStorage) (u t : string)
    (ty : EngagementType) : Prop :=
  exists e, In e (JsMap.values (engagements s))
            /\ TweetEngagement.userId e = u
            /\ TweetEngagement.tweetId e = t
            /\ TweetEngagement.type e = ty.

(** [name] is the username of a stored user. *)
Definition registeredUsername (s : MemStorage) (name : string) : Prop :=
  exists u, In u (JsMap.values (users s)) /\ User.username u = name.

(** Keep the first element of each identifier: what the
    [filter]/[findIndex] idiom of [getUserTimeline] computes.  [seen] holds
    the identifiers of the elements already passed. *)
Fixpoint dedupBy {A} (idOf : A -> string) (seen : list string) (l : list A)
    : list A :=
  match l with
  | [] => []
  | x :: l' =>
      if existsb (String.eqb (idOf x)) seen
      then dedupBy idOf (seen ++ [idOf x]) l'
      else x :: dedupBy idOf (seen ++ [idOf x]) l'
  end.

(** The joined tweets before [getAllTweets] sorts them. *)
Definition joinAuthors (s : MemStorage) (l : list Tweet.t)
    : list TweetWithAuthor.t :=
  flat_map
    (fun tweet =>
       match getUser s (Tweet.authorId tweet) with
       | Some author =>
           [TweetWithAuthor.mk tweet author
              (extractMentionsFromContent (Tweet.content tweet))]
       | None => []
       end) l.

(** Descending creation time. *)
Definition newerFirst (a b : TweetWithAuthor.t) : Prop :=
  createdTime b <= createdTime a.

(** Every call of a sequence draws a fresh identifier. *)
Fixpoint all_fresh (ops : list Op) (s : MemStorage) : bool :=
  match ops with
  | [] => true
  | op :: ops' => fresh op s && all_fresh ops' (exec op s)
  end.

(** ** Example stores *)

(** alice and bob are registered; alice has posted "Hello @bob", for which
    a mention row was created, and bob follows alice and likes the tweet. *)
Definition demoOps : list Op :=
  [ OpCreateUser (InsertUser.mk "alice" "alice@example.com" "hashA" "Alice")
      "u1" 1000 1000;
    OpCreateUser (InsertUser.mk "bob" "bob@example.com" "hashB" "Bob")
      "u2" 2000 2000;
    OpCreateTweet (InsertTweet.mk "Hello @bob") "u1" "t1" 3000 3000;
    OpCreateMention "t1" "u2" "m1" 3001;
    OpFollowUser "u2" "u1" "f1" 4000;
    OpEngageWithTweet "u2" "t1" like "e1" 5000 5000 5001 ].

Definition demo : MemStorage := execs demoOps newMemStorage.

(** Two users share the username bob (the store accepts the second
    [createUser]); carol posts "Hello @bob". *)
Definition twoBobsOps : list Op :=
  [ OpCreateUser (InsertUser.mk "bob" "bob@example.com" "hash1" "Bob")
      "u1" 1000 1000;
    OpCreateUser (InsertUser.mk "bob" "bobby@example.com" "hash2" "Bobby")
      "u2" 2000 2000;
    OpCreateUser (InsertUser.mk "carol" "carol@example.com" "hash3" "Carol")
      "u3" 3000 3000;
    OpCreateTweet (InsertTweet.mk "Hello @bob") "u3" "t1" 4000 4000 ].

Definition twoBobs : MemStorage := execs twoBobsOps newMemStorage.

(** One registered user, stored with the credential hash [hash]. *)
Definition onlyAlice (hash : string) : MemStorage :=
  execs
    [ OpCreateUser (InsertUser.mk "alice" "alice@example.com" hash "Alice")
        "u1" 1000 1000 ]
    newMemStorage.

(** alice stored with the credential hash [hash], and her follower bob. *)
Definition aliceAndFollower (hash : string) : MemStorage :=
  execs
    [ OpCreateUser (InsertUser.mk "alice" "alice@example.com" hash "Alice")
        "u1" 1000 1000;
      OpCreateUser (InsertUser.mk "bob" "bob@example.com" "hashB" "Bob")
        "u2" 2000 2000;
      OpFollowUser "u1" "u2" "f1" 3000 ]
    newMemStorage.

(** An edge from u1 to u2 created before u1 registers: u1 is then stored
    with [followingCount] 0 although the edge exists. *)
Definition edgeBeforeUser : MemStorage :=
  execs
    [ OpFollowUser "u1" "u2" "f1" 1000;
      OpCreateUser (InsertUser.mk "alice" "alice@example.com" "hashA" "Alice")
        "u1" 2000 2000 ]
    newMemStorage.

(** The store of the repository test "should get user timeline including
    mentions". *)
Definition timelineTest : MemStorage :=
  execs
    [ OpCreateUser
        (InsertUser.mk "testuser" "test@example.com" "hashedpassword"
                       "Test User") "u1" 1000 1000;
      OpCreateUser
        (InsertUser.mk "otheruser" "other@example.com" "password"
                       "Other User") "u2" 2000 2000;
      OpCreateTweet (InsertTweet.mk "My own tweet") "u1" "t1" 3000 3000;
      OpCreateTweet (InsertTweet.mk "Hello @testuser!") "u2" "t2" 4000 4000;
      OpCreateTweet (InsertTweet.mk "Random tweet") "u2" "t3" 5000 5000 ]
    newMemStorage.

(** ** Further methods of [MemStorage] *)


(** ** The other routes of [server/routes.ts] *)

(** The user object that the auth routes put in their response. *)
Module AuthUser.
Record t : Type := mk {
  id : string;
  username : string;
  email : string;
  displayName : string;
  avatar : option string
}.
Definition ofUser (user : User.t) : t :=
  mk (User.id user) (User.username user) (User.email user)
     (User.displayName user) (User.avatar user).
End AuthUser.

Inductive AuthResponse : Type :=
| AuthOk (status : Z) (token : string) (user : AuthUser.t)
| AuthFail (status : Z) (message : string).

(** [error.message || fallback] *)
Definition messageOr (e : Error) (fallback : string) : string :=
  match e with
  | mkError message => if truthy message then message else fallback
  end.

(** [POST /api/auth/register].  [parsed] is the outcome of
    [insertUserSchema.parse(req.body)]; [hashPassword] and [generateToken]
    stand for the bcrypt and JWT calls of the auth middleware as they
    answer during this request. *)
Definition register (parsed : Error + InsertUser.t)
    (hashPassword generateToken : string -> string) (id : string)
    (created updated : Z) (s : MemStorage) : AuthResponse * MemStorage :=
  match parsed with
  | inl e => (AuthFail 400 (messageOr e "Registration failed"), s)
  | inr userData =>
      match getUserByEmail s (InsertUser.email userData) with
      | Some _ => (AuthFail 400 "Email already registered", s)
      | None =>
          match getUserByUsername s (InsertUser.username userData) with
          | Some _ => (AuthFail 400 "Username already taken", s)
          | None =>
              let hashedPassword :=
                hashPassword (InsertUser.password userData) in
              match
                createUser
                  (InsertUser.mk (InsertUser.username userData)
                     (InsertUser.email userData) hashedPassword
                     (InsertUser.displayName userData))
                  id created updated s
              with
              | (inr user, s') =>
                  (AuthOk 201 (generateToken (User.id user))
                          (AuthUser.ofUser user), s')
              | (inl e, s') =>
                  (AuthFail 400 (messageOr e "Registration failed"), s')
              end
          end
      end
  end.



Inductive TweetResponse : Type :=
| TweetOk (tweet : Tweet.t) (author : option User.t) (mentions : list string)
| TweetDeleted (message : string)
| TweetFail (status : Z) (message : string).



(** [DELETE /api/tweets/:tweetId]; its [catch] answers 500 with a fixed
    message. *)
Definition deleteTweetRoute (tweetId reqUserId : string) (s : MemStorage)
    : TweetResponse * MemStorage :=
  match getTweetById s tweetId with
  | None => (TweetFail 404 "Tweet not found", s)
  | Some existingTweet =>
      if negb (Tweet.authorId existingTweet =s reqUserId) then
        (TweetFail 403 "You can only delete your own tweets", s)
      else
        match deleteTweet tweetId s with
        | (inr _, s') => (TweetDeleted "Tweet deleted successfully", s')
        | (inl _, s') => (TweetFail 500 "Failed to delete tweet", s')
        end
  end.

(** ** Definitions used in the further statements *)



(** Number of follow edges that end in, and that start from, a user. *)
Definition edgesInto (s : MemStorage) (userId : string) : Z :=
  Z.of_nat (List.length (filter (fun f => Follow.followingId f =s userId)
                                (JsMap.values (follows s)))).
Definition edgesFrom (s : MemStorage) (userId : string) : Z :=
  Z.of_nat (List.length (filter (fun f => Follow.followerId f =s userId)
                                (JsMap.values (follows s)))).

(** Number of engagement records of one type on a tweet. *)
Definition recordsOn (s : MemStorage) (tweetId : string)
    (type : EngagementType) : Z :=
  Z.of_nat
    (List.length
       (filter (fun e => (TweetEngagement.tweetId e =s tweetId)
                         && EngagementType_eqb (TweetEngagement.type e) type)
               (JsMap.values (engagements s)))).

(** The error of [removeEngagement]. *)
Definition NoEngagementError (type : EngagementType) : Error :=
  mkError ("No " ++ EngagementType_name type ++ " found for this tweet").

(** Emails are unique among the stored users. *)
Definition unique_emails (s : MemStorage) : Prop :=
  forall u v, In u (JsMap.values (users s)) -> In v (JsMap.values (users s)) ->
              User.email u = User.email v -> u = v.

(** Two user records that differ at most in the two follow counters. *)
Definition sameButCounters (u v : User.t) : Prop :=
  User.id v = User.id u /\ User.username v = User.username u
  /\ User.email v = User.email u /\ User.password v = User.password u
  /\ User.displayName v = User.displayName u /\ User.avatar v = User.avatar u
  /\ User.bio v = User.bio u /\ User.isVerified v = User.isVerified u
  /\ User.isPrivate v = User.isPrivate u
  /\ User.tweetCount v = User.tweetCount u
  /\ User.createdAt v = User.createdAt u
  /\ User.updatedAt v = User.updatedAt u
  /\ User.deletedAt v = User.deletedAt u.

(** The record that [createUser] stores. *)
Definition newUser (insertUser : InsertUser.t) (id : string)
    (created updated : Z) : User.t :=
  User.mk id (InsertUser.username insertUser) (InsertUser.email insertUser)
    (InsertUser.password insertUser) (InsertUser.displayName insertUser)
    (Some default_avatar) None (Some false) (Some false)
    (Some 0) (Some 0) (Some 0) (Some created) (Some updated) None.


(** The triple that identifies an engagement. *)
Definition tripleOf (e : TweetEngagement.t)
    : string * string * EngagementType :=
  (TweetEngagement.userId e, TweetEngagement.tweetId e,
   TweetEngagement.type e).

(** Engagement records and stats rows agree. *)
Record eng_inv (s : MemStorage) : Prop := mk_eng_inv {
  ei_keyed : keyed TweetEngagement.id (engagements s);
  ei_unique : NoDup (map tripleOf (JsMap.values (engagements s)));
  ei_stats :
    forall t ty,
      match getTweetStats s t with
      | Some st => counterOf ty st = Some (recordsOn s t ty)
      | None => recordsOn s t ty = 0
      end
}.

(** Every character of the string is a word character. *)
Fixpoint all_word (s : string) : bool :=
  match s with
  | EmptyString => true
  | String c r => is_word c && all_word r
  end.

(** * Properties *)

(** ** Lemmas on [JsMap] *)

Ltac case_eqb a b :=
  let E := fresh "E" in
  destruct (String.eqb_spec a b) as [E | E]; [try subst | idtac].

Section JsMapFacts.
Context {V : Type}.
Implicit Types (m : JsMap.t V) (k : string) (v : V).

Lemma get_set_same k v m : JsMap.get k (JsMap.set k v m) = Some v.
Proof.
  induction m as [| [k' v'] m IH]; simpl.
  - now rewrite String.eqb_refl.
  - case_eqb k' k; simpl.
    + now rewrite String.eqb_refl.
    + destruct (String.eqb_spec k' k); [contradiction | exact IH].
Qed.

Lemma get_set_other k k' v m :
  k <> k' -> JsMap.get k' (JsMap.set k v m) = JsMap.get k' m.
Proof.
  intros Hne. induction m as [| [k0 v0] m IH]; simpl.
  - destruct (String.eqb_spec k k'); [contradiction | reflexivity].
  - case_eqb k0 k; simpl.
    + destruct (String.eqb_spec k k'); [contradiction | reflexivity].
    + now rewrite IH.
Qed.

Lemma get_delete_same k m : JsMap.get k (JsMap.delete k m) = None.
Proof.
  induction m as [| [k0 v0] m IH]; simpl; [reflexivity |].
  case_eqb k0 k; simpl; [exact IH |].
  destruct (String.eqb_spec k0 k); [contradiction | exact IH].
Qed.

Lemma get_delete_other k k' m :
  k <> k' -> JsMap.get k' (JsMap.delete k m) = JsMap.get k' m.
Proof.
  intros Hne. induction m as [| [k0 v0] m IH]; simpl; [reflexivity |].
  case_eqb k0 k; simpl.
  - destruct (String.eqb_spec k k'); [contradiction | exact IH].
  - now rewrite IH.
Qed.

Lemma get_none_not_key k m :
  JsMap.get k m = None <-> ~ In k (JsMap.keys m).
Proof.
  induction m as [| [k0 v0] m IH]; simpl.
  - tauto.
  - case_eqb k0 k.
    + split; [discriminate | intros H; exfalso; apply H; now left].
    + rewrite IH. tauto.
Qed.

Lemma delete_absent k m : JsMap.get k m = None -> JsMap.delete k m = m.
Proof.
  induction m as [| [k0 v0] m IH]; simpl; [reflexivity |].
  case_eqb k0 k; [discriminate |].
  intros H. simpl. now rewrite IH.
Qed.

Lemma set_fresh k v m :
  JsMap.get k m = None -> JsMap.set k v m = m ++ [(k, v)].
Proof.
  induction m as [| [k0 v0] m IH]; simpl; [reflexivity |].
  case_eqb k0 k; [discriminate |].
  intros H. now rewrite IH.
Qed.

Lemma delete_app k m1 m2 :
  JsMap.delete k (m1 ++ m2) = JsMap.delete k m1 ++ JsMap.delete k m2.
Proof. unfold JsMap.delete. apply filter_app. Qed.

Lemma delete_set_fresh k v m :
  JsMap.get k m = None -> JsMap.delete k (JsMap.set k v m) = m.
Proof.
  intros H. rewrite (set_fresh _ _ _ H), delete_app, (delete_absent _ _ H).
  simpl. rewrite String.eqb_refl. simpl. apply app_nil_r.
Qed.

Lemma set_unchanged k v m : JsMap.get k m = Some v -> JsMap.set k v m = m.
Proof.
  induction m as [| [k0 v0] m IH]; simpl; [discriminate |].
  case_eqb k0 k.
  - now intros [= ->].
  - intros H. now rewrite IH.
Qed.

Lemma set_set_same k v v' m :
  JsMap.set k v (JsMap.set k v' m) = JsMap.set k v m.
Proof.
  induction m as [| [k0 v0] m IH]; simpl.
  - now rewrite String.eqb_refl.
  - case_eqb k0 k; simpl.
    + now rewrite String.eqb_refl.
    + destruct (String.eqb_spec k0 k); [contradiction |]. now rewrite IH.
Qed.

Lemma set_set_swap a b x y m :
  a <> b -> JsMap.get a m <> None ->
  JsMap.set a x (JsMap.set b y m) = JsMap.set b y (JsMap.set a x m).
Proof.
  intros Hne. induction m as [| [k0 v0] m IH]; simpl; [congruence |].
  intros Hget.
  case_eqb k0 b; simpl.
  - destruct (String.eqb_spec b a); [congruence |]. simpl.
    rewrite String.eqb_refl.
    destruct (String.eqb_spec b a); [congruence |]. reflexivity.
  - case_eqb k0 a; simpl.
    + destruct (String.eqb_spec a b); [congruence | reflexivity].
    + destruct (String.eqb_spec k0 b); [congruence |].
      now rewrite IH.
Qed.

Lemma get_In k v m : JsMap.get k m = Some v -> In (k, v) m.
Proof.
  induction m as [| [k0 v0] m IH]; simpl; [discriminate |].
  case_eqb k0 k.
  - intros [= ->]. now left.
  - intros H. right. now apply IH.
Qed.

Lemma get_In_values k v m : JsMap.get k m = Some v -> In v (JsMap.values m).
Proof.
  intros H. apply get_In in H. unfold JsMap.values.
  change v with (snd (k, v)). now apply in_map.
Qed.

Lemma In_get k v m :
  NoDup (JsMap.keys m) -> In (k, v) m -> JsMap.get k m = Some v.
Proof.
  induction m as [| [k0 v0] m IH]; simpl; [tauto |].
  intros Hnd [Heq | Hin].
  - injection Heq as -> ->. now rewrite String.eqb_refl.
  - inversion Hnd as [| ? ? Hnot Hnd']; subst.
    case_eqb k0 k.
    + exfalso. apply Hnot. unfold JsMap.keys.
      change k with (fst (k, v)). now apply in_map.
    + now apply IH.
Qed.

Lemma in_set kv k v m :
  In kv (JsMap.set k v m) -> kv = (k, v) \/ In kv m.
Proof.
  induction m as [| [k0 v0] m IH]; simpl.
  - intros [H | []]. now left.
  - case_eqb k0 k; simpl.
    + intros [H | H]; [now left | right; now right].
    + intros [H | H]; [right; now left |].
      destruct (IH H); [now left | right; now right].
Qed.

Lemma in_delete kv k m :
  In kv (JsMap.delete k m) <-> In kv m /\ fst kv <> k.
Proof.
  unfold JsMap.delete. rewrite filter_In.
  destruct (String.eqb_spec (fst kv) k); simpl; intuition congruence.
Qed.

Lemma in_values_set x k v m :
  In x (JsMap.values (JsMap.set k v m)) -> x = v \/ In x (JsMap.values m).
Proof.
  unfold JsMap.values. rewrite !in_map_iff.
  intros [kv [<- Hin]]. apply in_set in Hin as [-> | Hin]; [now left |].
  right. now exists kv.
Qed.

Lemma in_values_delete x k m :
  In x (JsMap.values (JsMap.delete k m)) -> In x (JsMap.values m).
Proof.
  unfold JsMap.values. rewrite !in_map_iff.
  intros [kv [<- Hin]]. apply in_delete in Hin as [Hin _]. now exists kv.
Qed.

Lemma keys_set k v m :
  JsMap.keys (JsMap.set k v m)
  = if JsMap.has k m then JsMap.keys m else JsMap.keys m ++ [k].
Proof.
  unfold JsMap.has.
  induction m as [| [k0 v0] m IH]; simpl; [reflexivity |].
  case_eqb k0 k; simpl; [reflexivity |].
  rewrite IH. now destruct (JsMap.get k m).
Qed.

Lemma NoDup_keys_set k v m :
  NoDup (JsMap.keys m) -> NoDup (JsMap.keys (JsMap.set k v m)).
Proof.
  intros H. rewrite keys_set. unfold JsMap.has.
  destruct (JsMap.get k m) eqn:E; [exact H |].
  apply get_none_not_key in E.
  apply NoDup_app; [exact H | repeat constructor; intros [] | ].
  intros x Hx [<- | []]. contradiction.
Qed.

Lemma NoDup_keys_delete k m :
  NoDup (JsMap.keys m) -> NoDup (JsMap.keys (JsMap.delete k m)).
Proof.
  induction m as [| [k0 v0] m IH]; simpl; [trivial |].
  intros H. inversion H as [| ? ? Hnot Hnd]; subst.
  destruct (negb (k0 =s k)); simpl; [| now apply IH].
  constructor; [| now apply IH].
  intros Hin. apply Hnot. unfold JsMap.keys in *.
  apply in_map_iff in Hin as [kv [<- Hin]].
  apply in_delete in Hin as [Hin _]. now apply in_map.
Qed.

Lemma keyed_set (idOf : V -> string) k v m :
  keyed idOf m -> idOf v = k -> keyed idOf (JsMap.set k v m).
Proof.
  intros [Hnd Hall] Hid. split; [now apply NoDup_keys_set |].
  rewrite Forall_forall in *. intros kv Hin.
  apply in_set in Hin as [-> | Hin]; [exact Hid | now apply Hall].
Qed.

Lemma keyed_delete (idOf : V -> string) k m :
  keyed idOf m -> keyed idOf (JsMap.delete k m).
Proof.
  intros [Hnd Hall]. split; [now apply NoDup_keys_delete |].
  rewrite Forall_forall in *. intros kv Hin.
  apply in_delete in Hin as [Hin _]. now apply Hall.
Qed.

Lemma keyed_empty (idOf : V -> string) : keyed idOf JsMap.empty.
Proof. split; constructor. Qed.

Lemma keyed_get (idOf : V -> string) x m :
  keyed idOf m -> In x (JsMap.values m) -> JsMap.get (idOf x) m = Some x.
Proof.
  intros [Hnd Hall] Hin. unfold JsMap.values in Hin.
  apply in_map_iff in Hin as [[k v] [Hv Hin]]. simpl in Hv. subst v.
  rewrite Forall_forall in Hall. specialize (Hall _ Hin). simpl in Hall.
  rewrite Hall. now apply In_get.
Qed.

Lemma keyed_get_id (idOf : V -> string) k x m :
  keyed idOf m -> JsMap.get k m = Some x -> idOf x = k.
Proof.
  intros [_ Hall] Hget. apply get_In in Hget.
  rewrite Forall_forall in Hall. exact (Hall _ Hget).
Qed.

Lemma Forall_values_set (P : V -> Prop) k v m :
  Forall P (JsMap.values m) -> P v -> Forall P (JsMap.values (JsMap.set k v m)).
Proof.
  rewrite !Forall_forall. intros H Hv x Hin.
  apply in_values_set in Hin as [-> | Hin]; auto.
Qed.

Lemma Forall_values_delete (P : V -> Prop) k m :
  Forall P (JsMap.values m) -> Forall P (JsMap.values (JsMap.delete k m)).
Proof.
  rewrite !Forall_forall. intros H x Hin.
  apply in_values_delete in Hin. auto.
Qed.

End JsMapFacts.

(** ** The store each method leaves behind *)

Ltac run_M :=
  unfold bind, this, modify, throw, ret, when_defined; simpl.

Lemma forEach_delete_mentions l s :
  forEach l
    (fun mention => modify (set_mentions (JsMap.delete (Mention.id mention)))) s
  = (inr tt, set_mentions (deleteAll l) s).
Proof.
  revert s. induction l as [| x l IH]; intros s; simpl.
  - now destruct s.
  - run_M. unfold bind, modify in IH. rewrite IH. reflexivity.
Qed.

Lemma deleteTweet_run id s :
  deleteTweet id s =
  if JsMap.has id (tweets s) then
    (inr tt,
     mkStorage (users s) (JsMap.delete id (tweets s))
       (deleteAll (filter (fun mention => Mention.tweetId mention =s id)
                          (JsMap.values (mentions s)))
                  (mentions s))
       (follows s) (engagements s) (tweetStats s))
  else (inl (mkError "Tweet not found"), s).
Proof.
  unfold deleteTweet. run_M.
  destruct (JsMap.has id (tweets s)) eqn:E; simpl.
  - unfold bind. rewrite forEach_delete_mentions. reflexivity.
  - unfold JsMap.has in E. destruct (JsMap.get id (tweets s)) eqn:G;
      [discriminate |].
    unfold set_tweets. rewrite (delete_absent _ _ G). now destruct s.
Qed.

Lemma keyed_deleteAll l m : keyed Mention.id m -> keyed Mention.id (deleteAll l m).
Proof.
  revert m. induction l as [| x l IH]; intros m H; simpl; [exact H |].
  apply IH. now apply keyed_delete.
Qed.

Lemma deleteAll_subset l m kv : In kv (deleteAll l m) -> In kv m.
Proof.
  revert m. induction l as [| x l IH]; intros m H; simpl in *; [exact H |].
  apply IH in H. now apply in_delete in H.
Qed.

Lemma deleteAll_removes l m kv x :
  In x l -> In kv (deleteAll l m) -> fst kv <> Mention.id x.
Proof.
  revert m. induction l as [| y l IH]; intros m Hx Hin; simpl in *; [tauto |].
  destruct Hx as [-> | Hx]; [| now apply (IH _ Hx Hin)].
  apply deleteAll_subset in Hin. now apply in_delete in Hin.
Qed.

Lemma deleteAll_keeps l m kv :
  In kv m -> (forall x, In x l -> fst kv <> Mention.id x) ->
  In kv (deleteAll l m).
Proof.
  revert m. induction l as [| y l IH]; intros m Hin Hno; simpl; [exact Hin |].
  apply IH.
  - apply in_delete. split; [exact Hin | apply Hno; now left].
  - intros x Hx. apply Hno. now right.
Qed.

(** ** Reachable stores are well formed *)

Lemma counter_ok_max x : counter_ok (Some (Z.max 0 x)).
Proof. exists (Z.max 0 x). split; [reflexivity | lia]. Qed.

Lemma counter_ok_succ c : counter_ok c -> counter_ok (Some (or0 c + 1)).
Proof. intros [n [-> Hn]]. simpl. exists (n + 1). split; [reflexivity | lia]. Qed.

Lemma wf_new : wf newMemStorage.
Proof.
  constructor; simpl; try apply keyed_empty; try constructor.
  intros f g [].
Qed.

Lemma wf_createUser u id c d s : wf s -> wf (snd (createUser u id c d s)).
Proof.
  intros [Hu Ht Hm Hf Huc Hsc Hns Hone]. constructor; simpl; auto.
  - now apply keyed_set.
  - apply Forall_values_set; [exact Huc |].
    split; exists 0; simpl; split; (reflexivity || lia).
Qed.

Lemma wf_createTweet t a id c d s : wf s -> wf (snd (createTweet t a id c d s)).
Proof.
  intros [Hu Ht Hm Hf Huc Hsc Hns Hone]. constructor; simpl; auto.
  now apply keyed_set.
Qed.

Lemma wf_updateTweet id t s : wf s -> wf (snd (updateTweet id t s)).
Proof.
  intros H. unfold updateTweet. run_M.
  destruct (JsMap.get id (tweets s)) eqn:G; simpl; [| exact H].
  destruct H as [Hu Ht Hm Hf Huc Hsc Hns Hone]. constructor; simpl; auto.
  apply keyed_set; [exact Ht |]. simpl. now apply (keyed_get_id _ _ _ _ Ht).
Qed.

Lemma wf_deleteTweet id s : wf s -> wf (snd (deleteTweet id s)).
Proof.
  intros H. rewrite deleteTweet_run.
  destruct (JsMap.has id (tweets s)); simpl; [| exact H].
  destruct H as [Hu Ht Hm Hf Huc Hsc Hns Hone]. constructor; simpl; auto.
  - now apply keyed_delete.
  - now apply keyed_deleteAll.
Qed.

Lemma wf_createMention t u id n s : wf s -> wf (snd (createMention t u id n s)).
Proof.
  intros [Hu Ht Hm Hf Huc Hsc Hns Hone]. constructor; simpl; auto.
  now apply keyed_set.
Qed.

Lemma followUser_run a b id now s :
  a <> b ->
  find (isEdge a b) (JsMap.values (follows s)) = None ->
  followUser a b id now s =
  (inr (Follow.mk id a b (Some now)),
   mkStorage (usersAfterFollow a b (users s)) (tweets s) (mentions s)
     (JsMap.set id (Follow.mk id a b (Some now)) (follows s))
     (engagements s) (tweetStats s)).
Proof.
  intros Hne Hfind. unfold followUser, isEdge in *.
  destruct (String.eqb_spec a b); [contradiction |].
  run_M. rewrite Hfind. unfold usersAfterFollow.
  destruct (JsMap.get a (users s)), (JsMap.get b (users s)); reflexivity.
Qed.

Lemma unfollowUser_run a b f s :
  find (isEdge a b) (JsMap.values (follows s)) = Some f ->
  unfollowUser a b s =
  (inr tt,
   mkStorage (usersAfterUnfollow a b (users s)) (tweets s) (mentions s)
     (JsMap.delete (Follow.id f) (follows s))
     (engagements s) (tweetStats s)).
Proof.
  intros Hfind. unfold unfollowUser, isEdge in *.
  run_M. rewrite Hfind. unfold usersAfterUnfollow.
  destruct (JsMap.get a (users s)), (JsMap.get b (users s)); reflexivity.
Qed.

Lemma updateTweetStats_run t ty delta c n s :
  updateTweetStatsForEngagement t ty delta c n s =
  (inr tt,
   mkStorage (users s) (tweets s) (mentions s) (follows s) (engagements s)
     (statsAfter t ty delta c n (tweetStats s))).
Proof.
  unfold updateTweetStatsForEngagement, statsAfter, bumpStats, zeroStats.
  run_M. destruct ty; reflexivity.
Qed.

Lemma engageWithTweet_run u t ty id n c d s :
  find (sameEngagement u t ty) (JsMap.values (engagements s)) = None ->
  engageWithTweet u t ty id n c d s =
  (inr (TweetEngagement.mk id t u ty (Some n)),
   mkStorage (users s) (tweets s) (mentions s) (follows s)
     (JsMap.set id (TweetEngagement.mk id t u ty (Some n)) (engagements s))
     (statsAfter t ty 1 c d (tweetStats s))).
Proof.
  intros Hfind. unfold engageWithTweet. unfold bind at 1. unfold this at 1.
  rewrite Hfind. unfold bind at 1. unfold modify at 1.
  unfold bind at 1. rewrite updateTweetStats_run. reflexivity.
Qed.

Lemma removeEngagement_run u t ty c d e s :
  find (sameEngagement u t ty) (JsMap.values (engagements s)) = Some e ->
  removeEngagement u t ty c d s =
  (inr tt,
   mkStorage (users s) (tweets s) (mentions s) (follows s)
     (JsMap.delete (TweetEngagement.id e) (engagements s))
     (statsAfter t ty (-1) c d (tweetStats s))).
Proof.
  intros Hfind. unfold removeEngagement. unfold bind at 1. unfold this at 1.
  rewrite Hfind. unfold bind at 1. unfold modify at 1.
  rewrite updateTweetStats_run. reflexivity.
Qed.

Lemma find_isEdge a b l f :
  find (isEdge a b) l = Some f ->
  In f l /\ Follow.followerId f = a /\ Follow.followingId f = b.
Proof.
  intros H. apply find_some in H as [Hin Hp]. unfold isEdge in Hp.
  apply andb_true_iff in Hp as [H1 H2].
  apply String.eqb_eq in H1, H2. auto.
Qed.

Lemma find_isEdge_none a b l :
  find (isEdge a b) l = None <->
  ~ exists f, In f l /\ Follow.followerId f = a /\ Follow.followingId f = b.
Proof.
  split.
  - intros H [f [Hin [Ha Hb]]]. pose proof (find_none _ _ H _ Hin) as Hp.
    unfold isEdge in Hp. rewrite <- Ha, <- Hb, !String.eqb_refl in Hp.
    discriminate.
  - intros H. destruct (find (isEdge a b) l) eqn:E; [| reflexivity].
    exfalso. apply H. exists t. now apply find_isEdge.
Qed.

Lemma keyed_usersAfterFollow a b us :
  keyed User.id us -> keyed User.id (usersAfterFollow a b us).
Proof.
  intros H. unfold usersAfterFollow.
  assert (H1 : keyed User.id
            match JsMap.get a us with
            | Some u => JsMap.set a (User.with_followingCount u
                          (or0 (User.followingCount u) + 1)) us
            | None => us
            end).
  { destruct (JsMap.get a us) eqn:G; [| exact H].
    apply keyed_set; [exact H |]. simpl. now apply (keyed_get_id _ _ _ _ H). }
  destruct (JsMap.get b us) eqn:G; [| exact H1].
  apply keyed_set; [exact H1 |]. simpl. now apply (keyed_get_id _ _ _ _ H).
Qed.

Lemma keyed_usersAfterUnfollow a b us :
  keyed User.id us -> keyed User.id (usersAfterUnfollow a b us).
Proof.
  intros H. unfold usersAfterUnfollow.
  assert (H1 : keyed User.id
            match JsMap.get a us with
            | Some u => JsMap.set a (User.with_followingCount u
                          (Z.max 0 (or0 (User.followingCount u) - 1))) us
            | None => us
            end).
  { destruct (JsMap.get a us) eqn:G; [| exact H].
    apply keyed_set; [exact H |]. simpl. now apply (keyed_get_id _ _ _ _ H). }
  destruct (JsMap.get b us) eqn:G; [| exact H1].
  apply keyed_set; [exact H1 |]. simpl. now apply (keyed_get_id _ _ _ _ H).
Qed.

Lemma counters_usersAfterFollow a b us :
  Forall user_counters_ok (JsMap.values us) ->
  Forall user_counters_ok (JsMap.values (usersAfterFollow a b us)).
Proof.
  intros H. unfold usersAfterFollow.
  assert (Hin : forall k u, JsMap.get k us = Some u -> user_counters_ok u).
  { intros k u G. rewrite Forall_forall in H. apply H.
    now apply get_In_values in G. }
  assert (H1 : Forall user_counters_ok (JsMap.values
            match JsMap.get a us with
            | Some u => JsMap.set a (User.with_followingCount u
                          (or0 (User.followingCount u) + 1)) us
            | None => us
            end)).
  { destruct (JsMap.get a us) eqn:G; [| exact H].
    apply Forall_values_set; [exact H |].
    destruct (Hin _ _ G) as [Hr Hg]. split; simpl;
      [exact Hr | now apply counter_ok_succ]. }
  destruct (JsMap.get b us) eqn:G; [| exact H1].
  apply Forall_values_set; [exact H1 |].
  destruct (Hin _ _ G) as [Hr Hg]. split; simpl;
    [now apply counter_ok_succ | exact Hg].
Qed.

Lemma counters_usersAfterUnfollow a b us :
  Forall user_counters_ok (JsMap.values us) ->
  Forall user_counters_ok (JsMap.values (usersAfterUnfollow a b us)).
Proof.
  intros H. unfold usersAfterUnfollow.
  assert (Hin : forall k u, JsMap.get k us = Some u -> user_counters_ok u).
  { intros k u G. rewrite Forall_forall in H. apply H.
    now apply get_In_values in G. }
  assert (H1 : Forall user_counters_ok (JsMap.values
            match JsMap.get a us with
            | Some u => JsMap.set a (User.with_followingCount u
                          (Z.max 0 (or0 (User.followingCount u) - 1))) us
            | None => us
            end)).
  { destruct (JsMap.get a us) eqn:G; [| exact H].
    apply Forall_values_set; [exact H |].
    destruct (Hin _ _ G) as [Hr Hg]. split; simpl;
      [exact Hr | apply counter_ok_max]. }
  destruct (JsMap.get b us) eqn:G; [| exact H1].
  apply Forall_values_set; [exact H1 |].
  destruct (Hin _ _ G) as [Hr Hg]. split; simpl;
    [apply counter_ok_max | exact Hg].
Qed.

Lemma wf_followUser a b id n s : wf s -> wf (snd (followUser a b id n s)).
Proof.
  intros H.
  destruct (String.eqb_spec a b) as [-> | Hne].
  { unfold followUser. rewrite String.eqb_refl. exact H. }
  destruct (find (isEdge a b) (JsMap.values (follows s))) eqn:Hfind.
  { unfold followUser. destruct (String.eqb_spec a b); [contradiction |].
    run_M. unfold isEdge in Hfind. rewrite Hfind. exact H. }
  rewrite (followUser_run _ _ _ _ _ Hne Hfind).
  destruct H as [Hu Ht Hm Hf Huc Hsc Hns Hone]. constructor; simpl; auto.
  - now apply keyed_usersAfterFollow.
  - now apply keyed_set.
  - now apply counters_usersAfterFollow.
  - now apply Forall_values_set.
  - intros f g Hf' Hg' [Hs1 Hs2].
    apply in_values_set in Hf' as [-> | Hf'];
      apply in_values_set in Hg' as [-> | Hg']; auto; simpl in *.
    + exfalso. apply (proj1 (find_isEdge_none a b _) Hfind). now exists g.
    + exfalso. apply (proj1 (find_isEdge_none a b _) Hfind). now exists f.
    + apply Hone; auto. now split.
Qed.

Lemma wf_unfollowUser a b s : wf s -> wf (snd (unfollowUser a b s)).
Proof.
  intros H.
  destruct (find (isEdge a b) (JsMap.values (follows s))) eqn:Hfind.
  2:{ unfold unfollowUser. run_M. unfold isEdge in Hfind. rewrite Hfind.
      exact H. }
  rewrite (unfollowUser_run _ _ _ _ Hfind).
  destruct H as [Hu Ht Hm Hf Huc Hsc Hns Hone]. constructor; simpl; auto.
  - now apply keyed_usersAfterUnfollow.
  - now apply keyed_delete.
  - now apply counters_usersAfterUnfollow.
  - now apply Forall_values_delete.
  - intros f g Hf' Hg'. apply in_values_delete in Hf', Hg'. now apply Hone.
Qed.

Lemma stats_ok_bump ty delta now st :
  stats_counters_ok st -> stats_counters_ok (bumpStats ty delta now st).
Proof.
  intros [H1 [H2 H3]]. unfold bumpStats, stats_counters_ok.
  destruct ty; simpl; repeat split; auto using counter_ok_max.
Qed.

Lemma stats_ok_zero t c : stats_counters_ok (zeroStats t c).
Proof.
  repeat split; exists 0; simpl; split; (reflexivity || lia).
Qed.

Lemma counters_statsAfter t ty delta c n m :
  Forall stats_counters_ok (JsMap.values m) ->
  Forall stats_counters_ok (JsMap.values (statsAfter t ty delta c n m)).
Proof.
  intros H. unfold statsAfter. apply Forall_values_set; [exact H |].
  apply stats_ok_bump. destruct (JsMap.get t m) eqn:G.
  - rewrite Forall_forall in H. apply H. now apply get_In_values in G.
  - apply stats_ok_zero.
Qed.

Lemma wf_engageWithTweet u t ty id n c d s :
  wf s -> wf (snd (engageWithTweet u t ty id n c d s)).
Proof.
  intros H.
  destruct (find (sameEngagement u t ty) (JsMap.values (engagements s)))
    eqn:Hfind.
  { unfold engageWithTweet. run_M. rewrite Hfind. exact H. }
  rewrite (engageWithTweet_run _ _ _ _ _ _ _ _ Hfind).
  destruct H as [Hu Ht Hm Hf Huc Hsc Hns Hone]. constructor; simpl; auto.
  now apply counters_statsAfter.
Qed.

Lemma wf_removeEngagement u t ty c d s :
  wf s -> wf (snd (removeEngagement u t ty c d s)).
Proof.
  intros H.
  destruct (find (sameEngagement u t ty) (JsMap.values (engagements s)))
    eqn:Hfind.
  2:{ unfold removeEngagement. run_M. rewrite Hfind. exact H. }
  rewrite (removeEngagement_run _ _ _ _ _ _ _ Hfind).
  destruct H as [Hu Ht Hm Hf Huc Hsc Hns Hone]. constructor; simpl; auto.
  now apply counters_statsAfter.
Qed.

Lemma wf_exec op s : wf s -> wf (exec op s).
Proof.
  destruct op; simpl; intros H.
  - apply wf_new.
  - now apply wf_createUser.
  - now apply wf_createTweet.
  - now apply wf_updateTweet.
  - now apply wf_deleteTweet.
  - now apply wf_createMention.
  - now apply wf_followUser.
  - now apply wf_unfollowUser.
  - now apply wf_engageWithTweet.
  - now apply wf_removeEngagement.
Qed.

Lemma reachable_wf s : reachable s -> wf s.
Proof.
  induction 1 as [| s op _ IH _]; [apply wf_new | now apply wf_exec].
Qed.

Lemma wf_execs ops s : wf s -> wf (execs ops s).
Proof.
  revert s. induction ops as [| op ops IH]; intros s H; simpl; [exact H |].
  apply IH. now apply wf_exec.
Qed.

(** ** The social graph *)

Lemma existsb_find {A} (p : A -> bool) l :
  existsb p l = match find p l with Some _ => true | None => false end.
Proof.
  induction l as [| x l IH]; simpl; [reflexivity |].
  destruct (p x); simpl; [reflexivity | exact IH].
Qed.

Lemma isFollowing_hasEdge s a b : isFollowing s a b = true <-> hasEdge s a b.
Proof.
  unfold isFollowing, hasEdge. fold (isEdge a b). rewrite existsb_find.
  destruct (find (isEdge a b) (JsMap.values (follows s))) eqn:E.
  - split; [intros _ | reflexivity]. exists t. now apply find_isEdge.
  - split; [discriminate |]. intros H.
    now apply (proj1 (find_isEdge_none a b _) E) in H.
Qed.

Lemma find_isEdge_hasEdge s a b :
  find (isEdge a b) (JsMap.values (follows s)) = None <-> ~ hasEdge s a b.
Proof. apply find_isEdge_none. Qed.

Lemma find_values_set {V} (p : V -> bool) k v (m : JsMap.t V) :
  find p (JsMap.values m) = None -> p v = true ->
  find p (JsMap.values (JsMap.set k v m)) = Some v.
Proof.
  induction m as [| [k0 v0] m IH]; simpl; intros Hnone Hp.
  - now rewrite Hp.
  - destruct (p v0) eqn:E0; [discriminate |].
    case_eqb k0 k; simpl.
    + now rewrite Hp.
    + rewrite E0. now apply IH.
Qed.

Lemma find_values_delete_none {V} (p : V -> bool) k (m : JsMap.t V) :
  find p (JsMap.values m) = None ->
  find p (JsMap.values (JsMap.delete k m)) = None.
Proof.
  intros H. destruct (find p (JsMap.values (JsMap.delete k m))) eqn:E;
    [| reflexivity].
  apply find_some in E as [Hin Hp]. apply in_values_delete in Hin.
  pose proof (find_none _ _ H _ Hin). congruence.
Qed.

Lemma with_followingCount_undo u n :
  User.followingCount u = Some n -> 0 <= n ->
  User.with_followingCount
    (User.with_followingCount u (or0 (User.followingCount u) + 1))
    (Z.max 0 (or0 (Some (or0 (User.followingCount u) + 1)) - 1)) = u.
Proof.
  destruct u; simpl. intros -> Hn. unfold User.with_followingCount; simpl.
  do 2 f_equal. lia.
Qed.

Lemma with_followerCount_undo u n :
  User.followerCount u = Some n -> 0 <= n ->
  User.with_followerCount
    (User.with_followerCount u (or0 (User.followerCount u) + 1))
    (Z.max 0 (or0 (Some (or0 (User.followerCount u) + 1)) - 1)) = u.
Proof.
  destruct u; simpl. intros -> Hn. unfold User.with_followerCount; simpl.
  do 2 f_equal. lia.
Qed.

Lemma usersAfterFollow_present a b ua ub us :
  a <> b -> JsMap.get a us = Some ua -> JsMap.get b us = Some ub ->
  usersAfterFollow a b us =
  JsMap.set b (User.with_followerCount ub (or0 (User.followerCount ub) + 1))
    (JsMap.set a
       (User.with_followingCount ua (or0 (User.followingCount ua) + 1)) us).
Proof. intros _ Ha Hb. unfold usersAfterFollow. now rewrite Ha, Hb. Qed.

Lemma unfollow_undoes_follow a b ua ub us :
  a <> b -> JsMap.get a us = Some ua -> JsMap.get b us = Some ub ->
  user_counters_ok ua -> user_counters_ok ub ->
  usersAfterUnfollow a b (usersAfterFollow a b us) = us.
Proof.
  intros Hne Ha Hb [_ [n [Hn Hn0]]] [[m [Hm Hm0]] _].
  rewrite (usersAfterFollow_present _ _ _ _ _ Hne Ha Hb).
  unfold usersAfterUnfollow.
  rewrite (get_set_other b a) by congruence.
  rewrite !get_set_same. simpl User.followingCount. simpl User.followerCount.
  rewrite (with_followingCount_undo _ _ Hn Hn0).
  rewrite (with_followerCount_undo _ _ Hm Hm0).
  rewrite (set_set_swap a b) by (rewrite ?get_set_same; congruence).
  rewrite !set_set_same.
  rewrite (set_unchanged a ua us Ha). now apply set_unchanged.
Qed.

Lemma get_follower_afterFollow a b ua us :
  a <> b -> JsMap.get a us = Some ua ->
  JsMap.get a (usersAfterFollow a b us)
  = Some (User.with_followingCount ua (or0 (User.followingCount ua) + 1)).
Proof.
  intros Hne Ha. unfold usersAfterFollow. rewrite Ha.
  destruct (JsMap.get b us).
  - rewrite get_set_other by congruence. apply get_set_same.
  - apply get_set_same.
Qed.

Lemma get_following_afterFollow a b ub us :
  JsMap.get b us = Some ub ->
  JsMap.get b (usersAfterFollow a b us)
  = Some (User.with_followerCount ub (or0 (User.followerCount ub) + 1)).
Proof. intros Hb. unfold usersAfterFollow. rewrite Hb. apply get_set_same. Qed.

Lemma get_follower_afterUnfollow a b ua us :
  a <> b -> JsMap.get a us = Some ua ->
  JsMap.get a (usersAfterUnfollow a b us)
  = Some (User.with_followingCount ua
            (Z.max 0 (or0 (User.followingCount ua) - 1))).
Proof.
  intros Hne Ha. unfold usersAfterUnfollow. rewrite Ha.
  destruct (JsMap.get b us).
  - rewrite get_set_other by congruence. apply get_set_same.
  - apply get_set_same.
Qed.

Lemma get_following_afterUnfollow a b ub us :
  JsMap.get b us = Some ub ->
  JsMap.get b (usersAfterUnfollow a b us)
  = Some (User.with_followerCount ub
            (Z.max 0 (or0 (User.followerCount ub) - 1))).
Proof. intros Hb. unfold usersAfterUnfollow. rewrite Hb. apply get_set_same. Qed.

Lemma get_other_afterFollow a b k us :
  k <> a -> k <> b ->
  JsMap.get k (usersAfterFollow a b us) = JsMap.get k us.
Proof.
  intros Ha Hb. unfold usersAfterFollow.
  destruct (JsMap.get b us); destruct (JsMap.get a us);
    rewrite ?get_set_other by congruence; reflexivity.
Qed.

Lemma unfollowUser_inv a b s s' :
  unfollowUser a b s = (inr tt, s') ->
  exists f, find (isEdge a b) (JsMap.values (follows s)) = Some f.
Proof.
  destruct (find (isEdge a b) (JsMap.values (follows s))) eqn:E; [eauto |].
  unfold unfollowUser. run_M. unfold isEdge in E. rewrite E. discriminate.
Qed.

(** C2. In a store reached through the store's methods: for registered,
    distinct users [a] and [b] with no edge from [a] to [b], [followUser a b]
    succeeds and raises [a.followingCount] and [b.followerCount] by exactly
    one, and the [unfollowUser a b] that follows succeeds and restores the
    user map (hence both counters); a successful [unfollowUser] lowers the
    two counters by one but not below zero; and after any further sequence
    of method calls (follow and unfollow among them) every stored counter
    is a non-negative number. *)
Theorem C2_follow_unfollow_counters (s : MemStorage) :
  reachable s ->
  (forall a b ua ub id now,
     getUser s a = Some ua -> getUser s b = Some ub ->
     a <> b -> ~ hasEdge s a b ->
     exists n m f s1 ua1 ub1 s2,
       User.followingCount ua = Some n /\ User.followerCount ub = Some m
       /\ followUser a b id now s = (inr f, s1)
       /\ getUser s1 a = Some ua1 /\ getUser s1 b = Some ub1
       /\ User.followingCount ua1 = Some (n + 1)
       /\ User.followerCount ub1 = Some (m + 1)
       /\ unfollowUser a b s1 = (inr tt, s2)
       /\ users s2 = users s)
  /\ (forall a b s',
        unfollowUser a b s = (inr tt, s') ->
        (forall ua, getUser s a = Some ua ->
           exists ua', getUser s' a = Some ua'
             /\ User.followingCount ua'
                = Some (Z.max 0 (or0 (User.followingCount ua) - 1)))
        /\ (forall ub, getUser s b = Some ub ->
              exists ub', getUser s' b = Some ub'
                /\ User.followerCount ub'
                   = Some (Z.max 0 (or0 (User.followerCount ub) - 1))))
  /\ (forall ops u,
        In u (JsMap.values (users (execs ops s))) ->
        exists p q, User.followerCount u = Some p /\ 0 <= p
                    /\ User.followingCount u = Some q /\ 0 <= q).
Proof.
  intros Hreach. pose proof (reachable_wf _ Hreach) as Hwf.
  split; [| split].
  - intros a b ua ub id now Ha Hb Hne Hno. unfold getUser in *.
    assert (Hoka : user_counters_ok ua).
    { pose proof (wf_user_counters _ Hwf) as H. rewrite Forall_forall in H.
      apply H. eapply get_In_values; eauto. }
    assert (Hokb : user_counters_ok ub).
    { pose proof (wf_user_counters _ Hwf) as H. rewrite Forall_forall in H.
      apply H. eapply get_In_values; eauto. }
    destruct Hoka as [Hoka1 [n [Hn Hn0]]]. destruct Hokb as [[m [Hm Hm0]] Hokb2].
    apply find_isEdge_hasEdge in Hno.
    exists n, m. eexists. eexists. eexists. eexists. eexists.
    split; [exact Hn |]. split; [exact Hm |].
    split; [apply (followUser_run _ _ _ _ _ Hne Hno) |]. simpl.
    split; [apply (get_follower_afterFollow _ _ _ _ Hne Ha) |].
    split; [apply (get_following_afterFollow _ _ _ _ Hb) |].
    split; [simpl; now rewrite Hn |]. split; [simpl; now rewrite Hm |].
    split.
    + eapply unfollowUser_run. simpl.
      apply find_values_set; [exact Hno |]. unfold isEdge. simpl.
      now rewrite !String.eqb_refl.
    + simpl. apply (unfollow_undoes_follow a b ua ub); auto.
      * split; [exact Hoka1 | now exists n].
      * split; [now exists m | exact Hokb2].
  - intros a b s' Hrun. destruct (unfollowUser_inv _ _ _ _ Hrun) as [f Hf].
    rewrite (unfollowUser_run _ _ _ _ Hf) in Hrun. injection Hrun as <-.
    apply find_isEdge in Hf as [Hin [Hfa Hfb]].
    assert (Hne : a <> b).
    { pose proof (wf_no_self_follow _ Hwf) as H. rewrite Forall_forall in H.
      specialize (H _ Hin). congruence. }
    unfold getUser. simpl. split.
    + intros ua Ha. eexists. split;
        [apply (get_follower_afterUnfollow _ _ _ _ Hne Ha) | reflexivity].
    + intros ub Hb. eexists. split;
        [apply (get_following_afterUnfollow _ _ _ _ Hb) | reflexivity].
  - intros ops u Hin.
    pose proof (wf_user_counters _ (wf_execs ops _ Hwf)) as H.
    rewrite Forall_forall in H.
    destruct (H _ Hin) as [[p [Hp Hp0]] [q [Hq Hq0]]]. now exists p, q.
Qed.

Lemma followUser_self a id now s :
  followUser a a id now s = (inl SelfFollowError, s).
Proof. unfold followUser. now rewrite String.eqb_refl. Qed.

Lemma followUser_duplicate a b id now f s :
  a <> b -> find (isEdge a b) (JsMap.values (follows s)) = Some f ->
  followUser a b id now s = (inl DuplicateFollowError, s).
Proof.
  intros Hne Hf. unfold followUser, isEdge in *.
  destruct (String.eqb_spec a b); [contradiction |]. run_M. now rewrite Hf.
Qed.

Lemma unfollowUser_missing a b s :
  find (isEdge a b) (JsMap.values (follows s)) = None ->
  unfollowUser a b s = (inl NotFollowingError, s).
Proof. intros Hf. unfold unfollowUser, isEdge in *. run_M. now rewrite Hf. Qed.

Lemma hasEdge_dec s a b : hasEdge s a b \/ ~ hasEdge s a b.
Proof.
  destruct (find (isEdge a b) (JsMap.values (follows s))) eqn:E.
  - left. exists t. now apply find_isEdge.
  - right. now apply find_isEdge_hasEdge.
Qed.

Lemma hasEdge_find s a b :
  hasEdge s a b ->
  exists f, find (isEdge a b) (JsMap.values (follows s)) = Some f.
Proof.
  intros H. destruct (find (isEdge a b) (JsMap.values (follows s))) eqn:E;
    [eauto |].
  now apply find_isEdge_hasEdge in E.
Qed.

Lemma in_values_delete_keyed {V} (idOf : V -> string) (m : JsMap.t V) k x :
  keyed idOf m ->
  (In x (JsMap.values (JsMap.delete k m))
   <-> In x (JsMap.values m) /\ idOf x <> k).
Proof.
  intros Hk. pose proof Hk as [_ Hall]. rewrite Forall_forall in Hall.
  unfold JsMap.values. rewrite !in_map_iff. split.
  - intros [kv [<- Hin]]. apply in_delete in Hin as [Hin Hne]. split.
    + now exists kv.
    + now rewrite (Hall _ Hin).
  - intros [[kv [<- Hin]] Hne]. exists kv. split; [reflexivity |].
    apply in_delete. split; [exact Hin |]. now rewrite <- (Hall _ Hin).
Qed.

(** C3. [followUser a b] throws the self-follow error exactly when
    [a = b], the duplicate-follow error exactly when [a <> b] and an edge
    from [a] to [b] is stored, and in both cases leaves the store as it
    was; otherwise it returns the edge [(id, a, b)] and stores it under the
    fresh identifier as the one new binding of the follow map.
    [unfollowUser a b] throws the not-following error, leaving the store as
    it was, exactly when no edge from [a] to [b] is stored; otherwise, in a
    reachable store, it succeeds and removes that edge and no other.  In a
    reachable store no edge is a self-follow and an ordered pair has at
    most one edge. *)
Theorem C3_follow_unfollow_errors (s : MemStorage) (a b id : string) (now : Z) :
  (fst (followUser a b id now s) = inl SelfFollowError <-> a = b)
  /\ (fst (followUser a b id now s) = inl DuplicateFollowError
      <-> a <> b /\ hasEdge s a b)
  /\ (forall e, fst (followUser a b id now s) = inl e ->
        snd (followUser a b id now s) = s)
  /\ (a <> b -> ~ hasEdge s a b ->
      exists s',
        followUser a b id now s = (inr (Follow.mk id a b (Some now)), s')
        /\ follows s'
           = JsMap.set id (Follow.mk id a b (Some now)) (follows s)
        /\ (JsMap.get id (follows s) = None ->
            follows s'
            = follows s ++ [(id, Follow.mk id a b (Some now))]))
  /\ (fst (unfollowUser a b s) = inl NotFollowingError <-> ~ hasEdge s a b)
  /\ (forall e, fst (unfollowUser a b s) = inl e ->
        snd (unfollowUser a b s) = s)
  /\ (reachable s -> hasEdge s a b ->
      exists s',
        unfollowUser a b s = (inr tt, s')
        /\ ~ hasEdge s' a b
        /\ forall g, In g (JsMap.values (follows s'))
                     <-> In g (JsMap.values (follows s))
                         /\ ~ (Follow.followerId g = a
                               /\ Follow.followingId g = b))
  /\ (reachable s ->
      (forall f, In f (JsMap.values (follows s)) ->
                 Follow.followerId f <> Follow.followingId f)
      /\ (forall f g, In f (JsMap.values (follows s)) ->
                      In g (JsMap.values (follows s)) ->
                      sameEdge f g -> f = g)).
Proof.
  assert (Hfollow :
    (a = b /\ followUser a b id now s = (inl SelfFollowError, s))
    \/ (a <> b /\ hasEdge s a b
        /\ followUser a b id now s = (inl DuplicateFollowError, s))
    \/ (a <> b /\ ~ hasEdge s a b
        /\ followUser a b id now s
           = (inr (Follow.mk id a b (Some now)),
              mkStorage (usersAfterFollow a b (users s)) (tweets s)
                (mentions s)
                (JsMap.set id (Follow.mk id a b (Some now)) (follows s))
                (engagements s) (tweetStats s)))).
  { destruct (String.eqb_spec a b) as [-> | Hne].
    - left. split; [reflexivity | apply followUser_self].
    - right. destruct (find (isEdge a b) (JsMap.values (follows s))) eqn:E.
      + left. split; [exact Hne |]. split.
        * exists t. now apply find_isEdge.
        * now apply (followUser_duplicate _ _ _ _ t).
      + right. split; [exact Hne |]. split.
        * now apply find_isEdge_hasEdge.
        * now apply followUser_run. }
  assert (Hunfollow :
    (~ hasEdge s a b /\ unfollowUser a b s = (inl NotFollowingError, s))
    \/ (exists f, find (isEdge a b) (JsMap.values (follows s)) = Some f
          /\ unfollowUser a b s
             = (inr tt,
                mkStorage (usersAfterUnfollow a b (users s)) (tweets s)
                  (mentions s) (JsMap.delete (Follow.id f) (follows s))
                  (engagements s) (tweetStats s)))).
  { destruct (find (isEdge a b) (JsMap.values (follows s))) eqn:E.
    - right. exists t. split; [reflexivity | now apply unfollowUser_run].
    - left. split; [now apply find_isEdge_hasEdge |].
      now apply unfollowUser_missing. }
  repeat split.
  - destruct Hfollow as [[H1 H2] | [[H1 [H2 H3]] | [H1 [H2 H3]]]];
      rewrite ?H2, ?H3; simpl; intros H; (assumption || discriminate).
  - intros ->. now rewrite followUser_self.
  - destruct Hfollow as [[H1 H2] | [[H1 [H2 H3]] | [H1 [H2 H3]]]];
      rewrite ?H2, ?H3 in H; simpl in H; (assumption || discriminate).
  - destruct Hfollow as [[H1 H2] | [[H1 [H2 H3]] | [H1 [H2 H3]]]];
      rewrite ?H2, ?H3 in H; simpl in H; (assumption || discriminate).
  - intros [Hne Hedge].
    destruct Hfollow as [[H1 H2] | [[H1 [H2 H3]] | [H1 [H2 H3]]]];
      try contradiction. now rewrite H3.
  - intros e.
    destruct Hfollow as [[H1 H2] | [[H1 [H2 H3]] | [H1 [H2 H3]]]];
      rewrite ?H2, ?H3; simpl; (reflexivity || discriminate).
  - intros Hne Hno.
    destruct Hfollow as [[H1 H2] | [[H1 [H2 H3]] | [H1 [H2 H3]]]];
      try contradiction.
    eexists. split; [exact H3 |]. simpl. split; [reflexivity |].
    apply set_fresh.
  - destruct Hunfollow as [[H1 H2] | [f [H1 H2]]]; rewrite H2; simpl;
      [auto | discriminate].
  - intros Hno. destruct Hunfollow as [[H1 H2] | [f [H1 H2]]].
    + now rewrite H2.
    + exfalso. apply Hno. exists f. now apply find_isEdge.
  - intros e. destruct Hunfollow as [[H1 H2] | [f [H1 H2]]]; rewrite H2; simpl;
      [reflexivity | discriminate].
  - intros Hreach Hedge. pose proof (reachable_wf _ Hreach) as Hwf.
    destruct Hunfollow as [[H1 H2] | [f [H1 H2]]]; [contradiction |].
    eexists. split; [exact H2 |]. simpl.
    apply find_isEdge in H1 as [Hin [Hfa Hfb]].
    assert (Hiff : forall g,
      In g (JsMap.values (JsMap.delete (Follow.id f) (follows s)))
      <-> In g (JsMap.values (follows s))
          /\ ~ (Follow.followerId g = a /\ Follow.followingId g = b)).
    { intros g.
      rewrite (in_values_delete_keyed Follow.id _ _ _ (wf_follows _ Hwf)).
      split; intros [Hg Hx]; (split; [exact Hg |]).
      - intros [Hga Hgb]. apply Hx. f_equal.
        apply (wf_one_edge _ Hwf); auto. split; congruence.
      - intros Hid. apply Hx.
        pose proof (keyed_get Follow.id _ _ (wf_follows _ Hwf) Hg) as G1.
        pose proof (keyed_get Follow.id _ _ (wf_follows _ Hwf) Hin) as G2.
        rewrite Hid in G1. rewrite G1 in G2. injection G2 as ->. auto. }
    split; [| exact Hiff].
    intros [g [Hg [Hga Hgb]]]. simpl in Hg. apply Hiff in Hg as [_ Hx].
    apply Hx. auto.
  - pose proof (reachable_wf _ H) as Hwf.
    pose proof (wf_no_self_follow _ Hwf) as Hns.
    rewrite Forall_forall in Hns. now apply Hns.
  - pose proof (reachable_wf _ H) as Hwf. now apply (wf_one_edge _ Hwf).
Qed.

Lemma in_values_set_new {V} k (v : V) (m : JsMap.t V) :
  In v (JsMap.values (JsMap.set k v m)).
Proof.
  induction m as [| [k0 v0] m IH]; simpl; [now left |].
  case_eqb k0 k; simpl; [now left | now right].
Qed.

(** C9. [followUser a b] never looks the two users up before it creates
    the edge: for distinct [a] and [b] with no edge from [a] to [b] it
    succeeds and stores the edge whether or not [a] and [b] are registered;
    a user that is not registered stays absent, and the user map changes
    only by the counter of whichever of the two is registered.  The only
    errors [followUser] can throw are the self-follow and the
    duplicate-follow error, so none reports a missing user. *)
Theorem C9_follow_unregistered (s : MemStorage) (a b id : string) (now : Z) :
  (a <> b -> ~ hasEdge s a b ->
   exists s',
     followUser a b id now s = (inr (Follow.mk id a b (Some now)), s')
     /\ follows s' = JsMap.set id (Follow.mk id a b (Some now)) (follows s)
     /\ hasEdge s' a b
     /\ (getUser s a = None -> getUser s' a = None)
     /\ (getUser s b = None -> getUser s' b = None)
     /\ (getUser s a = None -> getUser s b = None -> users s' = users s)
     /\ (forall ub, getUser s a = None -> getUser s b = Some ub ->
           users s'
           = JsMap.set b
               (User.with_followerCount ub (or0 (User.followerCount ub) + 1))
               (users s))
     /\ (forall ua, getUser s a = Some ua -> getUser s b = None ->
           users s'
           = JsMap.set a
               (User.with_followingCount ua
                  (or0 (User.followingCount ua) + 1))
               (users s)))
  /\ (forall e, fst (followUser a b id now s) = inl e ->
        e = SelfFollowError \/ e = DuplicateFollowError).
Proof.
  split.
  - intros Hne Hno. apply find_isEdge_hasEdge in Hno.
    eexists. split; [apply (followUser_run _ _ _ _ _ Hne Hno) |].
    unfold getUser. simpl. split; [reflexivity |]. split.
    { exists (Follow.mk id a b (Some now)). simpl.
      split; [apply in_values_set_new | auto]. }
    unfold usersAfterFollow.
    split; [| split; [| split; [| split]]].
    + intros Ha. rewrite Ha. destruct (JsMap.get b (users s)); [| exact Ha].
      rewrite get_set_other by congruence. exact Ha.
    + intros Hb. rewrite Hb. destruct (JsMap.get a (users s)); [| exact Hb].
      rewrite get_set_other by congruence. exact Hb.
    + intros Ha Hb. now rewrite Ha, Hb.
    + intros ub Ha Hb. now rewrite Ha, Hb.
    + intros ua Ha Hb. now rewrite Ha, Hb.
  - intros e. destruct (String.eqb_spec a b) as [-> | Hne].
    + rewrite followUser_self. simpl. intros [= <-]. now left.
    + destruct (find (isEdge a b) (JsMap.values (follows s))) eqn:E.
      * rewrite (followUser_duplicate _ _ _ _ _ _ Hne E). simpl.
        intros [= <-]. now right.
      * rewrite (followUser_run _ _ _ _ _ Hne E). discriminate.
Qed.

(** ** Tweets *)

(** C6. For a stored tweet, [updateTweet id draft] returns and stores the
    tweet with [content] replaced by the draft's, every other field of the
    tweet (identifier, author, timestamps and the reserved fields) as it
    was; every other tweet and every other map of the store is unchanged.
    For an identifier that is not stored it throws the not-found error and
    leaves the store as it was. *)
Theorem C6_updateTweet_frame (s : MemStorage) (id : string)
    (tweetData : InsertTweet.t) :
  (forall t, getTweetById s id = Some t ->
     exists t' s',
       updateTweet id tweetData s = (inr t', s')
       /\ getTweetById s' id = Some t'
       /\ Tweet.content t' = InsertTweet.content tweetData
       /\ Tweet.id t' = Tweet.id t
       /\ Tweet.authorId t' = Tweet.authorId t
       /\ Tweet.createdAt t' = Tweet.createdAt t
       /\ Tweet.updatedAt t' = Tweet.updatedAt t
       /\ Tweet.deletedAt t' = Tweet.deletedAt t
       /\ Tweet.parentTweetId t' = Tweet.parentTweetId t
       /\ Tweet.isRetweet t' = Tweet.isRetweet t
       /\ Tweet.originalTweetId t' = Tweet.originalTweetId t
       /\ Tweet.mediaUrls t' = Tweet.mediaUrls t
       /\ Tweet.hashtags t' = Tweet.hashtags t
       /\ (forall id', id' <> id -> getTweetById s' id' = getTweetById s id')
       /\ JsMap.keys (tweets s') = JsMap.keys (tweets s)
       /\ users s' = users s /\ mentions s' = mentions s
       /\ follows s' = follows s /\ engagements s' = engagements s
       /\ tweetStats s' = tweetStats s)
  /\ (getTweetById s id = None ->
      updateTweet id tweetData s = (inl TweetNotFoundError, s)).
Proof.
  unfold getTweetById. split.
  - intros t Hget.
    exists (Tweet.with_content t (InsertTweet.content tweetData)).
    eexists. split.
    { unfold updateTweet. run_M. rewrite Hget. reflexivity. }
    simpl. split; [apply get_set_same |].
    repeat (split; [reflexivity |]).
    split; [intros id' Hne; apply get_set_other; congruence |].
    split; [| repeat split].
    rewrite keys_set. unfold JsMap.has. now rewrite Hget.
  - intros Hget. unfold updateTweet. run_M. now rewrite Hget.
Qed.

Lemma filter_nil_iff {A} (p : A -> bool) l :
  (forall x, In x l -> p x = false) -> filter p l = [].
Proof.
  induction l as [| x l IH]; simpl; intros H; [reflexivity |].
  rewrite (H x) by now left. apply IH. intros y Hy. apply H. now right.
Qed.

Lemma deleteAll_mentions_spec id (m : JsMap.t Mention.t) x :
  keyed Mention.id m ->
  (In x (JsMap.values
           (deleteAll (filter (fun mention => Mention.tweetId mention =s id)
                              (JsMap.values m)) m))
   <-> In x (JsMap.values m) /\ Mention.tweetId x <> id).
Proof.
  intros Hk. pose proof Hk as [_ Hall]. rewrite Forall_forall in Hall.
  unfold JsMap.values at 1 3. rewrite !in_map_iff. split.
  - intros [kv [<- Hin]]. pose proof (deleteAll_subset _ _ _ Hin) as Hin0.
    split; [now exists kv |]. intros Ht.
    refine (deleteAll_removes _ _ _ (snd kv) _ Hin _).
    + apply filter_In. split.
      * unfold JsMap.values. now apply in_map.
      * now apply String.eqb_eq.
    + symmetry. now apply Hall.
  - intros [[kv [<- Hin]] Hne]. exists kv. split; [reflexivity |].
    apply deleteAll_keeps; [exact Hin |].
    intros y Hy Hfst. apply filter_In in Hy as [Hy Hty].
    apply String.eqb_eq in Hty.
    pose proof (keyed_get Mention.id _ _ Hk Hy) as G.
    rewrite <- Hfst in G. destruct kv as [k0 v0]. simpl in *.
    rewrite (In_get _ _ _ (proj1 Hk) Hin) in G.
    injection G as G. congruence.
Qed.

(** C7. In a reachable store, for a stored tweet, [deleteTweet id] succeeds;
    afterwards [getTweetById id] is undefined, no mention row refers to
    [id] and [getTweetMentions id] is the empty list, while the mention
    rows of other tweets and the other tweets are all kept.  For an
    identifier that is not stored it throws the not-found error and leaves
    the store as it was. *)
Theorem C7_deleteTweet_cascade (s : MemStorage) (id : string) :
  (reachable s -> forall t, getTweetById s id = Some t ->
     exists s',
       deleteTweet id s = (inr tt, s')
       /\ getTweetById s' id = None
       /\ getTweetMentions s' id = []
       /\ (forall m, In m (JsMap.values (mentions s'))
                     <-> In m (JsMap.values (mentions s))
                         /\ Mention.tweetId m <> id)
       /\ (forall id', id' <> id -> getTweetById s' id' = getTweetById s id'))
  /\ (getTweetById s id = None ->
      deleteTweet id s = (inl TweetNotFoundError, s)).
Proof.
  unfold getTweetById. split.
  - intros Hreach t Hget. pose proof (reachable_wf _ Hreach) as Hwf.
    eexists. split.
    { rewrite deleteTweet_run. unfold JsMap.has. rewrite Hget. reflexivity. }
    simpl. split; [apply get_delete_same |].
    assert (Hspec := fun m =>
      deleteAll_mentions_spec id (mentions s) m (wf_mentions _ Hwf)).
    split; [| split; [exact Hspec |]].
    + unfold getTweetMentions. simpl.
      set (ms := deleteAll _ (mentions s)) in *.
      rewrite (filter_nil_iff _ (JsMap.values ms)); [reflexivity |].
      intros m Hin. apply Hspec in Hin as [_ Hne].
      now destruct (String.eqb_spec (Mention.tweetId m) id).
    + intros id' Hne. apply get_delete_other. congruence.
  - intros Hget. rewrite deleteTweet_run. unfold JsMap.has. now rewrite Hget.
Qed.

(** C10. [deleteTweet] touches the tweet map and the mention map only:
    whether it succeeds (as it does for a stored tweet) or throws, the
    engagement records and the stats rows are the ones stored before, so
    [getTweetStats] and [getUserEngagement] answer as they did, also for
    the deleted tweet. *)
Theorem C10_deleteTweet_keeps_engagements (s : MemStorage) (id : string) :
  engagements (snd (deleteTweet id s)) = engagements s
  /\ tweetStats (snd (deleteTweet id s)) = tweetStats s
  /\ (forall t, getTweetStats (snd (deleteTweet id s)) t = getTweetStats s t)
  /\ (forall u t, getUserEngagement (snd (deleteTweet id s)) u t
                  = getUserEngagement s u t)
  /\ (forall t, getTweetById s id = Some t ->
        fst (deleteTweet id s) = inr tt
        /\ getTweetById (snd (deleteTweet id s)) id = None).
Proof.
  rewrite deleteTweet_run. unfold getTweetStats, getUserEngagement, getTweetById.
  destruct (JsMap.has id (tweets s)) eqn:E; simpl; repeat split; auto.
  - apply get_delete_same.
  - unfold JsMap.has in E. rewrite H in E. discriminate.
  - unfold JsMap.has in E. rewrite H in E. discriminate.
Qed.

(** ** Engagements *)

Lemma EngagementType_eqb_eq a b : EngagementType_eqb a b = true <-> a = b.
Proof. destruct a, b; simpl; split; (reflexivity || discriminate). Qed.

Lemma sameEngagement_true u t ty e :
  sameEngagement u t ty e = true <->
  TweetEngagement.userId e = u /\ TweetEngagement.tweetId e = t
  /\ TweetEngagement.type e = ty.
Proof.
  unfold sameEngagement. rewrite !andb_true_iff, !String.eqb_eq.
  rewrite EngagementType_eqb_eq. tauto.
Qed.

Lemma find_sameEngagement_none s u t ty :
  find (sameEngagement u t ty) (JsMap.values (engagements s)) = None
  <-> ~ hasEngagement s u t ty.
Proof.
  split.
  - intros H [e [Hin He]]. apply sameEngagement_true in He.
    pose proof (find_none _ _ H _ Hin). congruence.
  - intros H.
    destruct (find (sameEngagement u t ty) (JsMap.values (engagements s)))
      eqn:E; [| reflexivity].
    exfalso. apply H. apply find_some in E as [Hin He].
    apply sameEngagement_true in He. now exists t0.
Qed.

Lemma engageWithTweet_duplicate u t ty id n c d e s :
  find (sameEngagement u t ty) (JsMap.values (engagements s)) = Some e ->
  engageWithTweet u t ty id n c d s = (inl (DuplicateEngagementError ty), s).
Proof. intros H. unfold engageWithTweet. run_M. now rewrite H. Qed.

Lemma counterOf_bump_same ty delta now st :
  counterOf ty (bumpStats ty delta now st)
  = Some (Z.max 0 (or0 (counterOf ty st) + delta)).
Proof. now destruct ty. Qed.

Lemma counterOf_bump_other ty ty' delta now st :
  ty' <> ty -> counterOf ty' (bumpStats ty delta now st) = counterOf ty' st.
Proof. destruct ty, ty'; simpl; congruence. Qed.

Lemma bumpStats_frame ty delta now st :
  TweetStats.tweetId (bumpStats ty delta now st) = TweetStats.tweetId st
  /\ TweetStats.replyCount (bumpStats ty delta now st)
     = TweetStats.replyCount st
  /\ TweetStats.impressionCount (bumpStats ty delta now st)
     = TweetStats.impressionCount st
  /\ TweetStats.updatedAt (bumpStats ty delta now st) = Some now.
Proof. now destruct ty. Qed.

Lemma counterOf_ok ty st : stats_counters_ok st -> counter_ok (counterOf ty st).
Proof. intros [H1 [H2 H3]]. now destruct ty. Qed.

Lemma EngagementType_eq_dec (a b : EngagementType) : a = b \/ a <> b.
Proof. destruct a, b; (now left) || (right; discriminate). Qed.

(** Engage, remove, engage again: the counters of the row after the third
    step are those after the first. *)
Lemma bump_bump_bump ty d1 d2 d3 st ty' :
  stats_counters_ok st ->
  counterOf ty' (bumpStats ty 1 d3 (bumpStats ty (-1) d2 (bumpStats ty 1 d1 st)))
  = counterOf ty' (bumpStats ty 1 d1 st).
Proof.
  intros Hok. destruct (EngagementType_eq_dec ty' ty) as [-> | Hne].
  - rewrite !counterOf_bump_same.
    destruct (counterOf_ok ty st Hok) as [n [-> Hn]]. simpl. f_equal. lia.
  - now rewrite !counterOf_bump_other.
Qed.

Lemma get_statsAfter t ty delta c n m :
  JsMap.get t (statsAfter t ty delta c n m)
  = Some (bumpStats ty delta n
            match JsMap.get t m with
            | Some stats => stats
            | None => zeroStats t c
            end).
Proof. unfold statsAfter. apply get_set_same. Qed.

Lemma find_removed_none {V} (p : V -> bool) k v (m : JsMap.t V) :
  find p (JsMap.values m) = None ->
  find p (JsMap.values (JsMap.delete k (JsMap.set k v m))) = None.
Proof.
  intros H.
  destruct (find p (JsMap.values (JsMap.delete k (JsMap.set k v m)))) eqn:E;
    [| reflexivity].
  apply find_some in E as [Hin Hp]. unfold JsMap.values in Hin.
  apply in_map_iff in Hin as [kv [<- Hin]].
  apply in_delete in Hin as [Hin Hne].
  apply in_set in Hin as [-> | Hin]; [now simpl in Hne |].
  assert (Hv : In (snd kv) (JsMap.values m)) by now apply in_map.
  pose proof (find_none _ _ H _ Hv). congruence.
Qed.

(** C4. [engageWithTweet u t type] throws the duplicate-engagement error
    exactly when a record for [(u, t, type)] is stored, and then leaves the
    store as it was.  Otherwise it succeeds, and a second call for the same
    triple fails with that error.  When the tweet had no stats row, the
    first engagement creates one whose counters are all zero but the
    engaged one, which is 1 ([createTweet] creates no row).  In a reachable
    store, after the successful engagement, [removeEngagement] succeeds,
    engaging again succeeds, and every counter of the tweet's stats row is
    then what it was after the first engagement. *)
Theorem C4_engagement_roundtrip (s : MemStorage) (u t : string)
    (ty : EngagementType) (id : string) (n c d : Z) :
  (fst (engageWithTweet u t ty id n c d s) = inl (DuplicateEngagementError ty)
   <-> hasEngagement s u t ty)
  /\ (forall e, fst (engageWithTweet u t ty id n c d s) = inl e ->
        e = DuplicateEngagementError ty
        /\ snd (engageWithTweet u t ty id n c d s) = s)
  /\ (~ hasEngagement s u t ty ->
      exists e1 s1,
        engageWithTweet u t ty id n c d s = (inr e1, s1)
        /\ hasEngagement s1 u t ty
        /\ (forall id' n' c' d',
              engageWithTweet u t ty id' n' c' d' s1
              = (inl (DuplicateEngagementError ty), s1))
        /\ (getTweetStats s t = None ->
            exists st1,
              getTweetStats s1 t = Some st1
              /\ TweetStats.tweetId st1 = t
              /\ counterOf ty st1 = Some 1
              /\ (forall ty', ty' <> ty -> counterOf ty' st1 = Some 0)
              /\ TweetStats.replyCount st1 = Some 0
              /\ TweetStats.impressionCount st1 = Some 0)
        /\ (reachable s -> forall c2 d2 id3 n3 c3 d3,
              exists s2 e3 s3 st1 st3,
                removeEngagement u t ty c2 d2 s1 = (inr tt, s2)
                /\ engageWithTweet u t ty id3 n3 c3 d3 s2 = (inr e3, s3)
                /\ getTweetStats s1 t = Some st1
                /\ getTweetStats s3 t = Some st3
                /\ (forall ty', counterOf ty' st3 = counterOf ty' st1)
                /\ TweetStats.replyCount st3 = TweetStats.replyCount st1
                /\ TweetStats.impressionCount st3
                   = TweetStats.impressionCount st1))
  /\ (forall tweetData authorId id' created updated,
        getTweetStats
          (snd (createTweet tweetData authorId id' created updated s)) t
        = getTweetStats s t).
Proof.
  destruct (find (sameEngagement u t ty) (JsMap.values (engagements s)))
    as [e0 |] eqn:Hfind.
  - (* a record is stored *)
    assert (Hhas : hasEngagement s u t ty).
    { apply find_some in Hfind as [Hin He].
      apply sameEngagement_true in He. now exists e0. }
    rewrite (engageWithTweet_duplicate _ _ _ id n c d _ _ Hfind). simpl.
    split; [tauto |]. split; [intros e [= <-]; auto |].
    split; [tauto | reflexivity].
  - (* no record is stored *)
    pose proof Hfind as Hno. apply find_sameEngagement_none in Hno.
    rewrite (engageWithTweet_run _ _ _ id n c d _ Hfind). simpl.
    split; [split; [discriminate | tauto] |].
    split; [discriminate |]. split; [| reflexivity].
    intros _. eexists. eexists. split; [reflexivity |].
    set (e1 := TweetEngagement.mk id t u ty (Some n)).
    set (s1 := mkStorage _ _ _ _ _ _).
    assert (Hfind1 :
      find (sameEngagement u t ty) (JsMap.values (engagements s1)) = Some e1).
    { simpl. apply find_values_set; [exact Hfind |].
      apply sameEngagement_true. auto. }
    split; [| split; [| split]].
    + exists e1. split; [apply in_values_set_new | auto].
    + intros id' n' c' d'. now apply (engageWithTweet_duplicate _ _ _ _ _ _ _ e1).
    + unfold getTweetStats. simpl. intros Hnone.
      rewrite get_statsAfter, Hnone. eexists. split; [reflexivity |].
      split; [now destruct ty |]. split; [now destruct ty |].
      split; [intros ty' Hne; destruct ty, ty'; simpl; congruence |].
      split; now destruct ty.
    + intros Hreach c2 d2 id3 n3 c3 d3.
      pose proof (reachable_wf _ Hreach) as Hwf.
      set (X := match JsMap.get t (tweetStats s) with
                | Some stats => stats
                | None => zeroStats t c
                end).
      assert (HX : stats_counters_ok X).
      { unfold X. destruct (JsMap.get t (tweetStats s)) eqn:G.
        - pose proof (wf_stats_counters _ Hwf) as H.
          rewrite Forall_forall in H. apply H. now apply get_In_values in G.
        - apply stats_ok_zero. }
      eexists. eexists. eexists. eexists. eexists.
      split; [apply (removeEngagement_run _ _ _ _ _ _ _ Hfind1) |].
      split.
      { apply engageWithTweet_run. simpl. now apply find_removed_none. }
      unfold getTweetStats. simpl.
      split; [apply get_statsAfter |].
      split; [rewrite !get_statsAfter; reflexivity |].
      fold X. split; [intros ty'; now apply bump_bump_bump |].
      split; now destruct ty.
Qed.

(** ** Mentions at tweet creation *)

Lemma getUserByUsername_some s name u :
  getUserByUsername s name = Some u ->
  In u (JsMap.values (users s)) /\ User.username u = name.
Proof.
  unfold getUserByUsername. intros H. apply find_some in H as [Hin Hn].
  now apply String.eqb_eq in Hn.
Qed.

Lemma getUserByUsername_none s name :
  getUserByUsername s name = None <-> ~ registeredUsername s name.
Proof.
  unfold getUserByUsername, registeredUsername. split.
  - intros H [u [Hin Hn]]. pose proof (find_none _ _ H _ Hin) as Hp.
    simpl in Hp. rewrite Hn, String.eqb_refl in Hp. discriminate.
  - intros H.
    destruct (find (fun user => User.username user =s name)
                   (JsMap.values (users s))) eqn:E; [| reflexivity].
    exfalso. apply H. exists t. apply find_some in E as [Hin Hn].
    now apply String.eqb_eq in Hn.
Qed.

Lemma postTweets_hello_bob_run s reqUserId id created updated uuid date :
  postTweets "Hello @bob" reqUserId id created updated uuid date s =
  let tweet :=
    Tweet.mk id "Hello @bob" reqUserId None (Some false) None None None
             (Some created) (Some updated) None in
  let s1 := set_tweets (JsMap.set id tweet) s in
  match getUserByUsername s "bob" with
  | Some bob =>
      (Created tweet (getUser s1 reqUserId) ["bob"%string],
       set_mentions
         (JsMap.set (uuid 0%nat)
            (Mention.mk (uuid 0%nat) id (User.id bob) (Some (date 0%nat))))
         s1)
  | None => (Created tweet (getUser s1 reqUserId) ["bob"%string], s1)
  end.
Proof.
  unfold postTweets, postTweets_try, insertTweetSchema_parse. simpl.
  unfold createTweet, createMention. run_M. run_M.
  unfold getUserByUsername. simpl.
  destruct (find (fun user => User.username user =s "bob")
                 (JsMap.values (users s))); reflexivity.
Qed.

(** C5. Posting a tweet with content "Hello @bob": the response is the
    created tweet (stored under the new identifier) with the display
    mention list ["bob"] in either case.  If bob is the username of a
    stored user, the mention map gains exactly one row, for the new tweet
    and the identifier of the user the username lookup returns; if no
    stored user is called bob, the mention map is unchanged. *)
Theorem C5_postTweets_hello_bob (s : MemStorage) (reqUserId id : string)
    (created updated : Z) (uuid : nat -> string) (date : nat -> Z) :
  (registeredUsername s "bob" ->
   JsMap.get (uuid 0%nat) (mentions s) = None ->
   exists bob tweet author s',
     getUserByUsername s "bob" = Some bob
     /\ In bob (JsMap.values (users s)) /\ User.username bob = "bob"%string
     /\ postTweets "Hello @bob" reqUserId id created updated uuid date s
        = (Created tweet author ["bob"%string], s')
     /\ Tweet.id tweet = id
     /\ Tweet.content tweet = "Hello @bob"%string
     /\ getTweetById s' id = Some tweet
     /\ mentions s'
        = mentions s
          ++ [(uuid 0%nat,
               Mention.mk (uuid 0%nat) id (User.id bob) (Some (date 0%nat)))])
  /\ (~ registeredUsername s "bob" ->
      exists tweet author s',
        postTweets "Hello @bob" reqUserId id created updated uuid date s
        = (Created tweet author ["bob"%string], s')
        /\ Tweet.id tweet = id
        /\ Tweet.content tweet = "Hello @bob"%string
        /\ getTweetById s' id = Some tweet
        /\ mentions s' = mentions s
        /\ In "bob"%string (extractMentionsFromContent (Tweet.content tweet))).
Proof.
  rewrite postTweets_hello_bob_run. split.
  - intros Hreg Hfresh.
    destruct (getUserByUsername s "bob") as [bob |] eqn:Hbob.
    2:{ now apply getUserByUsername_none in Hbob. }
    destruct (getUserByUsername_some _ _ _ Hbob) as [Hin Hname].
    exists bob. eexists. eexists. eexists.
    split; [reflexivity |]. split; [exact Hin |]. split; [exact Hname |].
    split; [reflexivity |]. simpl. split; [reflexivity |].
    split; [reflexivity |].
    unfold getTweetById. simpl. split; [apply get_set_same |].
    now apply set_fresh.
  - intros Hno. apply getUserByUsername_none in Hno. rewrite Hno.
    eexists. eexists. eexists.
    split; [reflexivity |]. simpl. split; [reflexivity |].
    split; [reflexivity |].
    unfold getTweetById. simpl. split; [apply get_set_same |].
    split; [reflexivity | now left].
Qed.

(** ** Sorting and deduplication *)

Section SortFacts.
Context {A : Type} (cmp : A -> A -> Z).

Lemma sort_insert_perm x l : Permutation (x :: l) (sort_insert cmp x l).
Proof.
  induction l as [| y l IH]; simpl; [apply Permutation_refl |].
  destruct (cmp x y <=? 0); [apply Permutation_refl |].
  eapply perm_trans; [apply perm_swap |]. now apply perm_skip.
Qed.

Lemma js_sort_perm l : Permutation l (js_sort cmp l).
Proof.
  induction l as [| x l IH]; simpl; [constructor |].
  eapply perm_trans; [| apply sort_insert_perm]. now apply perm_skip.
Qed.

Lemma js_sort_In x l : In x (js_sort cmp l) <-> In x l.
Proof.
  split; apply Permutation_in;
    [apply Permutation_sym |]; apply js_sort_perm.
Qed.

End SortFacts.

Section SortByKey.
Context {A : Type} (key : A -> Z).
Let cmp (a b : A) : Z := key b - key a.
Let desc (a b : A) : Prop := key b <= key a.

Lemma sort_insert_sorted x l :
  StronglySorted desc l -> StronglySorted desc (sort_insert cmp x l).
Proof.
  induction 1 as [| y l Hs IH Hall]; simpl.
  - constructor; constructor.
  - unfold cmp at 1. destruct (Z.leb_spec (key y - key x) 0) as [Hle | Hgt].
    + constructor; [now constructor |].
      constructor; [unfold desc; lia |].
      rewrite Forall_forall in *. intros z Hz. specialize (Hall z Hz).
      unfold desc in *. lia.
    + constructor; [exact IH |].
      rewrite Forall_forall in *. intros z Hz.
      apply (Permutation_in _ (Permutation_sym (sort_insert_perm cmp x l)))
        in Hz.
      destruct Hz as [<- | Hz]; [unfold desc; lia | now apply Hall].
Qed.

Lemma js_sort_sorted l : StronglySorted desc (js_sort cmp l).
Proof.
  induction l as [| x l IH]; simpl; [constructor |].
  now apply sort_insert_sorted.
Qed.

End SortByKey.

Section DedupFacts.
Context {A : Type} (idOf : A -> string).

Lemma existsb_eqb_In k (seen : list string) :
  existsb (String.eqb k) seen = true <-> In k seen.
Proof.
  rewrite existsb_exists. split.
  - intros [x [Hin Hx]]. apply String.eqb_eq in Hx. now subst.
  - intros H. exists k. split; [exact H | apply String.eqb_refl].
Qed.

Lemma findIndex_from_skip (p : A -> bool) pre suf i :
  (forall y, In y pre -> p y = false) ->
  findIndex_from p (pre ++ suf) i
  = findIndex_from p suf (i + Z.of_nat (List.length pre)).
Proof.
  revert i. induction pre as [| x pre IH]; intros i H.
  - simpl. f_equal. lia.
  - simpl app. simpl findIndex_from. rewrite (H x) by now left.
    rewrite IH by (intros y Hy; apply H; now right).
    f_equal. simpl List.length. lia.
Qed.

Lemma findIndex_from_hit (p : A -> bool) pre suf i x :
  In x pre -> p x = true ->
  i <= findIndex_from p (pre ++ suf) i < i + Z.of_nat (List.length pre).
Proof.
  revert i. induction pre as [| y pre IH]; intros i Hin Hp; [destruct Hin |].
  simpl app. simpl findIndex_from. simpl List.length.
  destruct (p y) eqn:Ey; [lia |].
  destruct Hin as [-> | Hin]; [congruence |].
  specialize (IH (i + 1) Hin Hp). lia.
Qed.

(** The [filter]/[findIndex] idiom keeps the first element of each
    identifier. *)
Lemma filter_index_dedup pre suf :
  filter_index_from
    (fun x i => i =? findIndex (fun y => idOf y =s idOf x) (pre ++ suf))
    suf (Z.of_nat (List.length pre))
  = dedupBy idOf (map idOf pre) suf.
Proof.
  revert pre. induction suf as [| x suf IH]; intros pre; [reflexivity |].
  simpl.
  assert (Hnext :
    filter_index_from
      (fun x0 i => i =? findIndex (fun y => idOf y =s idOf x0)
                                  (pre ++ x :: suf))
      suf (Z.of_nat (List.length pre) + 1)
    = dedupBy idOf (map idOf pre ++ [idOf x]) suf).
  { specialize (IH (pre ++ [x])).
    rewrite <- app_assoc, length_app, map_app in IH. simpl in IH.
    rewrite <- IH. f_equal. lia. }
  rewrite Hnext.
  destruct (existsb (String.eqb (idOf x)) (map idOf pre)) eqn:E.
  - apply existsb_eqb_In in E. apply in_map_iff in E as [y [Hy Hin]].
    assert (Hp : (idOf y =s idOf x) = true)
      by (rewrite Hy; apply String.eqb_refl).
    pose proof (findIndex_from_hit (fun z => idOf z =s idOf x) pre
                  (x :: suf) 0 y Hin Hp) as Hhit.
    unfold findIndex.
    destruct (Z.eqb_spec (Z.of_nat (List.length pre))
                (findIndex_from (fun y0 => idOf y0 =s idOf x)
                                (pre ++ x :: suf) 0)); [lia | reflexivity].
  - assert (Hnone : forall y, In y pre -> (idOf y =s idOf x) = false).
    { intros y Hy. destruct (String.eqb_spec (idOf y) (idOf x)) as [Heq |];
        [| reflexivity].
      assert (Hin : In (idOf x) (map idOf pre))
        by (rewrite <- Heq; now apply in_map).
      apply existsb_eqb_In in Hin. congruence. }
    unfold findIndex.
    rewrite (findIndex_from_skip _ pre (x :: suf) 0 Hnone). simpl.
    now rewrite String.eqb_refl, Z.eqb_refl.
Qed.

Lemma filter_index_is_dedup l :
  filter_index
    (fun x i => i =? findIndex (fun y => idOf y =s idOf x) l) l
  = dedupBy idOf [] l.
Proof. exact (filter_index_dedup [] l). Qed.

Lemma dedupBy_In seen l x :
  In x (dedupBy idOf seen l) -> In x l /\ ~ In (idOf x) seen.
Proof.
  revert seen. induction l as [| y l IH]; intros seen; simpl; [tauto |].
  destruct (existsb (String.eqb (idOf y)) seen) eqn:E.
  - intros H. apply IH in H as [H1 H2]. split; [now right |].
    intros Hs. apply H2. apply in_or_app. now left.
  - intros [<- | H].
    + split; [now left |]. intros Hs. apply existsb_eqb_In in Hs. congruence.
    + apply IH in H as [H1 H2]. split; [now right |].
      intros Hs. apply H2. apply in_or_app. now left.
Qed.

Lemma dedupBy_NoDup seen l : NoDup (map idOf (dedupBy idOf seen l)).
Proof.
  revert seen. induction l as [| y l IH]; intros seen; simpl; [constructor |].
  destruct (existsb (String.eqb (idOf y)) seen); [apply IH |].
  simpl. constructor; [| apply IH].
  intros Hin. apply in_map_iff in Hin as [z [Hz Hin]].
  apply dedupBy_In in Hin as [_ Hno]. apply Hno. rewrite Hz.
  apply in_or_app. right. now left.
Qed.

(** Every identifier of the list that is not yet seen keeps a
    representative. *)
Lemma dedupBy_covers seen l x :
  In x l -> ~ In (idOf x) seen ->
  exists y, In y (dedupBy idOf seen l) /\ idOf y = idOf x.
Proof.
  revert seen. induction l as [| z l IH]; intros seen Hin Hno; [destruct Hin |].
  simpl. destruct (String.eqb_spec (idOf z) (idOf x)) as [Heq | Hne].
  - rewrite Heq.
    destruct (existsb (String.eqb (idOf x)) seen) eqn:E.
    + apply existsb_eqb_In in E. contradiction.
    + exists z. split; [now left | exact Heq].
  - destruct Hin as [-> | Hin]; [congruence |].
    assert (Hno' : ~ In (idOf x) (seen ++ [idOf z])).
    { intros H. apply in_app_or in H as [H | [H | []]]; congruence. }
    destruct (IH _ Hin Hno') as [y [Hy Hid]].
    exists y. split; [| exact Hid].
    destruct (existsb (String.eqb (idOf z)) seen); [exact Hy | now right].
Qed.

Lemma NoDup_map_inj l x y :
  NoDup (map idOf l) -> In x l -> In y l -> idOf x = idOf y -> x = y.
Proof.
  induction l as [| z l IH]; simpl; [tauto |].
  intros Hnd Hx Hy Heq. inversion Hnd as [| ? ? Hnot Hnd']; subst.
  destruct Hx as [-> | Hx], Hy as [-> | Hy]; auto.
  - exfalso. apply Hnot. rewrite Heq. now apply in_map.
  - exfalso. apply Hnot. rewrite <- Heq. now apply in_map.
Qed.

End DedupFacts.

(** ** The timeline *)

Lemma push_loop_joinAuthors s l acc :
  fold_left
    (fun acc tweet =>
       match getUser s (Tweet.authorId tweet) with
       | Some author =>
           acc ++ [TweetWithAuthor.mk tweet author
                     (extractMentionsFromContent (Tweet.content tweet))]
       | None => acc
       end) l acc
  = acc ++ joinAuthors s l.
Proof.
  revert acc. induction l as [| t l IH]; intros acc; simpl.
  - now rewrite app_nil_r.
  - rewrite IH. destruct (getUser s (Tweet.authorId t)); simpl;
      [now rewrite <- app_assoc | reflexivity].
Qed.

Lemma getAllTweets_joinAuthors s :
  getAllTweets s
  = js_sort byCreatedAtDesc (joinAuthors s (JsMap.values (tweets s))).
Proof. unfold getAllTweets. now rewrite push_loop_joinAuthors. Qed.

Lemma joinAuthors_In s l tw :
  In tw (joinAuthors s l) <->
  exists t a, In t l /\ getUser s (Tweet.authorId t) = Some a
              /\ tw = TweetWithAuthor.mk t a
                        (extractMentionsFromContent (Tweet.content t)).
Proof.
  unfold joinAuthors. rewrite in_flat_map. split.
  - intros [t [Hin Htw]].
    destruct (getUser s (Tweet.authorId t)) as [a |] eqn:E; [| destruct Htw].
    destruct Htw as [<- | []]. now exists t, a.
  - intros [t [a [Hin [Ha ->]]]]. exists t. split; [exact Hin |].
    rewrite Ha. now left.
Qed.

Lemma joinAuthors_NoDup s l :
  NoDup (map Tweet.id l) -> NoDup (map TweetWithAuthor.id (joinAuthors s l)).
Proof.
  induction l as [| t l IH]; simpl; intros H; [constructor |].
  inversion H as [| ? ? Hnot Hnd]; subst.
  destruct (getUser s (Tweet.authorId t)); simpl; [| now apply IH].
  constructor; [| now apply IH].
  intros Hin. apply Hnot. apply in_map_iff in Hin as [tw [Hid Hin]].
  apply joinAuthors_In in Hin as [t' [a [Hin [_ ->]]]].
  unfold TweetWithAuthor.id in Hid. simpl in Hid. rewrite <- Hid.
  now apply in_map.
Qed.

Lemma keyed_ids {V} (idOf : V -> string) (m : JsMap.t V) :
  keyed idOf m -> map idOf (JsMap.values m) = JsMap.keys m.
Proof.
  intros [_ Hall]. unfold JsMap.values, JsMap.keys. rewrite map_map.
  apply map_ext_in. intros kv Hin. rewrite Forall_forall in Hall.
  now apply Hall.
Qed.

Lemma getAllTweets_In s tw :
  wf s ->
  (In tw (getAllTweets s) <->
   exists t a, getTweetById s (Tweet.id t) = Some t
               /\ getUser s (Tweet.authorId t) = Some a
               /\ tw = TweetWithAuthor.mk t a
                         (extractMentionsFromContent (Tweet.content t))).
Proof.
  intros Hwf. rewrite getAllTweets_joinAuthors, js_sort_In, joinAuthors_In.
  unfold getTweetById.
  split; intros [t [a [Ht Hrest]]]; exists t, a; (split; [| exact Hrest]).
  - now apply (keyed_get Tweet.id _ _ (wf_tweets _ Hwf)).
  - now apply get_In_values in Ht.
Qed.

Lemma getAllTweets_NoDup s :
  wf s -> NoDup (map TweetWithAuthor.id (getAllTweets s)).
Proof.
  intros Hwf. rewrite getAllTweets_joinAuthors.
  eapply Permutation_NoDup.
  - apply Permutation_map. apply js_sort_perm.
  - apply joinAuthors_NoDup.
    rewrite (keyed_ids _ _ (wf_tweets _ Hwf)). apply (wf_tweets _ Hwf).
Qed.

Lemma getUserTimeline_dedup s X :
  getUserTimeline s X
  = js_sort byCreatedAtDesc
      (dedupBy TweetWithAuthor.id []
         (filter (fun tweet => TweetWithAuthor.authorId tweet =s X)
                 (getAllTweets s)
          ++ filter (fun tweet =>
                       existsb (mentionResolvesTo s X)
                               (TweetWithAuthor.mentions tweet))
                    (getAllTweets s))).
Proof.
  unfold getUserTimeline. f_equal.
  apply (filter_index_is_dedup TweetWithAuthor.id).
Qed.

Lemma mentionResolvesTo_true s X token :
  mentionResolvesTo s X token = true <->
  exists u, getUserByUsername s token = Some u /\ User.id u = X.
Proof.
  unfold mentionResolvesTo, getUserByUsername.
  destruct (find (fun u => User.username u =s token)
                 (JsMap.values (users s))) as [u |].
  - rewrite String.eqb_eq. split.
    + intros H. now exists u.
    + now intros [u' [[= <-] H]].
  - split; [discriminate | now intros [u' [H _]]].
Qed.

Lemma timeline_In s X tw :
  wf s ->
  (In tw (getUserTimeline s X) <->
   In tw (getAllTweets s)
   /\ (TweetWithAuthor.authorId tw = X
       \/ exists token u, In token (TweetWithAuthor.mentions tw)
                          /\ getUserByUsername s token = Some u
                          /\ User.id u = X)).
Proof.
  intros Hwf. rewrite getUserTimeline_dedup, js_sort_In.
  set (byAuthor := fun tweet => TweetWithAuthor.authorId tweet =s X).
  set (byMention := fun tweet =>
         existsb (mentionResolvesTo s X) (TweetWithAuthor.mentions tweet)).
  set (timeline := filter byAuthor (getAllTweets s)
                   ++ filter byMention (getAllTweets s)).
  assert (Htl : forall x, In x timeline <->
            In x (getAllTweets s)
            /\ (TweetWithAuthor.authorId x = X
                \/ exists token u, In token (TweetWithAuthor.mentions x)
                                   /\ getUserByUsername s token = Some u
                                   /\ User.id u = X)).
  { intros x. unfold timeline. rewrite in_app_iff, !filter_In.
    unfold byAuthor, byMention. rewrite String.eqb_eq, existsb_exists.
    split.
    - intros [[H1 H2] | [H1 [token [Hin Hres]]]]; (split; [exact H1 |]).
      + now left.
      + right. apply mentionResolvesTo_true in Hres as [u [Hu Hid]].
        now exists token, u.
    - intros [H1 [H2 | [token [u [Hin [Hu Hid]]]]]].
      + left. now split.
      + right. split; [exact H1 |]. exists token. split; [exact Hin |].
        apply mentionResolvesTo_true. now exists u. }
  rewrite <- Htl. split.
  - intros H. now apply dedupBy_In in H.
  - intros H.
    destruct (dedupBy_covers TweetWithAuthor.id [] timeline tw H)
      as [y [Hy Hid]]; [intros [] |].
    pose proof (dedupBy_In _ _ _ _ Hy) as [Hyt _].
    assert (y = tw) as <-; [| exact Hy].
    apply (NoDup_map_inj TweetWithAuthor.id (getAllTweets s));
      [now apply getAllTweets_NoDup | | | exact Hid].
    + now apply Htl in Hyt.
    + now apply Htl in H.
Qed.

Lemma resolves_unique_username s X uX tokens :
  wf s -> unique_usernames s -> getUser s X = Some uX ->
  ((exists token u, In token tokens /\ getUserByUsername s token = Some u
                    /\ User.id u = X)
   <-> In (User.username uX) tokens).
Proof.
  intros Hwf Huniq HX. unfold getUser in HX.
  pose proof (get_In_values _ _ _ HX) as HinX. split.
  - intros [token [u [Hin [Hu Hid]]]].
    apply getUserByUsername_some in Hu as [Hinu Hname].
    pose proof (keyed_get User.id _ _ (wf_users _ Hwf) Hinu) as G.
    rewrite Hid, HX in G. injection G as ->. now rewrite Hname.
  - intros Hin. exists (User.username uX).
    destruct (getUserByUsername s (User.username uX)) as [u |] eqn:E.
    + exists u. split; [exact Hin |]. split; [reflexivity |].
      apply getUserByUsername_some in E as [Hinu Hname].
      rewrite (Huniq _ _ Hinu HinX Hname).
      now apply (keyed_get_id _ _ _ _ (wf_users _ Hwf)).
    + exfalso. apply getUserByUsername_none in E. apply E. now exists uX.
Qed.

Lemma reachable_execs ops s :
  reachable s -> all_fresh ops s = true -> reachable (execs ops s).
Proof.
  revert s. induction ops as [| op ops IH]; intros s Hs Hf; simpl in *;
    [exact Hs |].
  apply andb_true_iff in Hf as [Hf1 Hf2].
  apply IH; [now apply reachable_step | exact Hf2].
Qed.

Lemma demo_reachable : reachable demo.
Proof. apply reachable_execs; [apply reachable_new | reflexivity]. Qed.

Lemma twoBobs_reachable : reachable twoBobs.
Proof. apply reachable_execs; [apply reachable_new | reflexivity]. Qed.

(** C1, as amended. In a reachable store, [getUserTimeline X] holds exactly
    the joined tweets of [getAllTweets] (the stored tweets whose author is
    stored, with the author and the extracted tokens) that [X] authored or
    one of whose tokens the username lookup resolves to a user with
    identifier [X]; no tweet identifier occurs twice; the list is in
    descending order of creation time.  When usernames are unique among
    the stored users and [X] is registered, a token resolves to [X] exactly
    when it is [X]'s username. *)
Theorem C1_timeline (s : MemStorage) (X : string) :
  reachable s ->
  (forall tw,
     In tw (getUserTimeline s X) <->
     In tw (getAllTweets s)
     /\ (TweetWithAuthor.authorId tw = X
         \/ exists token u, In token (TweetWithAuthor.mentions tw)
                            /\ getUserByUsername s token = Some u
                            /\ User.id u = X))
  /\ (forall tw,
        In tw (getAllTweets s) <->
        exists t a, getTweetById s (Tweet.id t) = Some t
                    /\ getUser s (Tweet.authorId t) = Some a
                    /\ tw = TweetWithAuthor.mk t a
                              (extractMentionsFromContent (Tweet.content t)))
  /\ NoDup (map TweetWithAuthor.id (getUserTimeline s X))
  /\ StronglySorted newerFirst (getUserTimeline s X)
  /\ (unique_usernames s -> forall uX, getUser s X = Some uX ->
      forall tw,
        In tw (getUserTimeline s X) <->
        In tw (getAllTweets s)
        /\ (TweetWithAuthor.authorId tw = X
            \/ In (User.username uX) (TweetWithAuthor.mentions tw))).
Proof.
  intros Hreach. pose proof (reachable_wf _ Hreach) as Hwf.
  split; [intros tw; now apply timeline_In |].
  split; [intros tw; now apply getAllTweets_In |].
  split; [| split].
  - rewrite getUserTimeline_dedup. eapply Permutation_NoDup.
    + apply Permutation_map. apply js_sort_perm.
    + apply dedupBy_NoDup.
  - rewrite getUserTimeline_dedup. apply (js_sort_sorted createdTime).
  - intros Huniq uX HX tw. rewrite (timeline_In _ _ _ Hwf).
    now rewrite (resolves_unique_username s X uX _ Hwf Huniq HX).
Qed.

(** C1 as stated fails where two stored users share a username: the later
    bob (u2) is registered, carol's tweet is in [getAllTweets] and carries
    the token "bob", yet the timeline of u2 is empty, because the lookup
    resolves the token to the earlier bob (u1). *)
Lemma C1_counterexample_shared_username :
  reachable twoBobs
  /\ exists uX tw,
       getUser twoBobs "u2" = Some uX
       /\ User.username uX = "bob"%string
       /\ In tw (getAllTweets twoBobs)
       /\ TweetWithAuthor.content tw = "Hello @bob"%string
       /\ In (User.username uX)
             (extractMentionsFromContent (TweetWithAuthor.content tw))
       /\ ~ In tw (getUserTimeline twoBobs "u2").
Proof.
  split; [apply twoBobs_reachable |].
  eexists. eexists. split; [reflexivity |]. split; [reflexivity |].
  split; [left; reflexivity |]. split; [reflexivity |].
  split; [left; reflexivity |]. intros [].
Qed.

Lemma demo_unique_usernames : unique_usernames demo.
Proof.
  intros u v Hu Hv. simpl in Hu, Hv.
  destruct Hu as [<- | [<- | []]]; destruct Hv as [<- | [<- | []]];
    simpl; (reflexivity || discriminate).
Qed.

Lemma C1_witness :
  reachable demo /\ unique_usernames demo
  /\ map TweetWithAuthor.id (getUserTimeline demo "u2") = ["t1"%string]
  /\ NoDup (map TweetWithAuthor.id (getUserTimeline demo "u2"))
  /\ StronglySorted newerFirst (getUserTimeline demo "u2")
  /\ (forall tw,
        In tw (getUserTimeline demo "u2") <->
        In tw (getAllTweets demo)
        /\ (TweetWithAuthor.authorId tw = "u2"%string
            \/ In "bob"%string (TweetWithAuthor.mentions tw))).
Proof.
  split; [apply demo_reachable |]. split; [apply demo_unique_usernames |].
  split; [reflexivity |].
  destruct (C1_timeline demo "u2" demo_reachable) as [_ [_ [H1 [H2 H3]]]].
  split; [exact H1 |]. split; [exact H2 |].
  exact (H3 demo_unique_usernames _ eq_refl).
Defined.

(** ** The theorems at the example store *)

Lemma demo_no_edge_u1_u2 : ~ hasEdge demo "u1" "u2".
Proof.
  intros [f [Hin [Ha Hb]]]. simpl in Hin.
  destruct Hin as [<- | []]. discriminate.
Qed.

Lemma demo_edge_u2_u1 : hasEdge demo "u2" "u1".
Proof. eexists. split; [left; reflexivity | split; reflexivity]. Qed.

Lemma edgeBeforeUser_reachable : reachable edgeBeforeUser.
Proof. apply reachable_execs; [apply reachable_new | reflexivity]. Qed.

Lemma C2_witness :
  reachable demo /\ ~ hasEdge demo "u1" "u2"
  /\ (exists f s1 s2,
        followUser "u1" "u2" "f2" 6000 demo = (inr f, s1)
        /\ unfollowUser "u1" "u2" s1 = (inr tt, s2)
        /\ users s2 = users demo)
  /\ reachable edgeBeforeUser
  /\ (exists ua s' ua',
        getUser edgeBeforeUser "u1" = Some ua
        /\ User.followingCount ua = Some 0
        /\ unfollowUser "u1" "u2" edgeBeforeUser = (inr tt, s')
        /\ getUser s' "u1" = Some ua'
        /\ User.followingCount ua' = Some 0).
Proof.
  split; [apply demo_reachable |]. split; [apply demo_no_edge_u1_u2 |]. split.
  - destruct (C2_follow_unfollow_counters demo demo_reachable) as [H _].
    destruct (H "u1"%string "u2"%string _ _ "f2"%string 6000 eq_refl eq_refl
                ltac:(discriminate) demo_no_edge_u1_u2)
      as (n & m & f & s1 & ua1 & ub1 & s2
          & _ & _ & H1 & _ & _ & _ & _ & H2 & H3).
    exists f, s1, s2. auto.
  - split; [apply edgeBeforeUser_reachable |].
    destruct (C2_follow_unfollow_counters edgeBeforeUser
                edgeBeforeUser_reachable) as [_ [H _]].
    assert (E : unfollowUser "u1" "u2" edgeBeforeUser
                = (inr tt, snd (unfollowUser "u1" "u2" edgeBeforeUser)))
      by reflexivity.
    destruct (H "u1"%string "u2"%string _ E) as [Ha _].
    assert (G : exists ua, getUser edgeBeforeUser "u1" = Some ua
                           /\ User.followingCount ua = Some 0)
      by (eexists; split; reflexivity).
    destruct G as (ua & G1 & G2).
    destruct (Ha ua G1) as (ua' & H1 & H2).
    rewrite G2 in H2. exists ua. eexists. exists ua'.
    split; [exact G1 |]. split; [exact G2 |].
    split; [exact E |]. split; [exact H1 | exact H2].
Defined.

Lemma C3_witness :
  reachable demo /\ hasEdge demo "u2" "u1" /\ ~ hasEdge demo "u1" "u2"
  /\ JsMap.get "f2"%string (follows demo) = None
  /\ (exists s', unfollowUser "u2" "u1" demo = (inr tt, s')
                 /\ ~ hasEdge s' "u2" "u1")
  /\ (exists s',
        followUser "u1" "u2" "f2" 6000 demo
        = (inr (Follow.mk "f2" "u1" "u2" (Some 6000)), s')
        /\ follows s'
           = follows demo
             ++ [("f2"%string, Follow.mk "f2" "u1" "u2" (Some 6000))]).
Proof.
  split; [apply demo_reachable |]. split; [apply demo_edge_u2_u1 |].
  split; [apply demo_no_edge_u1_u2 |]. split; [reflexivity |]. split.
  - destruct (C3_follow_unfollow_errors demo "u2" "u1" "f2" 6000)
      as (_ & _ & _ & _ & _ & _ & H & _).
    destruct (H demo_reachable demo_edge_u2_u1) as (s' & H1 & H2 & _).
    exists s'. auto.
  - destruct (C3_follow_unfollow_errors demo "u1" "u2" "f2" 6000)
      as (_ & _ & _ & H & _).
    destruct (H ltac:(discriminate) demo_no_edge_u1_u2) as (s' & H1 & _ & H2).
    exists s'. split; [exact H1 | exact (H2 eq_refl)].
Defined.

Lemma demo_no_retweet : ~ hasEngagement demo "u2" "t1" retweet.
Proof.
  intros [e [Hin [_ [_ Hty]]]]. simpl in Hin.
  destruct Hin as [<- | []]. discriminate.
Qed.

Lemma demo_no_like_t9 : ~ hasEngagement demo "u1" "t9" like.
Proof.
  intros [e [Hin [Hu _]]]. simpl in Hin.
  destruct Hin as [<- | []]. discriminate.
Qed.

Lemma C4_witness :
  reachable demo /\ ~ hasEngagement demo "u2" "t1" retweet
  /\ ~ hasEngagement demo "u1" "t9" like
  /\ getTweetStats demo "t9" = None
  /\ (exists e1 s1 s2 e3 s3 st1 st3,
        engageWithTweet "u2" "t1" retweet "e2" 6000 6000 6001 demo
        = (inr e1, s1)
        /\ engageWithTweet "u2" "t1" retweet "e3" 7000 7000 7001 s1
           = (inl (DuplicateEngagementError retweet), s1)
        /\ removeEngagement "u2" "t1" retweet 7000 7001 s1 = (inr tt, s2)
        /\ engageWithTweet "u2" "t1" retweet "e3" 8000 8000 8001 s2
           = (inr e3, s3)
        /\ getTweetStats s1 "t1" = Some st1
        /\ getTweetStats s3 "t1" = Some st3
        /\ (forall ty', counterOf ty' st3 = counterOf ty' st1))
  /\ (exists e1 s1 st1,
        engageWithTweet "u1" "t9" like "e2" 6000 6000 6001 demo = (inr e1, s1)
        /\ getTweetStats s1 "t9" = Some st1
        /\ counterOf like st1 = Some 1
        /\ TweetStats.replyCount st1 = Some 0).
Proof.
  split; [apply demo_reachable |]. split; [apply demo_no_retweet |].
  split; [apply demo_no_like_t9 |]. split; [reflexivity |]. split.
  - destruct (C4_engagement_roundtrip demo "u2" "t1" retweet "e2"
                6000 6000 6001) as (_ & _ & H & _).
    destruct (H demo_no_retweet) as (e1 & s1 & H1 & _ & H2 & _ & H3).
    destruct (H3 demo_reachable 7000 7001 "e3"%string 8000 8000 8001)
      as (s2 & e3 & s3 & st1 & st3 & H4 & H5 & H6 & H7 & H8 & _).
    exists e1, s1, s2, e3, s3, st1, st3. repeat split; auto.
  - destruct (C4_engagement_roundtrip demo "u1" "t9" like "e2"
                6000 6000 6001) as (_ & _ & H & _).
    destruct (H demo_no_like_t9) as (e1 & s1 & H1 & _ & _ & H2 & _).
    destruct (H2 eq_refl) as (st1 & H3 & _ & H4 & _ & H5 & _).
    exists e1, s1, st1. auto.
Defined.

Lemma demo_bob_registered : registeredUsername demo "bob".
Proof. eexists. split; [right; left; reflexivity | reflexivity]. Qed.

Lemma onlyAlice_bob_unregistered :
  ~ registeredUsername (onlyAlice "hashA") "bob".
Proof.
  intros [u [Hin Hname]]. simpl in Hin.
  destruct Hin as [<- | []]. discriminate.
Qed.

Lemma C5_witness :
  registeredUsername demo "bob"
  /\ JsMap.get "m2"%string (mentions demo) = None
  /\ ~ registeredUsername (onlyAlice "hashA") "bob"
  /\ (exists bob tweet author s',
        postTweets "Hello @bob" "u1" "t2" 6000 6000 (fun _ => "m2"%string)
                   (fun _ => 6001) demo
        = (Created tweet author ["bob"%string], s')
        /\ mentions s'
           = mentions demo
             ++ [("m2"%string,
                  Mention.mk "m2" "t2" (User.id bob) (Some 6001))])
  /\ (exists tweet author s',
        postTweets "Hello @bob" "u1" "t2" 6000 6000 (fun _ => "m2"%string)
                   (fun _ => 6001) (onlyAlice "hashA")
        = (Created tweet author ["bob"%string], s')
        /\ mentions s' = mentions (onlyAlice "hashA")).
Proof.
  split; [apply demo_bob_registered |]. split; [reflexivity |].
  split; [apply onlyAlice_bob_unregistered |]. split.
  - destruct (C5_postTweets_hello_bob demo "u1" "t2" 6000 6000
                (fun _ => "m2"%string) (fun _ => 6001)) as [H _].
    destruct (H demo_bob_registered eq_refl)
      as (bob & tweet & author & s' & _ & _ & _ & H1 & _ & _ & _ & H2).
    exists bob, tweet, author, s'. auto.
  - destruct (C5_postTweets_hello_bob (onlyAlice "hashA") "u1" "t2" 6000 6000
                (fun _ => "m2"%string) (fun _ => 6001)) as [_ H].
    destruct (H onlyAlice_bob_unregistered)
      as (tweet & author & s' & H1 & _ & _ & _ & H2 & _).
    exists tweet, author, s'. auto.
Defined.

Lemma C6_witness :
  exists t t' s',
    getTweetById demo "t1" = Some t
    /\ updateTweet "t1" (InsertTweet.mk "Edited") demo = (inr t', s')
    /\ Tweet.content t' = "Edited"%string
    /\ Tweet.authorId t' = Tweet.authorId t
    /\ Tweet.createdAt t' = Tweet.createdAt t.
Proof.
  destruct (C6_updateTweet_frame demo "t1" (InsertTweet.mk "Edited"))
    as [H _].
  destruct (H _ eq_refl)
    as (t' & s' & H1 & _ & H2 & _ & H3 & H4 & _).
  eexists. exists t', s'. split; [reflexivity |]. auto.
Defined.

Lemma C7_witness :
  reachable demo
  /\ exists t s',
       getTweetById demo "t1" = Some t
       /\ deleteTweet "t1" demo = (inr tt, s')
       /\ getTweetById s' "t1" = None
       /\ getTweetMentions s' "t1" = [].
Proof.
  split; [apply demo_reachable |].
  destruct (C7_deleteTweet_cascade demo "t1") as [H _].
  destruct (H demo_reachable _ eq_refl) as (s' & H1 & H2 & H3 & _).
  eexists. exists s'. split; [reflexivity |]. auto.
Defined.

Lemma demo_no_edge_u1_ghost : ~ hasEdge demo "u1" "ghost".
Proof.
  intros [f [Hin [Ha Hb]]]. simpl in Hin.
  destruct Hin as [<- | []]. discriminate.
Qed.

Lemma C9_witness :
  getUser demo "ghost" = None /\ ~ hasEdge demo "u1" "ghost"
  /\ exists s',
       followUser "u1" "ghost" "f2" 6000 demo
       = (inr (Follow.mk "f2" "u1" "ghost" (Some 6000)), s')
       /\ hasEdge s' "u1" "ghost"
       /\ getUser s' "ghost" = None.
Proof.
  split; [reflexivity |]. split; [apply demo_no_edge_u1_ghost |].
  destruct (C9_follow_unregistered demo "u1" "ghost" "f2" 6000) as [H _].
  destruct (H ltac:(discriminate) demo_no_edge_u1_ghost)
    as (s' & H1 & _ & H2 & _ & H3 & _).
  exists s'. auto.
Defined.

Lemma C10_witness :
  exists t,
    getTweetById demo "t1" = Some t
    /\ fst (deleteTweet "t1" demo) = inr tt
    /\ getTweetStats (snd (deleteTweet "t1" demo)) "t1"
       = getTweetStats demo "t1"
    /\ getUserEngagement (snd (deleteTweet "t1" demo)) "u2" "t1"
       = getUserEngagement demo "u2" "t1".
Proof.
  destruct (C10_deleteTweet_keeps_engagements demo "t1")
    as (_ & _ & H1 & H2 & H3).
  eexists. split; [reflexivity |].
  split; [apply (H3 _ eq_refl) |]. split; [apply H1 | apply H2].
Defined.

(** ** The credential hash in the projections *)

Lemma getUserProfile_keeps_password s id viewer u :
  getUser s id = Some u ->
  exists p, getUserProfile s id viewer = Some p
            /\ User.password (UserProfile.user p) = User.password u.
Proof.
  intros H. unfold getUserProfile. rewrite H.
  destruct viewer as [v |];
    [destruct (truthy v && negb (v =s id)) |]; eexists; split; reflexivity.
Qed.

(** C8 fails on the code. Two stores that differ only in alice's stored
    credential hash give different profile projections, because
    [getUserProfile] copies every field of the user, the hash included;
    the same holds for the elements of [getUserFollowers] and
    [getUserFollowing] and for the [author] of the tweet that
    [POST /api/tweets] returns. *)
Theorem C8_profile_exposes_password :
  getUserProfile (onlyAlice "hash1") "u1" None
  <> getUserProfile (onlyAlice "hash2") "u1" None
  /\ (exists p, getUserProfile (onlyAlice "hash1") "u1" None = Some p
                /\ User.password (UserProfile.user p) = "hash1"%string)
  /\ getUserFollowers (aliceAndFollower "hash1") "u2"
     <> getUserFollowers (aliceAndFollower "hash2") "u2"
  /\ map (fun p => User.password (UserProfile.user p))
         (getUserFollowers (aliceAndFollower "hash1") "u2")
     = ["hash1"%string]
  /\ map (fun p => User.password (UserProfile.user p))
         (getUserFollowing (aliceAndFollower "hash1") "u1")
     = ["hashB"%string]
  /\ (exists tweet author s',
        postTweets "Hello" "u1" "t1" 2000 2000 (fun _ => "m1"%string)
                   (fun _ => 2001) (onlyAlice "hash1")
        = (Created tweet (Some author) [], s')
        /\ User.password author = "hash1"%string).
Proof.
  split; [discriminate |].
  split; [eexists; split; reflexivity |].
  split; [discriminate |].
  split; [reflexivity |]. split; [reflexivity |].
  eexists. eexists. eexists. split; reflexivity.
Qed.

(** ** The repository's storage tests, replayed on the embedding *)

Example extract_hello_bob :
  extractMentionsFromContent "Hello @bob" = ["bob"%string].
Proof. reflexivity. Qed.

Example extract_two_mentions :
  extractMentionsFromContent "Hello @testuser and @nonexistentuser!"
  = ["testuser"%string; "nonexistentuser"%string].
Proof. reflexivity. Qed.

Example extract_no_mention :
  extractMentionsFromContent "Just a regular tweet" = [].
Proof. reflexivity. Qed.

Example extract_greedy_and_restart :
  extractMentionsFromContent "@@bob_1, mail a@b.c @ @x"
  = ["bob_1"%string; "b"%string; "x"%string].
Proof. reflexivity. Qed.

Example timeline_test :
  map TweetWithAuthor.content (getUserTimeline timelineTest "u1")
  = ["Hello @testuser!"%string; "My own tweet"%string].
Proof. reflexivity. Qed.

Example user_tweets_test :
  map TweetWithAuthor.content (getUserTweets timelineTest "u2")
  = ["Random tweet"%string; "Hello @testuser!"%string].
Proof. reflexivity. Qed.

Example update_missing_tweet_test :
  fst (updateTweet "non-existent-id" (InsertTweet.mk "New content")
         timelineTest)
  = inl (mkError "Tweet not found").
Proof. reflexivity. Qed.

Example self_follow_test :
  fst (followUser "u1" "u1" "f1" 6000 timelineTest)
  = inl (mkError "Cannot follow yourself").
Proof. reflexivity. Qed.

Example duplicate_like_test :
  fst (engageWithTweet "u2" "t1" like "e2" 6000 6000 6001 demo)
  = inl (mkError "Already liked this tweet").
Proof. reflexivity. Qed.

(** * Further properties of the store and the routes *)

(** ** Users *)

Lemma find_app_left {A} (p : A -> bool) l1 l2 x :
  find p l1 = Some x -> find p (l1 ++ l2) = Some x.
Proof.
  induction l1 as [| y l1 IH]; simpl; [discriminate |].
  destruct (p y); auto.
Qed.

Lemma find_app_right {A} (p : A -> bool) l1 l2 :
  find p l1 = None -> find p (l1 ++ l2) = find p l2.
Proof.
  induction l1 as [| y l1 IH]; simpl; [reflexivity |].
  destruct (p y); [discriminate | exact IH].
Qed.

Lemma values_app {V} (m1 m2 : JsMap.t V) :
  JsMap.values (m1 ++ m2) = JsMap.values m1 ++ JsMap.values m2.
Proof. apply map_app. Qed.

Lemma find_after_append {A} (p : A -> bool) l x :
  find p (l ++ [x])
  = match find p l with
    | Some y => Some y
    | None => if p x then Some x else None
    end.
Proof.
  destruct (find p l) as [y |] eqn:E.
  - now apply find_app_left.
  - rewrite (find_app_right _ _ _ E). reflexivity.
Qed.

(** X1. [createUser] with a fresh identifier stores the new record under
    it, with the draft's four fields, the default avatar and zero counters,
    as the last user, and leaves the other users as they were.  A lookup by
    username, by email or by either keeps returning the older user it
    returned before; the new user is returned only for a string that
    matched no stored user. *)
Theorem X1_createUser_lookup (s : MemStorage) (insertUser : InsertUser.t)
    (id : string) (created updated : Z) :
  JsMap.get id (users s) = None ->
  exists s',
    createUser insertUser id created updated s
    = (inr (newUser insertUser id created updated), s')
    /\ users s' = users s ++ [(id, newUser insertUser id created updated)]
    /\ getUser s' id = Some (newUser insertUser id created updated)
    /\ (forall id', id' <> id -> getUser s' id' = getUser s id')
    /\ (forall name,
          getUserByUsername s' name
          = match getUserByUsername s name with
            | Some older => Some older
            | None =>
                if InsertUser.username insertUser =s name
                then Some (newUser insertUser id created updated)
                else None
            end)
    /\ (forall mail,
          getUserByEmail s' mail
          = match getUserByEmail s mail with
            | Some older => Some older
            | None =>
                if InsertUser.email insertUser =s mail
                then Some (newUser insertUser id created updated)
                else None
            end)
    /\ (forall x,
          getUserByEmailOrUsername s' x
          = match getUserByEmailOrUsername s x with
            | Some older => Some older
            | None =>
                if (InsertUser.email insertUser =s x)
                   || (InsertUser.username insertUser =s x)
                then Some (newUser insertUser id created updated)
                else None
            end)
    /\ tweets s' = tweets s /\ mentions s' = mentions s
    /\ follows s' = follows s /\ engagements s' = engagements s
    /\ tweetStats s' = tweetStats s.
Proof.
  intros Hfresh. eexists. split; [reflexivity |]. simpl.
  fold (newUser insertUser id created updated).
  unfold getUser, getUserByUsername, getUserByEmail, getUserByEmailOrUsername.
  simpl. rewrite (set_fresh _ _ _ Hfresh).
  split; [reflexivity |].
  split; [rewrite <- (set_fresh _ _ _ Hfresh); apply get_set_same |].
  split.
  { intros id' Hne. rewrite <- (set_fresh _ _ _ Hfresh).
    apply get_set_other. congruence. }
  rewrite values_app. simpl.
  split; [intros name; rewrite find_after_append; reflexivity |].
  split; [intros mail; rewrite find_after_append; reflexivity |].
  split; [intros x; rewrite find_after_append; reflexivity |].
  repeat split.
Qed.

Lemma X1_witness :
  JsMap.get "u3"%string (users demo) = None
  /\ exists s',
       createUser (InsertUser.mk "bob" "bob@example.org" "hashC" "Robert")
                  "u3" 7000 7000 demo
       = (inr (newUser (InsertUser.mk "bob" "bob@example.org" "hashC" "Robert")
                       "u3" 7000 7000), s')
       /\ (exists older, getUserByUsername s' "bob" = Some older
                         /\ User.id older = "u2"%string)
       /\ (exists u, getUserByEmail s' "bob@example.org" = Some u
                     /\ User.id u = "u3"%string).
Proof.
  split; [reflexivity |].
  destruct (X1_createUser_lookup demo
              (InsertUser.mk "bob" "bob@example.org" "hashC" "Robert")
              "u3" 7000 7000 eq_refl)
    as (s' & H1 & _ & _ & _ & H2 & H3 & _).
  exists s'. split; [exact H1 |]. split.
  - eexists. split; [rewrite H2; reflexivity | reflexivity].
  - eexists. split; [rewrite H3; reflexivity | reflexivity].
Defined.

Lemma sameButCounters_refl u : sameButCounters u u.
Proof. repeat split. Qed.

Lemma sameButCounters_trans u v w :
  sameButCounters u v -> sameButCounters v w -> sameButCounters u w.
Proof.
  unfold sameButCounters. intros Huv Hvw.
  repeat match goal with H : _ /\ _ |- _ => destruct H end.
  repeat split; congruence.
Qed.

Lemma get_usersAfterFollow k a b u us :
  JsMap.get k us = Some u ->
  exists u', JsMap.get k (usersAfterFollow a b us) = Some u'
             /\ sameButCounters u u'.
Proof.
  intros Hk. unfold usersAfterFollow.
  destruct (JsMap.get b us) as [ub |] eqn:Hb.
  - case_eqb b k.
    + rewrite get_set_same. eexists. split; [reflexivity |].
      rewrite Hk in Hb. injection Hb as <-. repeat split.
    + rewrite get_set_other by exact E.
      destruct (JsMap.get a us) as [ua |] eqn:Ha.
      * case_eqb a k.
        -- rewrite get_set_same. eexists. split; [reflexivity |].
           rewrite Hk in Ha. injection Ha as <-. repeat split.
        -- rewrite get_set_other by exact E0. exists u.
           split; [exact Hk | apply sameButCounters_refl].
      * exists u. split; [exact Hk | apply sameButCounters_refl].
  - destruct (JsMap.get a us) as [ua |] eqn:Ha.
    + case_eqb a k.
      * rewrite get_set_same. eexists. split; [reflexivity |].
        rewrite Hk in Ha. injection Ha as <-. repeat split.
      * rewrite get_set_other by exact E. exists u.
        split; [exact Hk | apply sameButCounters_refl].
    + exists u. split; [exact Hk | apply sameButCounters_refl].
Qed.

Lemma get_usersAfterUnfollow k a b u us :
  JsMap.get k us = Some u ->
  exists u', JsMap.get k (usersAfterUnfollow a b us) = Some u'
             /\ sameButCounters u u'.
Proof.
  intros Hk. unfold usersAfterUnfollow.
  destruct (JsMap.get b us) as [ub |] eqn:Hb.
  - case_eqb b k.
    + rewrite get_set_same. eexists. split; [reflexivity |].
      rewrite Hk in Hb. injection Hb as <-. repeat split.
    + rewrite get_set_other by exact E.
      destruct (JsMap.get a us) as [ua |] eqn:Ha.
      * case_eqb a k.
        -- rewrite get_set_same. eexists. split; [reflexivity |].
           rewrite Hk in Ha. injection Ha as <-. repeat split.
        -- rewrite get_set_other by exact E0. exists u.
           split; [exact Hk | apply sameButCounters_refl].
      * exists u. split; [exact Hk | apply sameButCounters_refl].
  - destruct (JsMap.get a us) as [ua |] eqn:Ha.
    + case_eqb a k.
      * rewrite get_set_same. eexists. split; [reflexivity |].
        rewrite Hk in Ha. injection Ha as <-. repeat split.
      * rewrite get_set_other by exact E. exists u.
        split; [exact Hk | apply sameButCounters_refl].
    + exists u. split; [exact Hk | apply sameButCounters_refl].
Qed.

(** What a single call does to the user map. *)
Lemma users_exec op s :
  users (exec op s) = users s
  \/ op = OpReset
  \/ (exists u id c d, op = OpCreateUser u id c d)
  \/ (exists a b, users (exec op s) = usersAfterFollow a b (users s))
  \/ (exists a b, users (exec op s) = usersAfterUnfollow a b (users s)).
Proof.
  destruct op; simpl.
  - right. now left.
  - right. right. left. eauto.
  - now left.
  - left. unfold updateTweet. run_M.
    now destruct (JsMap.get id (tweets s)).
  - left. rewrite deleteTweet_run. now destruct (JsMap.has id (tweets s)).
  - now left.
  - destruct (String.eqb_spec followerId followingId) as [-> | Hne].
    { left. now rewrite followUser_self. }
    destruct (find (isEdge followerId followingId) (JsMap.values (follows s)))
      eqn:E.
    + left. now rewrite (followUser_duplicate _ _ _ _ _ _ Hne E).
    + right. right. right. left. exists followerId, followingId.
      now rewrite (followUser_run _ _ _ _ _ Hne E).
  - destruct (find (isEdge followerId followingId) (JsMap.values (follows s)))
      eqn:E.
    + right. right. right. right. exists followerId, followingId.
      now rewrite (unfollowUser_run _ _ _ _ E).
    + left. now rewrite (unfollowUser_missing _ _ _ E).
  - left.
    destruct (find (sameEngagement userId tweetId type)
                   (JsMap.values (engagements s))) eqn:E.
    + now rewrite (engageWithTweet_duplicate _ _ _ _ _ _ _ _ _ E).
    + now rewrite (engageWithTweet_run _ _ _ _ _ _ _ _ E).
  - left.
    destruct (find (sameEngagement userId tweetId type)
                   (JsMap.values (engagements s))) eqn:E.
    + now rewrite (removeEngagement_run _ _ _ _ _ _ _ E).
    + unfold removeEngagement. run_M. now rewrite E.
Qed.

(** X2. Apart from [reset], no method call removes a stored user or
    changes anything of it but the two follow counters: after a call that
    drew a fresh identifier, the user is still stored under its identifier
    with the same username, email, password, display name, avatar, bio,
    flags, tweet count and timestamps. *)
Theorem X2_users_are_kept (s : MemStorage) (op : Op) (id : string)
    (u : User.t) :
  fresh op s = true -> op <> OpReset -> getUser s id = Some u ->
  exists u', getUser (exec op s) id = Some u' /\ sameButCounters u u'.
Proof.
  intros Hfresh Hop Hget. unfold getUser in *.
  destruct (users_exec op s) as [H | [H | [H | [H | H]]]].
  - rewrite H. exists u. split; [exact Hget | apply sameButCounters_refl].
  - contradiction.
  - destruct H as (iu & id' & c & d & ->). simpl in *.
    exists u. split; [| apply sameButCounters_refl].
    rewrite get_set_other; [exact Hget |].
    intros ->. unfold JsMap.has in Hfresh. now rewrite Hget in Hfresh.
  - destruct H as (a & b & ->). now apply get_usersAfterFollow.
  - destruct H as (a & b & ->). now apply get_usersAfterUnfollow.
Qed.

Lemma X2_witness :
  exists u u',
    getUser demo "u1" = Some u
    /\ getUser (exec (OpFollowUser "u1" "u2" "f2" 6000) demo) "u1" = Some u'
    /\ User.password u' = User.password u
    /\ User.followingCount u = Some 0
    /\ User.followingCount u' = Some 1.
Proof.
  assert (G : exists u, getUser demo "u1" = Some u
                        /\ User.followingCount u = Some 0)
    by (eexists; split; reflexivity).
  destruct G as (u & G1 & G2).
  destruct (X2_users_are_kept demo (OpFollowUser "u1" "u2" "f2" 6000) "u1" u
              eq_refl ltac:(discriminate) G1) as (u' & H1 & H2).
  exists u, u'. split; [exact G1 |]. split; [exact H1 |].
  split; [apply H2 |]. split; [exact G2 |].
  assert (E : getUser (exec (OpFollowUser "u1" "u2" "f2" 6000) demo) "u1"
              = Some (User.with_followingCount u 1)).
  { vm_compute in G1. injection G1 as <-. reflexivity. }
  rewrite E in H1. injection H1 as <-. reflexivity.
Defined.

(** X3. No method ever updates [tweetCount]: in every reachable store each
    stored user still has the tweet count 0 that [createUser] gave it,
    however many tweets name the user as author. *)
Theorem X3_tweetCount_stays_zero (s : MemStorage) (u : User.t) :
  reachable s -> In u (JsMap.values (users s)) -> User.tweetCount u = Some 0.
Proof.
  intros Hreach. revert u.
  induction Hreach as [| s op Hreach IH Hfresh]; intros u Hin;
    [destruct Hin |].
  pose proof (reachable_wf _ Hreach) as Hwf.
  pose proof (wf_exec op _ Hwf) as Hwf'.
  pose proof (keyed_get User.id _ _ (wf_users _ Hwf') Hin) as Hget.
  destruct (users_exec op s) as [H | [H | [H | [H | H]]]].
  - rewrite H in Hin. now apply IH.
  - subst op. destruct Hin.
  - destruct H as (iu & id' & c & d & ->). simpl in Hin.
    apply in_values_set in Hin as [-> | Hin]; [reflexivity | now apply IH].
  - destruct H as (a & b & H). rewrite H in Hin.
    assert (Hall : Forall (fun x => User.tweetCount x = Some 0)
                     (JsMap.values (usersAfterFollow a b (users s)))).
    { unfold usersAfterFollow.
      assert (H0 : Forall (fun x => User.tweetCount x = Some 0)
                          (JsMap.values (users s)))
        by (apply Forall_forall; exact IH).
      assert (Hk : forall k x, JsMap.get k (users s) = Some x ->
                               User.tweetCount x = Some 0)
        by (intros k x G; apply IH; eapply get_In_values; eauto).
      destruct (JsMap.get b (users s)) eqn:Gb;
        destruct (JsMap.get a (users s)) eqn:Ga;
        repeat apply Forall_values_set; simpl; eauto. }
    rewrite Forall_forall in Hall. now apply Hall.
  - destruct H as (a & b & H). rewrite H in Hin.
    assert (Hall : Forall (fun x => User.tweetCount x = Some 0)
                     (JsMap.values (usersAfterUnfollow a b (users s)))).
    { unfold usersAfterUnfollow.
      assert (H0 : Forall (fun x => User.tweetCount x = Some 0)
                          (JsMap.values (users s)))
        by (apply Forall_forall; exact IH).
      assert (Hk : forall k x, JsMap.get k (users s) = Some x ->
                               User.tweetCount x = Some 0)
        by (intros k x G; apply IH; eapply get_In_values; eauto).
      destruct (JsMap.get b (users s)) eqn:Gb;
        destruct (JsMap.get a (users s)) eqn:Ga;
        repeat apply Forall_values_set; simpl; eauto. }
    rewrite Forall_forall in Hall. now apply Hall.
Qed.

Lemma X3_witness :
  reachable timelineTest
  /\ List.length (getUserTweets timelineTest "u2") = 2%nat
  /\ exists u, getUser timelineTest "u2" = Some u
               /\ User.tweetCount u = Some 0.
Proof.
  assert (R : reachable timelineTest)
    by (apply reachable_execs; [apply reachable_new | reflexivity]).
  split; [exact R |]. split; [reflexivity |].
  eexists. split; [reflexivity |].
  apply (X3_tweetCount_stays_zero timelineTest _ R).
  right. left. reflexivity.
Defined.

(** ** Tweets *)

Lemma joinAuthors_users s s' l :
  users s' = users s -> joinAuthors s' l = joinAuthors s l.
Proof.
  intros H. unfold joinAuthors, getUser. now rewrite H.
Qed.

Lemma joinAuthors_app s l1 l2 :
  joinAuthors s (l1 ++ l2) = joinAuthors s l1 ++ joinAuthors s l2.
Proof. unfold joinAuthors. apply flat_map_app. Qed.


(** X4. [createTweet] with a fresh identifier stores the tweet with the
    given content and author, the reserved fields empty, and returns it;
    the other tweets and the other maps (so also the author's record) are
    unchanged.  It does not look the author up: for an author that is not
    registered the tweet is stored and found by [getTweetById], yet
    [getAllTweets] lists exactly what it listed before; for a registered
    author [getAllTweets] lists the new joined tweet in addition. *)
Theorem X4_createTweet (s : MemStorage) (tweetData : InsertTweet.t)
    (authorId id : string) (created updated : Z) :
  JsMap.get id (tweets s) = None ->
  exists tweet s',
    createTweet tweetData authorId id created updated s = (inr tweet, s')
    /\ tweet = Tweet.mk id (InsertTweet.content tweetData) authorId None
                 (Some false) None None None (Some created) (Some updated)
                 None
    /\ getTweetById s' id = Some tweet
    /\ (forall id', id' <> id -> getTweetById s' id' = getTweetById s id')
    /\ users s' = users s /\ mentions s' = mentions s
    /\ follows s' = follows s /\ engagements s' = engagements s
    /\ tweetStats s' = tweetStats s
    /\ (getUser s authorId = None -> getAllTweets s' = getAllTweets s)
    /\ (forall author, getUser s authorId = Some author ->
        forall tw,
          In tw (getAllTweets s') <->
          tw = TweetWithAuthor.mk tweet author
                 (extractMentionsFromContent (InsertTweet.content tweetData))
          \/ In tw (getAllTweets s)).
Proof.
  intros Hfresh. eexists. eexists. split; [reflexivity |].
  split; [reflexivity |]. unfold getTweetById. simpl.
  split; [apply get_set_same |].
  split; [intros id' Hne; apply get_set_other; congruence |].
  do 5 (split; [reflexivity |]).
  set (tweet := Tweet.mk id _ _ _ _ _ _ _ _ _ _).
  set (s' := set_tweets _ s).
  assert (Hall : getAllTweets s'
                 = js_sort byCreatedAtDesc
                     (joinAuthors s (JsMap.values (tweets s))
                      ++ joinAuthors s [tweet])).
  { rewrite getAllTweets_joinAuthors. unfold s'. simpl.
    rewrite (set_fresh _ _ _ Hfresh), values_app, joinAuthors_app.
    reflexivity. }
  split.
  - intros Hnone. rewrite Hall, getAllTweets_joinAuthors.
    simpl. rewrite Hnone. simpl. now rewrite app_nil_r.
  - intros author Ha tw. rewrite Hall, js_sort_In, in_app_iff.
    rewrite getAllTweets_joinAuthors, js_sort_In.
    simpl. rewrite Ha. simpl. intuition congruence.
Qed.

Lemma X4_witness :
  JsMap.get "t2"%string (tweets demo) = None
  /\ getUser demo "ghost" = None
  /\ exists tweet s',
       createTweet (InsertTweet.mk "boo") "ghost" "t2" 7000 7000 demo
       = (inr tweet, s')
       /\ getTweetById s' "t2" = Some tweet
       /\ getAllTweets s' = getAllTweets demo.
Proof.
  split; [reflexivity |]. split; [reflexivity |].
  destruct (X4_createTweet demo (InsertTweet.mk "boo") "ghost" "t2" 7000 7000
              eq_refl)
    as (tweet & s' & H1 & _ & H2 & _ & _ & _ & _ & _ & _ & H3 & _).
  exists tweet, s'. split; [exact H1 |]. split; [exact H2 |].
  exact (H3 eq_refl).
Defined.


Lemma NoDup_map_filter {A B} (f : A -> B) (p : A -> bool) l :
  NoDup (map f l) -> NoDup (map f (filter p l)).
Proof.
  induction l as [| x l IH]; simpl; intros H; [constructor |].
  inversion H as [| ? ? Hnot Hnd]; subst.
  destruct (p x); simpl; [| now apply IH].
  constructor; [| now apply IH].
  intros Hin. apply Hnot. apply in_map_iff in Hin as [y [Hy Hin]].
  apply filter_In in Hin as [Hin _]. rewrite <- Hy. now apply in_map.
Qed.



(** ** Mentions *)

Lemma push_users_loop s l acc :
  fold_left
    (fun users mention =>
       match getUser s (Mention.userId mention) with
       | Some user => users ++ [user]
       | None => users
       end) l acc
  = acc ++ flat_map
             (fun mention =>
                match getUser s (Mention.userId mention) with
                | Some user => [user]
                | None => []
                end) l.
Proof.
  revert acc. induction l as [| m l IH]; intros acc; simpl.
  - now rewrite app_nil_r.
  - rewrite IH. destruct (getUser s (Mention.userId m)); simpl;
      [now rewrite <- app_assoc | reflexivity].
Qed.

Lemma getTweetMentions_flat_map s tweetId :
  getTweetMentions s tweetId
  = flat_map
      (fun mention =>
         match getUser s (Mention.userId mention) with
         | Some user => [user]
         | None => []
         end)
      (filter (fun mention => Mention.tweetId mention =s tweetId)
              (JsMap.values (mentions s))).
Proof. unfold getTweetMentions. now rewrite push_users_loop. Qed.

(** X6. [createMention] with a fresh identifier always succeeds: it checks
    neither that the tweet or the user exists nor that the pair is new.
    Afterwards [getTweetMentions] of that tweet is the list it was,
    followed by the mentioned user if that user is registered (so a second
    call for the same pair lists the user twice) and by nothing otherwise;
    for every other tweet it is unchanged. *)
Theorem X6_createMention_getTweetMentions (s : MemStorage)
    (tweetId userId id : string) (now : Z) :
  JsMap.get id (mentions s) = None ->
  exists s',
    createMention tweetId userId id now s
    = (inr (Mention.mk id tweetId userId (Some now)), s')
    /\ mentions s'
       = mentions s ++ [(id, Mention.mk id tweetId userId (Some now))]
    /\ users s' = users s /\ tweets s' = tweets s
    /\ getTweetMentions s' tweetId
       = getTweetMentions s tweetId
         ++ match getUser s userId with
            | Some user => [user]
            | None => []
            end
    /\ (forall t, t <> tweetId ->
          getTweetMentions s' t = getTweetMentions s t).
Proof.
  intros Hfresh. eexists. split; [reflexivity |]. simpl.
  split; [now apply set_fresh |]. split; [reflexivity |].
  split; [reflexivity |].
  split.
  - rewrite !getTweetMentions_flat_map. simpl mentions.
    rewrite (set_fresh _ _ _ Hfresh), values_app.
    rewrite filter_app, flat_map_app. simpl.
    rewrite String.eqb_refl. simpl. unfold getUser. simpl.
    now rewrite app_nil_r.
  - intros t Hne. rewrite !getTweetMentions_flat_map. simpl mentions.
    rewrite (set_fresh _ _ _ Hfresh), values_app, filter_app. simpl.
    destruct (String.eqb_spec tweetId t); [congruence |].
    now rewrite app_nil_r.
Qed.

Lemma X6_witness :
  JsMap.get "m2"%string (mentions demo) = None
  /\ exists s',
       createMention "t1" "u2" "m2" 7000 demo
       = (inr (Mention.mk "m2" "t1" "u2" (Some 7000)), s')
       /\ map User.id (getTweetMentions demo "t1") = ["u2"%string]
       /\ map User.id (getTweetMentions s' "t1") = ["u2"%string; "u2"%string].
Proof.
  split; [reflexivity |].
  destruct (X6_createMention_getTweetMentions demo "t1" "u2" "m2" 7000 eq_refl)
    as (s' & H1 & _ & _ & _ & H2 & _).
  exists s'. split; [exact H1 |]. split; [reflexivity |].
  rewrite H2. reflexivity.
Defined.





(** ** The tweet routes *)


Lemma get_append_other {V} k k' (v : V) (m : JsMap.t V) :
  k <> k' -> JsMap.get k' m = None -> JsMap.get k' (m ++ [(k, v)]) = None.
Proof.
  intros Hne H. induction m as [| [k0 v0] m IH]; simpl in *.
  - destruct (String.eqb_spec k k'); [contradiction | reflexivity].
  - destruct (k0 =s k'); [discriminate | now apply IH].
Qed.
















(** X11. [DELETE /api/tweets/:tweetId] answers 404 for a tweet that is not
    stored and 403 for a tweet of another author, and changes nothing in
    either case; for the author it answers with the success message and
    leaves the store that [deleteTweet] produces.  Its 500 answer is never
    given: the tweet it deletes was just found. *)
Theorem X11_deleteTweetRoute (s : MemStorage) (tweetId reqUserId : string) :
  (getTweetById s tweetId = None ->
   deleteTweetRoute tweetId reqUserId s = (TweetFail 404 "Tweet not found", s))
  /\ (forall t, getTweetById s tweetId = Some t ->
        Tweet.authorId t <> reqUserId ->
        deleteTweetRoute tweetId reqUserId s
        = (TweetFail 403 "You can only delete your own tweets", s))
  /\ (forall t, getTweetById s tweetId = Some t ->
        Tweet.authorId t = reqUserId ->
        deleteTweetRoute tweetId reqUserId s
        = (TweetDeleted "Tweet deleted successfully",
           snd (deleteTweet tweetId s))
        /\ fst (deleteTweet tweetId s) = inr tt
        /\ getTweetById (snd (deleteTweet tweetId s)) tweetId = None)
  /\ (forall message,
        fst (deleteTweetRoute tweetId reqUserId s) <> TweetFail 500 message).
Proof.
  unfold deleteTweetRoute, getTweetById.
  split; [intros ->; reflexivity |].
  split.
  { intros t -> Hne.
    now destruct (String.eqb_spec (Tweet.authorId t) reqUserId). }
  split.
  { intros t Hget <-. rewrite Hget, String.eqb_refl. simpl.
    rewrite deleteTweet_run. unfold JsMap.has. rewrite Hget. simpl.
    split; [reflexivity |]. split; [reflexivity | apply get_delete_same]. }
  intros message.
  destruct (JsMap.get tweetId (tweets s)) eqn:Hget; [| discriminate].
  destruct (negb (Tweet.authorId t =s reqUserId)); [discriminate |].
  rewrite deleteTweet_run. unfold JsMap.has. rewrite Hget. discriminate.
Qed.

Lemma X11_witness :
  exists t,
    getTweetById demo "t1" = Some t
    /\ deleteTweetRoute "t1" "u2" demo
       = (TweetFail 403 "You can only delete your own tweets", demo)
    /\ deleteTweetRoute "t1" "u1" demo
       = (TweetDeleted "Tweet deleted successfully",
          snd (deleteTweet "t1" demo)).
Proof.
  assert (G : exists t, getTweetById demo "t1" = Some t
                        /\ Tweet.authorId t = "u1"%string)
    by (eexists; split; reflexivity).
  destruct G as (t & G1 & G2).
  destruct (X11_deleteTweetRoute demo "t1" "u2") as (_ & H403 & _).
  destruct (X11_deleteTweetRoute demo "t1" "u1") as (_ & _ & Hok & _).
  exists t. split; [exact G1 |]. split.
  - apply (H403 t G1). rewrite G2. discriminate.
  - apply (Hok t G1 G2).
Defined.

(** ** Counters against edges and records *)

Lemma keyed_tail {V} (idOf : V -> string) kv (m : JsMap.t V) :
  keyed idOf (kv :: m) -> keyed idOf m.
Proof.
  intros [Hnd Hall]. inversion Hnd; subst. inversion Hall; subst.
  now split.
Qed.

(** Deleting the binding of a stored value removes exactly that value. *)
Lemma length_filter_delete {V} (idOf : V -> string) (p : V -> bool)
    (m : JsMap.t V) (x : V) :
  keyed idOf m -> In x (JsMap.values m) ->
  Z.of_nat (List.length (filter p (JsMap.values (JsMap.delete (idOf x) m))))
  = Z.of_nat (List.length (filter p (JsMap.values m)))
    - (if p x then 1 else 0).
Proof.
  induction m as [| [k v] m IH]; intros Hk Hin; [destruct Hin |].
  pose proof (keyed_tail _ _ _ Hk) as Hk'.
  destruct Hk as [Hnd Hall]. inversion Hnd as [| ? ? Hnot _]; subst.
  inversion Hall as [| ? ? Hid _]; subst. simpl in Hid.
  simpl. case_eqb k (idOf x); simpl.
  - assert (Hvx : v = x).
    { destruct Hin as [Hin | Hin]; [exact Hin |]. exfalso. apply Hnot.
      pose proof (keyed_get idOf _ _ Hk' Hin) as G. apply get_In in G.
      rewrite ?E. unfold JsMap.keys. apply in_map_iff.
      exists (idOf x, x). split; [reflexivity | exact G]. }
    subst v. fold (JsMap.delete (idOf x) m).
    rewrite delete_absent by (now apply get_none_not_key).
    destruct (p x); [simpl List.length; rewrite Nat2Z.inj_succ |]; lia.
  - fold (JsMap.delete (idOf x) m). simpl in Hin.
    destruct Hin as [Hvx | Hin]; [subst; congruence |].
    specialize (IH Hk' Hin).
    destruct (p v); [simpl List.length; rewrite !Nat2Z.inj_succ |]; lia.
Qed.

Lemma length_filter_pos {A} (p : A -> bool) l x :
  In x l -> p x = true -> 1 <= Z.of_nat (List.length (filter p l)).
Proof.
  induction l as [| y l IH]; intros Hin Hp; [destruct Hin |]. simpl.
  destruct Hin as [-> | Hin].
  - rewrite Hp. simpl List.length. rewrite Nat2Z.inj_succ. lia.
  - specialize (IH Hin Hp).
    destruct (p y); [simpl List.length; rewrite Nat2Z.inj_succ |]; lia.
Qed.

Lemma edges_after_follow s a b id now :
  JsMap.get id (follows s) = None ->
  forall x,
    Z.of_nat (List.length
      (filter (fun f => Follow.followingId f =s x)
         (JsMap.values
            (JsMap.set id (Follow.mk id a b (Some now)) (follows s)))))
    = edgesInto s x + (if b =s x then 1 else 0)
    /\ Z.of_nat (List.length
         (filter (fun f => Follow.followerId f =s x)
            (JsMap.values
               (JsMap.set id (Follow.mk id a b (Some now)) (follows s)))))
       = edgesFrom s x + (if a =s x then 1 else 0).
Proof.
  intros Hfresh x. rewrite (set_fresh _ _ _ Hfresh), values_app, !filter_app.
  rewrite !length_app, !Nat2Z.inj_add. unfold edgesInto, edgesFrom. simpl.
  destruct (b =s x), (a =s x); simpl; lia.
Qed.

(** X12. The follow counters never over-count: in every reachable store the
    [followerCount] of a stored user is at most the number of stored edges
    that end in the user, and its [followingCount] at most the number of
    stored edges that start from it.  (They can be smaller: an edge created
    before the user registered is not counted.) *)
Theorem X12_counters_bounded_by_edges (s : MemStorage) (id : string)
    (u : User.t) :
  reachable s -> getUser s id = Some u ->
  or0 (User.followerCount u) <= edgesInto s id
  /\ or0 (User.followingCount u) <= edgesFrom s id.
Proof.
  intros Hreach. revert id u. unfold getUser.
  induction Hreach as [| s op Hreach IH Hfresh]; intros id u Hget;
    [discriminate |].
  pose proof (reachable_wf _ Hreach) as Hwf.
  assert (Hsame : users (exec op s) = users s ->
                  follows (exec op s) = follows s ->
                  or0 (User.followerCount u) <= edgesInto (exec op s) id
                  /\ or0 (User.followingCount u) <= edgesFrom (exec op s) id).
  { intros Hu Hf. unfold edgesInto, edgesFrom. rewrite Hf.
    apply IH. now rewrite <- Hu. }
  destruct op; simpl in *.
  - discriminate.
  - (* createUser *)
    case_eqb id0 id.
    + rewrite get_set_same in Hget. injection Hget as <-. simpl.
      unfold edgesInto, edgesFrom. simpl. lia.
    + rewrite get_set_other in Hget by exact E.
      unfold edgesInto, edgesFrom. simpl. now apply IH.
  - now apply Hsame.
  - apply Hsame; unfold updateTweet; run_M;
      now destruct (JsMap.get id0 (tweets s)).
  - apply Hsame; rewrite deleteTweet_run;
      now destruct (JsMap.has id0 (tweets s)).
  - now apply Hsame.
  - (* followUser *)
    destruct (String.eqb_spec followerId followingId) as [-> | Hne].
    { rewrite followUser_self in *. now apply Hsame. }
    destruct (find (isEdge followerId followingId) (JsMap.values (follows s)))
      eqn:E.
    { rewrite (followUser_duplicate _ _ _ _ _ _ Hne E) in *. now apply Hsame. }
    rewrite (followUser_run _ _ _ _ _ Hne E) in *. simpl in *.
    assert (Hf : JsMap.get id0 (follows s) = None).
    { unfold JsMap.has in Hfresh.
      now destruct (JsMap.get id0 (follows s)). }
    destruct (edges_after_follow s followerId followingId id0 now Hf id)
      as [Hin Hout].
    unfold edgesInto at 1, edgesFrom at 1. simpl. rewrite Hin, Hout.
    clear Hin Hout Hsame.
    destruct (String.eqb_spec followingId id) as [Eb | Eb].
    + subst id.
      destruct (String.eqb_spec followerId followingId); [congruence |].
      destruct (JsMap.get followingId (users s)) as [ub |] eqn:Gb.
      * rewrite (get_following_afterFollow _ _ _ _ Gb) in Hget.
        injection Hget as <-. simpl. destruct (IH _ _ Gb) as [H1 H2]. lia.
      * unfold usersAfterFollow in Hget. rewrite Gb in Hget.
        destruct (JsMap.get followerId (users s));
          [rewrite get_set_other in Hget by congruence |];
          congruence.
    + destruct (String.eqb_spec followerId id) as [Ea | Ea].
      * subst id.
        destruct (JsMap.get followerId (users s)) as [ua |] eqn:Ga.
        -- rewrite (get_follower_afterFollow _ _ _ _ Hne Ga) in Hget.
           injection Hget as <-. simpl. destruct (IH _ _ Ga) as [H1 H2]. lia.
        -- unfold usersAfterFollow in Hget. rewrite Ga in Hget.
           destruct (JsMap.get followingId (users s));
             [rewrite get_set_other in Hget by congruence |];
             congruence.
      * rewrite get_other_afterFollow in Hget by congruence.
        destruct (IH _ _ Hget) as [H1 H2]. lia.
  - (* unfollowUser *)
    destruct (find (isEdge followerId followingId) (JsMap.values (follows s)))
      as [f |] eqn:E.
    2:{ rewrite (unfollowUser_missing _ _ _ E) in *. now apply Hsame. }
    rewrite (unfollowUser_run _ _ _ _ E) in *. simpl in *.
    apply find_isEdge in E as [Hf [Hfa Hfb]].
    assert (Hne : followerId <> followingId).
    { pose proof (wf_no_self_follow _ Hwf) as H. rewrite Forall_forall in H.
      specialize (H _ Hf). congruence. }
    unfold edgesInto at 1, edgesFrom at 1. simpl.
    rewrite !(length_filter_delete Follow.id _ _ _ (wf_follows _ Hwf) Hf).
    rewrite Hfa, Hfb.
    assert (Pin : 1 <= edgesInto s followingId).
    { apply (length_filter_pos _ _ f Hf). rewrite Hfb.
      apply String.eqb_refl. }
    assert (Pout : 1 <= edgesFrom s followerId).
    { apply (length_filter_pos _ _ f Hf). rewrite Hfa.
      apply String.eqb_refl. }
    fold (edgesInto s id). fold (edgesFrom s id).
    clear Hfa Hfb Hf Hsame.
    destruct (String.eqb_spec followingId id) as [Eb | Eb].
    + subst id.
      destruct (String.eqb_spec followerId followingId); [congruence |].
      destruct (JsMap.get followingId (users s)) as [ub |] eqn:Gb.
      * rewrite (get_following_afterUnfollow _ _ _ _ Gb) in Hget.
        injection Hget as <-. simpl. destruct (IH _ _ Gb) as [H1 H2]. lia.
      * unfold usersAfterUnfollow in Hget. rewrite Gb in Hget.
        destruct (JsMap.get followerId (users s));
          [rewrite get_set_other in Hget by congruence |];
          congruence.
    + destruct (String.eqb_spec followerId id) as [Ea | Ea].
      * subst id.
        destruct (JsMap.get followerId (users s)) as [ua |] eqn:Ga.
        -- rewrite (get_follower_afterUnfollow _ _ _ _ Hne Ga) in Hget.
           injection Hget as <-. simpl. destruct (IH _ _ Ga) as [H1 H2]. lia.
        -- unfold usersAfterUnfollow in Hget. rewrite Ga in Hget.
           destruct (JsMap.get followingId (users s));
             [rewrite get_set_other in Hget by congruence |];
             congruence.
      * assert (Hsameu : JsMap.get id
                           (usersAfterUnfollow followerId followingId (users s))
                         = JsMap.get id (users s)).
        { unfold usersAfterUnfollow.
          destruct (JsMap.get followingId (users s));
            destruct (JsMap.get followerId (users s));
            rewrite ?get_set_other by congruence; reflexivity. }
        rewrite Hsameu in Hget. destruct (IH _ _ Hget) as [H1 H2]. lia.
  - apply Hsame.
    + destruct (find (sameEngagement userId tweetId type)
                     (JsMap.values (engagements s))) eqn:E.
      * now rewrite (engageWithTweet_duplicate _ _ _ _ _ _ _ _ _ E).
      * now rewrite (engageWithTweet_run _ _ _ _ _ _ _ _ E).
    + destruct (find (sameEngagement userId tweetId type)
                     (JsMap.values (engagements s))) eqn:E.
      * now rewrite (engageWithTweet_duplicate _ _ _ _ _ _ _ _ _ E).
      * now rewrite (engageWithTweet_run _ _ _ _ _ _ _ _ E).
  - apply Hsame.
    + destruct (find (sameEngagement userId tweetId type)
                     (JsMap.values (engagements s))) eqn:E.
      * now rewrite (removeEngagement_run _ _ _ _ _ _ _ E).
      * unfold removeEngagement. run_M. now rewrite E.
    + destruct (find (sameEngagement userId tweetId type)
                     (JsMap.values (engagements s))) eqn:E.
      * now rewrite (removeEngagement_run _ _ _ _ _ _ _ E).
      * unfold removeEngagement. run_M. now rewrite E.
Qed.

Lemma X12_witness :
  reachable edgeBeforeUser
  /\ exists u,
       getUser edgeBeforeUser "u1" = Some u
       /\ or0 (User.followingCount u) <= edgesFrom edgeBeforeUser "u1"
       /\ or0 (User.followingCount u) = 0
       /\ edgesFrom edgeBeforeUser "u1" = 1.
Proof.
  split; [apply edgeBeforeUser_reachable |].
  assert (G : exists u, getUser edgeBeforeUser "u1" = Some u
                        /\ or0 (User.followingCount u) = 0)
    by (eexists; split; reflexivity).
  destruct G as (u & G1 & G2).
  destruct (X12_counters_bounded_by_edges edgeBeforeUser "u1" u
              edgeBeforeUser_reachable G1) as [_ H].
  exists u. split; [exact G1 |]. split; [exact H |].
  split; [exact G2 | reflexivity].
Defined.

(** *** Engagement records and stats rows *)

Lemma eng_inv_same s s' :
  engagements s' = engagements s -> tweetStats s' = tweetStats s ->
  eng_inv s -> eng_inv s'.
Proof.
  intros He Hs [H1 H2 H3]. constructor.
  - now rewrite He.
  - now rewrite He.
  - intros t ty. specialize (H3 t ty).
    unfold getTweetStats, recordsOn in *. now rewrite He, Hs.
Qed.

Lemma recordsOn_nonneg s t ty : 0 <= recordsOn s t ty.
Proof. unfold recordsOn. lia. Qed.

Lemma NoDup_app_one {A} (l : list A) x :
  NoDup l -> ~ In x l -> NoDup (l ++ [x]).
Proof.
  intros Hnd Hx. apply NoDup_app; [exact Hnd | repeat constructor; intros [] |].
  intros y Hy [<- | []]. contradiction.
Qed.

Lemma eng_inv_engage u t ty id n c d s :
  JsMap.get id (engagements s) = None ->
  eng_inv s -> eng_inv (snd (engageWithTweet u t ty id n c d s)).
Proof.
  intros Hfresh Hinv.
  destruct (find (sameEngagement u t ty) (JsMap.values (engagements s)))
    eqn:Hfind.
  { now rewrite (engageWithTweet_duplicate _ _ _ _ _ _ _ _ _ Hfind). }
  rewrite (engageWithTweet_run _ _ _ _ _ _ _ _ Hfind). simpl.
  destruct Hinv as [H1 H2 H3]. constructor; simpl.
  - now apply keyed_set.
  - rewrite (set_fresh _ _ _ Hfresh), values_app, map_app. simpl.
    apply NoDup_app_one; [exact H2 |].
    intros Hin. apply in_map_iff in Hin as [e [He Hin]].
    pose proof (find_none _ _ Hfind _ Hin) as Hp.
    unfold tripleOf in He. simpl in He. injection He as E1 E2 E3.
    assert (sameEngagement u t ty e = true)
      by (apply sameEngagement_true; auto).
    congruence.
  - intros t' ty'. specialize (H3 t' ty').
    unfold getTweetStats, recordsOn in *. simpl.
    rewrite (set_fresh _ _ _ Hfresh), values_app, filter_app, length_app,
      Nat2Z.inj_add.
    simpl filter. unfold statsAfter.
    destruct (String.eqb_spec t t') as [<- | Hne].
    + rewrite get_set_same.
      destruct (EngagementType_eq_dec ty' ty) as [-> | Hty].
      * rewrite counterOf_bump_same.
        replace (EngagementType_eqb ty ty) with true
          by (symmetry; now apply EngagementType_eqb_eq).
        simpl List.length.
        destruct (JsMap.get t (tweetStats s)) as [st |].
        -- rewrite H3. simpl. f_equal. lia.
        -- rewrite H3. now destruct ty.
      * rewrite counterOf_bump_other by exact Hty.
        replace (EngagementType_eqb ty ty') with false.
        2:{ symmetry. destruct (EngagementType_eqb ty ty') eqn:E;
              [| reflexivity].
            apply EngagementType_eqb_eq in E. congruence. }
        simpl List.length. rewrite Z.add_0_r.
        destruct (JsMap.get t (tweetStats s)) as [st |]; [exact H3 |].
        rewrite H3. now destruct ty'.
    + rewrite get_set_other by exact Hne. simpl List.length.
      now rewrite Z.add_0_r.
Qed.

Lemma eng_inv_remove u t ty c d s :
  eng_inv s -> eng_inv (snd (removeEngagement u t ty c d s)).
Proof.
  intros Hinv.
  destruct (find (sameEngagement u t ty) (JsMap.values (engagements s)))
    as [e |] eqn:Hfind.
  2:{ unfold removeEngagement. run_M. now rewrite Hfind. }
  rewrite (removeEngagement_run _ _ _ _ _ _ _ Hfind). simpl.
  apply find_some in Hfind as [Hin He].
  apply sameEngagement_true in He as (Eu & Et & Ety).
  destruct Hinv as [H1 H2 H3]. constructor; simpl.
  - now apply keyed_delete.
  - unfold JsMap.values, JsMap.delete. rewrite map_map.
    apply (NoDup_map_filter (fun kv => tripleOf (snd kv))).
    unfold JsMap.values in H2. now rewrite map_map in H2.
  - intros t' ty'. specialize (H3 t' ty').
    unfold getTweetStats, recordsOn in *. simpl.
    rewrite (length_filter_delete TweetEngagement.id _ _ _ H1 Hin).
    rewrite Et, Ety. unfold statsAfter.
    destruct (String.eqb_spec t t') as [<- | Hne].
    + rewrite get_set_same.
      destruct (EngagementType_eq_dec ty' ty) as [-> | Hty].
      * rewrite counterOf_bump_same.
        replace (EngagementType_eqb ty ty) with true
          by (symmetry; now apply EngagementType_eqb_eq).
        simpl andb. cbv iota.
        assert (Hpos : 1 <= Z.of_nat (List.length
                  (filter (fun e0 => (TweetEngagement.tweetId e0 =s t)
                             && EngagementType_eqb (TweetEngagement.type e0) ty)
                          (JsMap.values (engagements s))))).
        { apply (length_filter_pos _ _ e Hin).
          rewrite Et, Ety, String.eqb_refl. simpl.
          now apply EngagementType_eqb_eq. }
        destruct (JsMap.get t (tweetStats s)) as [st |].
        -- rewrite H3. simpl or0. f_equal. lia.
        -- lia.
      * rewrite counterOf_bump_other by exact Hty.
        replace (EngagementType_eqb ty ty') with false.
        2:{ symmetry. destruct (EngagementType_eqb ty ty') eqn:E;
              [| reflexivity].
            apply EngagementType_eqb_eq in E. congruence. }
        rewrite andb_false_r, Z.sub_0_r.
        destruct (JsMap.get t (tweetStats s)) as [st |]; [exact H3 |].
        rewrite H3. now destruct ty'.
    + rewrite get_set_other by exact Hne.
      destruct (String.eqb_spec t t'); [congruence |]. simpl.
      now rewrite Z.sub_0_r.
Qed.

Lemma reachable_eng_inv s : reachable s -> eng_inv s.
Proof.
  induction 1 as [| s op Hreach IH Hfresh].
  - constructor; simpl; [apply keyed_empty | constructor | reflexivity].
  - destruct op; simpl in *.
    + constructor; simpl; [apply keyed_empty | constructor | reflexivity].
    + now apply (eng_inv_same s).
    + now apply (eng_inv_same s).
    + apply (eng_inv_same s); [| | exact IH]; unfold updateTweet; run_M;
        now destruct (JsMap.get id (tweets s)).
    + apply (eng_inv_same s); [| | exact IH]; rewrite deleteTweet_run;
        now destruct (JsMap.has id (tweets s)).
    + now apply (eng_inv_same s).
    + apply (eng_inv_same s); [| | exact IH];
        (destruct (String.eqb_spec followerId followingId) as [-> | Hne];
         [now rewrite followUser_self |];
         destruct (find (isEdge followerId followingId)
                        (JsMap.values (follows s))) eqn:E;
         [now rewrite (followUser_duplicate _ _ _ _ _ _ Hne E)
         | now rewrite (followUser_run _ _ _ _ _ Hne E)]).
    + apply (eng_inv_same s); [| | exact IH];
        (destruct (find (isEdge followerId followingId)
                        (JsMap.values (follows s))) eqn:E;
         [now rewrite (unfollowUser_run _ _ _ _ E)
         | now rewrite (unfollowUser_missing _ _ _ E)]).
    + apply eng_inv_engage; [| exact IH].
      unfold JsMap.has in Hfresh. now destruct (JsMap.get id (engagements s)).
    + now apply eng_inv_remove.
Qed.

(** X13. In every reachable store the stats row of a tweet agrees with the
    stored engagement records: its like, retweet and bookmark counters are
    the numbers of stored records of that type on the tweet, and a tweet
    without a stats row has no record at all.  So the floor at zero in the
    counter update is never reached. *)
Theorem X13_stats_count_records (s : MemStorage) (tweetId : string)
    (type : EngagementType) :
  reachable s ->
  match getTweetStats s tweetId with
  | Some stats => counterOf type stats = Some (recordsOn s tweetId type)
  | None => recordsOn s tweetId type = 0
  end.
Proof. intros Hreach. apply (ei_stats _ (reachable_eng_inv _ Hreach)). Qed.

Lemma X13_witness :
  reachable demo
  /\ exists stats,
       getTweetStats demo "t1" = Some stats
       /\ counterOf like stats = Some (recordsOn demo "t1" like)
       /\ recordsOn demo "t1" like = 1.
Proof.
  split; [apply demo_reachable |].
  pose proof (X13_stats_count_records demo "t1" like demo_reachable) as H.
  destruct (getTweetStats demo "t1") as [stats |] eqn:E; [| discriminate E].
  exists stats. split; [reflexivity |]. split; [exact H | reflexivity].
Defined.

Lemma NoDup_map_inj_gen {A B} (f : A -> B) l x y :
  NoDup (map f l) -> In x l -> In y l -> f x = f y -> x = y.
Proof.
  induction l as [| z l IH]; simpl; [tauto |].
  intros Hnd Hx Hy Heq. inversion Hnd as [| ? ? Hnot Hnd']; subst.
  destruct Hx as [-> | Hx], Hy as [-> | Hy]; auto.
  - exfalso. apply Hnot. rewrite Heq. now apply in_map.
  - exfalso. apply Hnot. rewrite <- Heq. now apply in_map.
Qed.

Lemma NoDup_types_of_pair u t l :
  NoDup (map tripleOf l) ->
  NoDup (map TweetEngagement.type
           (filter (fun e => (TweetEngagement.userId e =s u)
                             && (TweetEngagement.tweetId e =s t)) l)).
Proof.
  induction l as [| e l IH]; simpl; intros H; [constructor |].
  inversion H as [| ? ? Hnot Hnd]; subst.
  destruct ((TweetEngagement.userId e =s u)
            && (TweetEngagement.tweetId e =s t)) eqn:Eq; [| now apply IH].
  simpl. constructor; [| now apply IH].
  intros Hin. apply Hnot. apply in_map_iff in Hin as [e' [Hty Hin]].
  apply filter_In in Hin as [Hin Hq].
  apply andb_true_iff in Eq as [E1 E2]. apply andb_true_iff in Hq as [Q1 Q2].
  apply String.eqb_eq in E1, E2, Q1, Q2.
  apply in_map_iff. exists e'. split; [| exact Hin].
  unfold tripleOf. congruence.
Qed.

(** X14. In a reachable store [getUserEngagement u t] returns at most three
    records, all of user [u] on tweet [t] and of pairwise different types:
    no triple (user, tweet, type) is ever stored twice. *)
Theorem X14_getUserEngagement_rows (s : MemStorage) (u t : string) :
  reachable s ->
  NoDup (map TweetEngagement.type (getUserEngagement s u t))
  /\ (List.length (getUserEngagement s u t) <= 3)%nat
  /\ (forall e, In e (getUserEngagement s u t) <->
        In e (JsMap.values (engagements s))
        /\ TweetEngagement.userId e = u /\ TweetEngagement.tweetId e = t)
  /\ NoDup (map tripleOf (JsMap.values (engagements s))).
Proof.
  intros Hreach. pose proof (reachable_eng_inv _ Hreach) as [_ Huniq _].
  assert (Hnd : NoDup (map TweetEngagement.type (getUserEngagement s u t)))
    by (now apply NoDup_types_of_pair).
  split; [exact Hnd |]. split; [| split; [| exact Huniq]].
  - rewrite <- (length_map TweetEngagement.type).
    apply (NoDup_incl_length (l' := [like; retweet; bookmark]) Hnd).
    intros ty _. destruct ty; simpl; auto.
  - intros e. unfold getUserEngagement. rewrite filter_In, andb_true_iff.
    now rewrite !String.eqb_eq.
Qed.

Lemma X14_witness :
  reachable demo
  /\ List.length (getUserEngagement demo "u2" "t1") = 1%nat
  /\ NoDup (map TweetEngagement.type (getUserEngagement demo "u2" "t1"))
  /\ (List.length (getUserEngagement demo "u2" "t1") <= 3)%nat.
Proof.
  split; [apply demo_reachable |]. split; [reflexivity |].
  destruct (X14_getUserEngagement_rows demo "u2" "t1" demo_reachable)
    as (H1 & H2 & _).
  split; assumption.
Defined.

(** X15. [removeEngagement u t type] throws "No <type> found for this
    tweet" exactly when no record for the triple is stored, and then leaves
    the store as it was.  Otherwise, in a reachable store, it succeeds: the
    record of the triple is gone and every other record is kept, the users,
    tweets, mentions and edges are untouched, and the matching counter of
    the tweet's stats row is one less than before while the other counters
    keep their value. *)
Theorem X15_removeEngagement (s : MemStorage) (u t : string)
    (ty : EngagementType) (c d : Z) :
  (fst (removeEngagement u t ty c d s) = inl (NoEngagementError ty)
   <-> ~ hasEngagement s u t ty)
  /\ (forall e, fst (removeEngagement u t ty c d s) = inl e ->
        snd (removeEngagement u t ty c d s) = s)
  /\ (reachable s -> hasEngagement s u t ty ->
      exists s' st st',
        removeEngagement u t ty c d s = (inr tt, s')
        /\ ~ hasEngagement s' u t ty
        /\ (forall e, In e (JsMap.values (engagements s')) <->
              In e (JsMap.values (engagements s)) /\ tripleOf e <> (u, t, ty))
        /\ users s' = users s /\ tweets s' = tweets s
        /\ mentions s' = mentions s /\ follows s' = follows s
        /\ getTweetStats s t = Some st
        /\ getTweetStats s' t = Some st'
        /\ counterOf ty st = Some (recordsOn s t ty)
        /\ counterOf ty st' = Some (recordsOn s t ty - 1)
        /\ 0 <= recordsOn s t ty - 1
        /\ (forall ty', ty' <> ty -> counterOf ty' st' = counterOf ty' st)).
Proof.
  destruct (find (sameEngagement u t ty) (JsMap.values (engagements s)))
    as [e0 |] eqn:Hfind.
  - pose proof Hfind as Hsome. apply find_some in Hsome as [Hin0 He0].
    apply sameEngagement_true in He0 as (Eu & Et & Ety).
    assert (Hhas : hasEngagement s u t ty) by (exists e0; auto).
    rewrite (removeEngagement_run _ _ _ _ _ _ _ Hfind). simpl.
    split; [split; [discriminate | tauto] |].
    split; [discriminate |].
    intros Hreach _.
    pose proof (reachable_eng_inv _ Hreach) as [Hkeyed Huniq Hstats].
    assert (Hiff : forall e,
      In e (JsMap.values (JsMap.delete (TweetEngagement.id e0) (engagements s)))
      <-> In e (JsMap.values (engagements s)) /\ tripleOf e <> (u, t, ty)).
    { intros e.
      rewrite (in_values_delete_keyed TweetEngagement.id _ _ _ Hkeyed).
      split; intros [He Hx]; (split; [exact He |]).
      - intros Htr. apply Hx. f_equal.
        apply (NoDup_map_inj_gen tripleOf _ _ _ Huniq He Hin0).
        rewrite Htr. unfold tripleOf. congruence.
      - intros Hid. apply Hx.
        pose proof (keyed_get TweetEngagement.id _ _ Hkeyed He) as G1.
        pose proof (keyed_get TweetEngagement.id _ _ Hkeyed Hin0) as G2.
        rewrite Hid, G2 in G1. injection G1 as <-.
        unfold tripleOf. congruence. }
    pose proof (Hstats t ty) as Hrow. unfold getTweetStats in *.
    assert (Hpos : 1 <= recordsOn s t ty).
    { unfold recordsOn. apply (length_filter_pos _ _ e0 Hin0).
      rewrite Et, Ety, String.eqb_refl. simpl.
      now apply EngagementType_eqb_eq. }
    destruct (JsMap.get t (tweetStats s)) as [st |] eqn:Gst; [| lia].
    eexists. exists st. eexists. split; [reflexivity |]. simpl.
    split.
    { intros [e [He [Hu [Ht Hty]]]]. apply Hiff in He as [_ Hx].
      apply Hx. unfold tripleOf. congruence. }
    split; [exact Hiff |]. do 4 (split; [reflexivity |]).
    split; [reflexivity |].
    split; [rewrite get_statsAfter, Gst; reflexivity |].
    split; [exact Hrow |].
    split; [rewrite counterOf_bump_same, Hrow; simpl; f_equal; lia |].
    split; [lia |].
    intros ty' Hne. now apply counterOf_bump_other.
  - assert (Hno : ~ hasEngagement s u t ty)
      by (now apply find_sameEngagement_none).
    assert (E : removeEngagement u t ty c d s = (inl (NoEngagementError ty), s)).
    { unfold removeEngagement. run_M. now rewrite Hfind. }
    rewrite E. simpl. split; [tauto |]. split; [reflexivity | tauto].
Qed.

Lemma demo_like_u2 : hasEngagement demo "u2" "t1" like.
Proof. eexists. split; [left; reflexivity | repeat split]. Qed.

Lemma X15_witness :
  reachable demo /\ hasEngagement demo "u2" "t1" like
  /\ exists s' st',
       removeEngagement "u2" "t1" like 7000 7001 demo = (inr tt, s')
       /\ ~ hasEngagement s' "u2" "t1" like
       /\ getTweetStats s' "t1" = Some st'
       /\ counterOf like st' = Some 0.
Proof.
  split; [apply demo_reachable |]. split; [apply demo_like_u2 |].
  destruct (X15_removeEngagement demo "u2" "t1" like 7000 7001)
    as (_ & _ & H).
  destruct (H demo_reachable demo_like_u2)
    as (s' & st & st' & H1 & H2 & _ & _ & _ & _ & _ & _ & H3 & _ & H4 & _).
  exists s', st'. split; [exact H1 |]. split; [exact H2 |].
  split; [exact H3 | exact H4].
Defined.

(** ** Profiles and follower lists *)

Lemma isFollowing_after_follow s a b id now x y :
  JsMap.get id (follows s) = None ->
  existsb (isEdge x y)
    (JsMap.values (JsMap.set id (Follow.mk id a b (Some now)) (follows s)))
  = existsb (isEdge x y) (JsMap.values (follows s))
    || ((a =s x) && (b =s y)).
Proof.
  intros Hfresh. rewrite (set_fresh _ _ _ Hfresh), values_app, existsb_app.
  simpl. unfold isEdge at 2. simpl. now rewrite orb_false_r.
Qed.

(** X16. [getUserProfile] returns nothing for a user that is not stored.
    For a stored user it returns the stored record; the flags
    [isFollowing] and [isFollowedBy] are set only for a viewer that is
    given, non-empty and not the user itself, and then say whether an edge
    from the viewer to the user, and from the user to the viewer, is
    stored.  After a successful [followUser a b] between registered users
    (fresh edge identifier), [b]'s profile seen by [a] has [isFollowing]
    true, the follower count raised by one, and the [isFollowedBy] it had
    before. *)
Theorem X16_getUserProfile (s : MemStorage) (userId : string) :
  (getUser s userId = None ->
   forall viewer, getUserProfile s userId viewer = None)
  /\ (forall u, getUser s userId = Some u ->
        getUserProfile s userId None = Some (UserProfile.mk u None None)
        /\ getUserProfile s userId (Some userId)
           = Some (UserProfile.mk u None None)
        /\ getUserProfile s userId (Some EmptyString)
           = Some (UserProfile.mk u None None)
        /\ (forall v, v <> EmptyString -> v <> userId ->
              exists fl fd,
                getUserProfile s userId (Some v)
                = Some (UserProfile.mk u (Some fl) (Some fd))
                /\ (fl = true <-> hasEdge s v userId)
                /\ (fd = true <-> hasEdge s userId v)))
  /\ (forall a ua ub id now,
        getUser s a = Some ua -> getUser s userId = Some ub ->
        a <> userId -> a <> EmptyString -> ~ hasEdge s a userId ->
        JsMap.get id (follows s) = None ->
        exists p fd,
          getUserProfile (snd (followUser a userId id now s)) userId (Some a)
          = Some p
          /\ UserProfile.isFollowing p = Some true
          /\ User.followerCount (UserProfile.user p)
             = Some (or0 (User.followerCount ub) + 1)
          /\ getUserProfile s userId (Some a)
             = Some (UserProfile.mk ub (Some false) (Some fd))
          /\ UserProfile.isFollowedBy p = Some fd).
Proof.
  split; [| split].
  - intros H viewer. unfold getUserProfile. now rewrite H.
  - intros u H. unfold getUserProfile. rewrite H.
    split; [reflexivity |].
    split; [now rewrite String.eqb_refl, andb_false_r |].
    split; [reflexivity |].
    intros v Hv Hne. unfold truthy.
    destruct (String.eqb_spec v EmptyString); [contradiction |].
    destruct (String.eqb_spec v userId); [contradiction |]. simpl.
    eexists. eexists. split; [reflexivity |].
    split; apply isFollowing_hasEdge.
  - intros a ua ub id now Ha Hb Hne Hnonempty Hno Hfresh.
    pose proof Hno as Hfind. apply find_isEdge_hasEdge in Hfind.
    rewrite (followUser_run _ _ _ _ _ Hne Hfind). simpl.
    unfold getUserProfile, getUser in *. simpl.
    rewrite (get_following_afterFollow _ _ _ _ Hb), Hb. unfold truthy.
    destruct (String.eqb_spec a EmptyString); [contradiction |].
    destruct (String.eqb_spec a userId); [contradiction |]. simpl.
    eexists. eexists. split; [reflexivity |]. simpl.
    unfold isFollowing. simpl. fold (isEdge a userId). fold (isEdge userId a).
    rewrite !(isFollowing_after_follow _ _ _ _ _ _ _ Hfresh).
    rewrite !String.eqb_refl.
    destruct (String.eqb_spec a userId); [contradiction |].
    rewrite andb_false_l, orb_false_r, orb_true_r.
    split; [reflexivity |]. split; [reflexivity |].
    split; [| reflexivity].
    rewrite existsb_find, Hfind. reflexivity.
Qed.

Lemma X16_witness :
  exists u,
    getUser demo "u1" = Some u
    /\ getUserProfile demo "u1" (Some "u2"%string)
       = Some (UserProfile.mk u (Some true) (Some false))
    /\ getUserProfile demo "u1" None = Some (UserProfile.mk u None None).
Proof.
  assert (G : exists u, getUser demo "u1" = Some u)
    by (eexists; reflexivity).
  destruct G as (u & G).
  destruct (X16_getUserProfile demo "u1") as (_ & H & _).
  destruct (H u G) as (H1 & _ & _ & H2).
  destruct (H2 "u2"%string ltac:(discriminate) ltac:(discriminate))
    as (fl & fd & H3 & _).
  exists u. split; [exact G |]. split; [| exact H1].
  rewrite H3. vm_compute in G. injection G as <-. vm_compute in H3.
  injection H3 as <- <-. reflexivity.
Defined.

Lemma push_profiles_loop s (sel : Follow.t -> string) l acc :
  fold_left
    (fun followers follow =>
       match getUserProfile s (sel follow) None with
       | Some follower => followers ++ [follower]
       | None => followers
       end) l acc
  = acc ++ flat_map
             (fun follow =>
                match getUser s (sel follow) with
                | Some x => [UserProfile.mk x None None]
                | None => []
                end) l.
Proof.
  revert acc. induction l as [| f l IH]; intros acc; simpl.
  - now rewrite app_nil_r.
  - rewrite IH. unfold getUserProfile.
    destruct (getUser s (sel f)); simpl;
      [now rewrite <- app_assoc | reflexivity].
Qed.

Lemma profiles_NoDup s (sel other : Follow.t -> string) (u : string) l :
  wf s ->
  NoDup (map Follow.id l) ->
  (forall f g, In f l -> In g l -> sel f = sel g -> other f = other g ->
               f = g) ->
  NoDup (map (fun p => User.id (UserProfile.user p))
           (flat_map
              (fun follow =>
                 match getUser s (sel follow) with
                 | Some x => [UserProfile.mk x None None]
                 | None => []
                 end)
              (filter (fun f => other f =s u) l))).
Proof.
  intros Hwf. induction l as [| f l IH]; simpl; intros Hnd Hone;
    [constructor |].
  inversion Hnd as [| ? ? Hnot Hnd']; subst.
  assert (IH' := IH Hnd' (fun f0 g0 Hf Hg =>
                            Hone f0 g0 (or_intror Hf) (or_intror Hg))).
  destruct (String.eqb_spec (other f) u) as [Hu | Hu]; [| exact IH'].
  simpl. destruct (getUser s (sel f)) as [x |] eqn:Gx; [| exact IH'].
  simpl. constructor; [| exact IH'].
  intros Hin. apply in_map_iff in Hin as [p [Hp Hin]].
  apply in_flat_map in Hin as [g [Hg Hin]].
  apply filter_In in Hg as [Hg Hgu]. apply String.eqb_eq in Hgu.
  destruct (getUser s (sel g)) as [y |] eqn:Gy; [| destruct Hin].
  destruct Hin as [<- | []]. simpl in Hp.
  unfold getUser in Gx, Gy.
  pose proof (keyed_get_id _ _ _ _ (wf_users _ Hwf) Gx) as Kx.
  pose proof (keyed_get_id _ _ _ _ (wf_users _ Hwf) Gy) as Ky.
  assert (f = g).
  { apply Hone; [now left | now right | congruence | congruence]. }
  subst g. apply Hnot. now apply in_map.
Qed.

(** X17. In a reachable store [getUserFollowers u] lists, without viewer
    flags, the stored record of every registered user that has an edge to
    [u], and nothing else; no user is listed twice.  [getUserFollowing u]
    does the same for the users that [u] has an edge to.  Users that follow
    but are not registered are left out. *)
Theorem X17_followers_following (s : MemStorage) (u : string) :
  reachable s ->
  (forall p, In p (getUserFollowers s u) <->
     exists x, p = UserProfile.mk x None None
               /\ getUser s (User.id x) = Some x
               /\ hasEdge s (User.id x) u)
  /\ NoDup (map (fun p => User.id (UserProfile.user p))
                (getUserFollowers s u))
  /\ (forall p, In p (getUserFollowing s u) <->
        exists x, p = UserProfile.mk x None None
                  /\ getUser s (User.id x) = Some x
                  /\ hasEdge s u (User.id x))
  /\ NoDup (map (fun p => User.id (UserProfile.user p))
                (getUserFollowing s u)).
Proof.
  intros Hreach. pose proof (reachable_wf _ Hreach) as Hwf.
  unfold getUserFollowers, getUserFollowing. cbv zeta.
  rewrite !push_profiles_loop, !app_nil_l.
  assert (Hids : NoDup (map Follow.id (JsMap.values (follows s)))).
  { rewrite (keyed_ids _ _ (wf_follows _ Hwf)). apply (wf_follows _ Hwf). }
  split; [| split; [| split]].
  - intros p. rewrite in_flat_map. split.
    + intros [f [Hf Hin]]. apply filter_In in Hf as [Hf Hfu].
      apply String.eqb_eq in Hfu.
      destruct (getUser s (Follow.followerId f)) as [x |] eqn:Gx;
        [| destruct Hin].
      destruct Hin as [<- | []]. exists x. split; [reflexivity |].
      pose proof (keyed_get_id _ _ _ _ (wf_users _ Hwf) Gx) as Kx.
      rewrite Kx. split; [exact Gx |]. exists f. auto.
    + intros [x [-> [Gx [f [Hf [Hfa Hfb]]]]]]. exists f. split.
      * apply filter_In. split; [exact Hf | now apply String.eqb_eq].
      * rewrite Hfa, Gx. now left.
  - apply (profiles_NoDup s Follow.followerId Follow.followingId u _ Hwf Hids).
    intros f g Hf Hg H1 H2. apply (wf_one_edge _ Hwf); auto. now split.
  - intros p. rewrite in_flat_map. split.
    + intros [f [Hf Hin]]. apply filter_In in Hf as [Hf Hfu].
      apply String.eqb_eq in Hfu.
      destruct (getUser s (Follow.followingId f)) as [x |] eqn:Gx;
        [| destruct Hin].
      destruct Hin as [<- | []]. exists x. split; [reflexivity |].
      pose proof (keyed_get_id _ _ _ _ (wf_users _ Hwf) Gx) as Kx.
      rewrite Kx. split; [exact Gx |]. exists f. auto.
    + intros [x [-> [Gx [f [Hf [Hfa Hfb]]]]]]. exists f. split.
      * apply filter_In. split; [exact Hf | now apply String.eqb_eq].
      * rewrite Hfb, Gx. now left.
  - apply (profiles_NoDup s Follow.followingId Follow.followerId u _ Hwf Hids).
    intros f g Hf Hg H1 H2. apply (wf_one_edge _ Hwf); auto. now split.
Qed.

Lemma X17_witness :
  reachable demo
  /\ map (fun p => User.id (UserProfile.user p)) (getUserFollowers demo "u1")
     = ["u2"%string]
  /\ NoDup (map (fun p => User.id (UserProfile.user p))
                (getUserFollowers demo "u1"))
  /\ getUserFollowing demo "u1" = [].
Proof.
  split; [apply demo_reachable |]. split; [reflexivity |].
  destruct (X17_followers_following demo "u1" demo_reachable)
    as (_ & H & _).
  split; [exact H | reflexivity].
Defined.

(** ** The auth routes *)

Lemma getUserByEmail_none s mail :
  getUserByEmail s mail = None <->
  forall v, In v (JsMap.values (users s)) -> User.email v <> mail.
Proof.
  unfold getUserByEmail. split.
  - intros H v Hin Hm. pose proof (find_none _ _ H _ Hin) as Hp.
    simpl in Hp. rewrite Hm, String.eqb_refl in Hp. discriminate.
  - intros H.
    destruct (find (fun user => User.email user =s mail)
                   (JsMap.values (users s))) eqn:E; [| reflexivity].
    apply find_some in E as [Hin Hm]. apply String.eqb_eq in Hm.
    now apply H in Hin.
Qed.

Lemma register_run s d hashPassword generateToken id created updated :
  getUserByEmail s (InsertUser.email d) = None ->
  getUserByUsername s (InsertUser.username d) = None ->
  register (inr d) hashPassword generateToken id created updated s
  = (AuthOk 201 (generateToken id)
       (AuthUser.mk id (InsertUser.username d) (InsertUser.email d)
                    (InsertUser.displayName d) (Some default_avatar)),
     set_users
       (JsMap.set id
          (newUser (InsertUser.mk (InsertUser.username d) (InsertUser.email d)
                      (hashPassword (InsertUser.password d))
                      (InsertUser.displayName d))
                   id created updated)) s).
Proof. intros He Hu. unfold register. rewrite He, Hu. reflexivity. Qed.

(** X18. [POST /api/auth/register] answers 400 without touching the store
    when the body does not parse, when a stored user has the email
    ("Email already registered", checked first) or when a stored user has
    the username ("Username already taken").  Otherwise it stores the new
    user with the hashed password, not the submitted one, and answers 201
    with the token for the new identifier and the five public fields.
    Whatever the outcome, usernames and emails that were unique among the
    stored users stay unique. *)
Theorem X18_register (s : MemStorage) (parsed : Error + InsertUser.t)
    (hashPassword generateToken : string -> string) (id : string)
    (created updated : Z) :
  (forall e, parsed = inl e ->
     exists message,
       register parsed hashPassword generateToken id created updated s
       = (AuthFail 400 message, s))
  /\ (forall d, parsed = inr d ->
        (forall older, getUserByEmail s (InsertUser.email d) = Some older ->
           register parsed hashPassword generateToken id created updated s
           = (AuthFail 400 "Email already registered", s))
        /\ (forall older, getUserByEmail s (InsertUser.email d) = None ->
              getUserByUsername s (InsertUser.username d) = Some older ->
              register parsed hashPassword generateToken id created updated s
              = (AuthFail 400 "Username already taken", s))
        /\ (getUserByEmail s (InsertUser.email d) = None ->
            getUserByUsername s (InsertUser.username d) = None ->
            exists s',
              register parsed hashPassword generateToken id created updated s
              = (AuthOk 201 (generateToken id)
                   (AuthUser.mk id (InsertUser.username d)
                      (InsertUser.email d) (InsertUser.displayName d)
                      (Some default_avatar)), s')
              /\ getUser s' id
                 = Some (newUser
                           (InsertUser.mk (InsertUser.username d)
                              (InsertUser.email d)
                              (hashPassword (InsertUser.password d))
                              (InsertUser.displayName d))
                           id created updated)
              /\ tweets s' = tweets s /\ mentions s' = mentions s
              /\ follows s' = follows s /\ engagements s' = engagements s
              /\ tweetStats s' = tweetStats s))
  /\ (unique_usernames s ->
      unique_usernames
        (snd (register parsed hashPassword generateToken id created
                       updated s)))
  /\ (unique_emails s ->
      unique_emails
        (snd (register parsed hashPassword generateToken id created
                       updated s))).
Proof.
  split; [| split].
  - intros e ->. eexists. reflexivity.
  - intros d ->. split; [| split].
    + intros older H. unfold register. now rewrite H.
    + intros older He Hu. unfold register. now rewrite He, Hu.
    + intros He Hu. rewrite (register_run _ _ _ _ _ _ _ He Hu).
      eexists. split; [reflexivity |]. unfold getUser. simpl.
      split; [apply get_set_same | repeat split].
  - assert (Hgen : forall (key : User.t -> string),
      (forall u v, In u (JsMap.values (users s)) ->
                   In v (JsMap.values (users s)) -> key u = key v -> u = v) ->
      (forall d, parsed = inr d ->
         getUserByEmail s (InsertUser.email d) = None ->
         getUserByUsername s (InsertUser.username d) = None ->
         forall v, In v (JsMap.values (users s)) ->
           key v <> key (newUser
                           (InsertUser.mk (InsertUser.username d)
                              (InsertUser.email d)
                              (hashPassword (InsertUser.password d))
                              (InsertUser.displayName d))
                           id created updated)) ->
      forall u v,
        In u (JsMap.values
                (users (snd (register parsed hashPassword generateToken id
                                      created updated s)))) ->
        In v (JsMap.values
                (users (snd (register parsed hashPassword generateToken id
                                      created updated s)))) ->
        key u = key v -> u = v).
    { intros key Huniq Hnew.
      destruct parsed as [e | d]; [exact Huniq |].
      destruct (getUserByEmail s (InsertUser.email d)) eqn:He.
      { unfold register. rewrite He. exact Huniq. }
      destruct (getUserByUsername s (InsertUser.username d)) eqn:Hu.
      { unfold register. rewrite He, Hu. exact Huniq. }
      rewrite (register_run _ _ _ _ _ _ _ He Hu). simpl.
      specialize (Hnew d eq_refl He Hu).
      intros u v Hin1 Hin2 Hk.
      apply in_values_set in Hin1 as [-> | Hin1];
        apply in_values_set in Hin2 as [-> | Hin2]; auto.
      - symmetry in Hk. now apply Hnew in Hk.
      - now apply Hnew in Hk. }
    split.
    + intros Huniq. unfold unique_usernames in *.
      refine (Hgen User.username Huniq _).
      intros d _ _ Hu v Hin. simpl.
      apply getUserByUsername_none in Hu. intros Hk. apply Hu. now exists v.
    + intros Huniq. unfold unique_emails in *.
      refine (Hgen User.email Huniq _).
      intros d _ He _ v Hin. simpl.
      now apply (proj1 (getUserByEmail_none _ _) He).
Qed.

Lemma X18_witness :
  unique_usernames demo
  /\ (exists older, getUserByUsername demo "bob" = Some older)
  /\ register (inr (InsertUser.mk "bob" "bob@example.org" "pw" "Robert"))
              (fun p => ("hashed:" ++ p)%string) (fun i => ("token:" ++ i)%string)
              "u3" 7000 7000 demo
     = (AuthFail 400 "Username already taken", demo)
  /\ unique_usernames
       (snd (register
               (inr (InsertUser.mk "carol" "carol@example.org" "pw" "Carol"))
               (fun p => ("hashed:" ++ p)%string)
               (fun i => ("token:" ++ i)%string) "u3" 7000 7000 demo)).
Proof.
  split; [apply demo_unique_usernames |].
  split; [eexists; reflexivity |]. split.
  - destruct (X18_register demo
                (inr (InsertUser.mk "bob" "bob@example.org" "pw" "Robert"))
                (fun p => ("hashed:" ++ p)%string)
                (fun i => ("token:" ++ i)%string) "u3" 7000 7000)
      as (_ & H & _).
    destruct (H _ eq_refl) as (_ & H2 & _).
    eapply H2; reflexivity.
  - destruct (X18_register demo
                (inr (InsertUser.mk "carol" "carol@example.org" "pw" "Carol"))
                (fun p => ("hashed:" ++ p)%string)
                (fun i => ("token:" ++ i)%string) "u3" 7000 7000)
      as (_ & _ & H & _).
    exact (H demo_unique_usernames).
Defined.




(** ** The mention tokens *)

Lemma word_prefix_all_word r : all_word (word_prefix r) = true.
Proof.
  induction r as [| c r IH]; simpl; [reflexivity |].
  destruct (is_word c) eqn:E; simpl; [now rewrite E | reflexivity].
Qed.

Lemma exec_all_tokens content skip token :
  In token (exec_all content skip) ->
  token <> EmptyString /\ all_word token = true.
Proof.
  revert skip. induction content as [| c rest IH]; intros skip; simpl;
    [tauto |].
  destruct skip as [| k]; [| apply IH].
  destruct (is_at c); [| apply IH].
  destruct (word_prefix rest) as [| c' w] eqn:E; [apply IH |].
  intros [<- | Hin]; [| now apply IH in Hin].
  split; [discriminate |]. rewrite <- E. apply word_prefix_all_word.
Qed.

(** X20. Every token that [extractMentionsFromContent] returns is non-empty
    and consists of letters, digits and underscores only.  So a username
    with any other character (a dot, a dash, a non-ASCII letter) is never
    among the tokens of any content: such a user cannot be mentioned, and
    no token resolves to it in [getUserTimeline]. *)
Theorem X20_tokens_are_words (content : string) :
  (forall token, In token (extractMentionsFromContent content) ->
     token <> EmptyString /\ all_word token = true)
  /\ (forall name, all_word name = false ->
        ~ In name (extractMentionsFromContent content))
  /\ (forall s X u tw,
        reachable s -> getUser s X = Some u ->
        all_word (User.username u) = false -> unique_usernames s ->
        In tw (getUserTimeline s X) -> TweetWithAuthor.authorId tw = X).
Proof.
  assert (H : forall c token, In token (extractMentionsFromContent c) ->
                token <> EmptyString /\ all_word token = true)
    by (intros c token; apply exec_all_tokens).
  split; [apply H |]. split.
  - intros name Hname Hin. apply H in Hin as [_ Hw]. congruence.
  - intros s X u tw Hreach HX Hname Huniq Hin.
    pose proof (reachable_wf _ Hreach) as Hwf.
    apply (timeline_In _ _ _ Hwf) in Hin as [Hall [Ha | Hres]]; [exact Ha |].
    exfalso.
    apply (resolves_unique_username s X u _ Hwf Huniq HX) in Hres.
    apply (getAllTweets_In _ _ Hwf) in Hall as (t & a & _ & _ & ->).
    simpl in Hres. apply H in Hres as [_ Hw]. congruence.
Qed.

Lemma X20_witness :
  all_word "bob.smith" = false
  /\ extractMentionsFromContent "hi @bob.smith" = ["bob"%string]
  /\ ~ In "bob.smith"%string (extractMentionsFromContent "hi @bob.smith").
Proof.
  split; [reflexivity |]. split; [reflexivity |].
  destruct (X20_tokens_are_words "hi @bob.smith") as (_ & H & _).
  apply H. reflexivity.
Defined.
